(** * Orbrya module 4: extractor, profiler, scene population and scenario

    A shallow embedding of the JavaScript sources

      - src/engine/CodeExecutor.js       (parameter extractor)
      - VisualProfiler.js                (metrics sampler, unnamed/part_006)
      - SceneController.js               (population engine, unnamed/part_001)
      - Scenario.js / InfiniteForest.js  (scenario state machine,
                                          unnamed/part_004 and
                                          src/scenarios/templates/TreeSpawner.cs)
      - ScenarioManager.js               (progress tracking, in the same
                                          TreeSpawner.cs)
      - src/scenarios/ScenarioLoader.js  (solution patterns)
      - src/utils/ProfilingTestSuite.js  (overall status)
      - main.js                          (shortcuts, unnamed/part_003)

    followed by the properties of the specification stated over it. *)

From Stdlib Require Import ZArith NArith QArith Qround List Bool String Ascii Lia Lqa.
From stdpp Require Import base list gmap strings pretty.

Open Scope Z_scope.

(* ===================================================================== *)
(** * JavaScript values used by the sources                               *)
(* ===================================================================== *)

Module JS.

(** A JavaScript string is a sequence of UTF-16 code units. *)
Abbreviation jsstring := (list N).

(** ASCII literal text of the sources, as code units. *)
Definition js (s : string) : jsstring :=
  map N_of_ascii (list_ascii_of_string s).

(** Character classes of (non-unicode-mode) regular expressions. *)
Definition is_digit (c : N) : bool := ((48 <=? c) && (c <=? 57))%N.

Definition is_word (c : N) : bool :=
  (is_digit c
   || ((65 <=? c) && (c <=? 90))
   || ((97 <=? c) && (c <=? 122))
   || (c =? 95))%N.

Definition is_line_terminator (c : N) : bool :=
  ((c =? 10) || (c =? 13) || (c =? 0x2028) || (c =? 0x2029))%N.

(** [\s]: WhiteSpace and LineTerminator code points. *)
Definition is_space (c : N) : bool :=
  ((c =? 9) || (c =? 10) || (c =? 11) || (c =? 12) || (c =? 13)
   || (c =? 32) || (c =? 160) || (c =? 0x1680)
   || ((0x2000 <=? c) && (c <=? 0x200A))
   || (c =? 0x2028) || (c =? 0x2029) || (c =? 0x202F)
   || (c =? 0x205F) || (c =? 0x3000) || (c =? 0xFEFF))%N.

(** [.] without the s flag. *)
Definition is_dot (c : N) : bool := negb (is_line_terminator c).

(** [[\s\S]]. *)
Definition is_any (c : N) : bool := is_space c || negb (is_space c).

(** Canonicalize of the i flag, restricted to what a comparison against an
    ASCII pattern character can observe: a code unit above 127 never
    canonicalizes to an ASCII one, so only ASCII lower case is folded. *)
Definition canonicalize (c : N) : N :=
  (if (97 <=? c) && (c <=? 122) then c - 32 else c)%N.

(** String.prototype.trim *)
Fixpoint trimStart (s : jsstring) : jsstring :=
  match s with
  | c :: s' => if is_space c then trimStart s' else s
  | [] => []
  end.

Definition trim (s : jsstring) : jsstring :=
  rev (trimStart (rev (trimStart s))).

(** Numbers.  The sources only ever hold integers in these variables, but
    they are IEEE doubles: integers are exact below 2^53.  [Huge] stands
    for a double of magnitude at least 2^53 (including Infinity) whose
    exact value the model does not track; the sources only compare such a
    value with small constants, add one to it, or take its minimum with the
    safety cap. *)
Inductive number :=
| NaN
| Num (z : Z)
| Huge (negative : bool).

Definition safe_bound : Z := 2 ^ 53.

Definition norm (z : Z) : number :=
  if z <? safe_bound then
    if - safe_bound <? z then Num z else Huge true
  else Huge false.

Definition add1 (x : number) : number :=
  match x with
  | NaN => NaN
  | Num z => norm (z + 1)
  | Huge b => Huge b
  end.

(** [x < y] on numbers; any comparison with NaN is false. *)
Definition lt (x y : number) : bool :=
  match x, y with
  | NaN, _ | _, NaN => false
  | Num a, Num b => a <? b
  | Num _, Huge neg => negb neg
  | Huge neg, Num _ => neg
  | Huge n1, Huge n2 => n1 && negb n2
  end.

Definition gt (x y : number) : bool := lt y x.

(** [x <= y]: true when [x < y] or the two are equal; for two untracked
    values of the same sign the sources never ask. *)
Definition le (x y : number) : bool :=
  match x, y with
  | NaN, _ | _, NaN => false
  | Num a, Num b => a <=? b
  | Num _, Huge neg => negb neg
  | Huge neg, Num _ => neg
  | Huge n1, Huge n2 => n1 || negb n2
  end.

(** Math.min of two arguments. *)
Definition Math_min (x y : number) : number :=
  match x, y with
  | NaN, _ | _, NaN => NaN
  | _, _ => if lt y x then y else x
  end.

(** ToBoolean on [number | null]. *)
Definition truthy (x : option number) : bool :=
  match x with
  | None => false
  | Some NaN => false
  | Some (Num z) => negb (z =? 0)
  | Some (Huge _) => true
  end.

(** parseInt(s, 10): skip leading white space, an optional sign, then the
    longest prefix of decimal digits; NaN when there is none. *)
Definition digit_value (c : N) : Z := Z.of_N (c - 48).

Fixpoint digits_prefix (s : jsstring) : jsstring :=
  match s with
  | c :: s' => if is_digit c then c :: digits_prefix s' else []
  | [] => []
  end.

Definition decimal_value (ds : jsstring) : Z :=
  fold_left (fun acc c => 10 * acc + digit_value c) ds 0.

Definition parseInt (s : jsstring) : number :=
  let s1 := trimStart s in
  let '(neg, s2) :=
    match s1 with
    | 45%N :: t => (true, t)
    | 43%N :: t => (false, t)
    | _ => (false, s1)
    end in
  match digits_prefix s2 with
  | [] => NaN
  | ds => norm (if neg then - decimal_value ds else decimal_value ds)
  end.

(** Number.prototype.toString for the integers the messages print. *)
Definition toString (z : Z) : jsstring := js (pretty z).

(** [x || d] where [x] is a number, null or undefined and [d] a number:
    zero counts as missing. *)
Definition or_default (x : option Z) (d : Z) : Z :=
  match x with
  | Some v => if v =? 0 then d else v
  | None => d
  end.

(** Math.round, on exact rationals. *)
Definition Math_round (q : Q) : Z := Qfloor (q + (1 # 2)).

End JS.

(* ===================================================================== *)
(** * Regular expressions of the sources                                  *)
(* ===================================================================== *)

Module Regex.
Import JS.

(** The fragment the sources use: every quantifier ranges over a single
    character class, groups are not nested in quantifiers, and the only
    assertion is [$] under the m flag. *)
Inductive regex :=
| Eps
| Chr (p : N -> bool)
| Star (greedy : bool) (p : N -> bool)
| Seq (r1 r2 : regex)
| Alt (r1 r2 : regex)
| Group (i : nat) (r : regex)
| Eol.

Abbreviation captures := (gmap nat (list N)).

Definition lit_char (c : N) : regex := Chr (N.eqb c).
Definition lit_char_i (c : N) : regex :=
  Chr (fun x => N.eqb (canonicalize x) (canonicalize c)).

Definition Lit (s : string) : regex :=
  fold_right (fun c r => Seq (lit_char c) r) Eps (js s).
Definition LitI (s : string) : regex :=
  fold_right (fun c r => Seq (lit_char_i c) r) Eps (js s).

Definition Plus (greedy : bool) (p : N -> bool) : regex :=
  Seq (Chr p) (Star greedy p).

(** Backtracking matcher in continuation-passing style.  The continuation
    receives the unread rest of the input; the first successful path in
    priority order (greedy: longest first, lazy: shortest first, leftmost
    alternative first) wins, as in the language's RegExp semantics. *)
Section Matcher.
Context {A : Type}.

Fixpoint star_greedy (p : N -> bool) (s : jsstring)
    (k : jsstring -> option A) : option A :=
  match s with
  | c :: s' =>
      if p c then
        match star_greedy p s' k with
        | Some r => Some r
        | None => k s
        end
      else k s
  | [] => k []
  end.

Fixpoint star_lazy (p : N -> bool) (s : jsstring)
    (k : jsstring -> option A) : option A :=
  match k s with
  | Some r => Some r
  | None =>
      match s with
      | c :: s' => if p c then star_lazy p s' k else None
      | [] => None
      end
  end.

Fixpoint run (r : regex) (s : jsstring) (caps : captures)
    (k : jsstring -> captures -> option A) : option A :=
  match r with
  | Eps => k s caps
  | Chr p =>
      match s with
      | c :: s' => if p c then k s' caps else None
      | [] => None
      end
  | Star g p =>
      (if g then star_greedy else star_lazy) p s (fun s' => k s' caps)
  | Seq r1 r2 => run r1 s caps (fun s' caps' => run r2 s' caps' k)
  | Alt r1 r2 =>
      match run r1 s caps k with
      | Some x => Some x
      | None => run r2 s caps k
      end
  | Group i r =>
      run r s caps
        (fun s' caps' => k s' (<[i := take (length s - length s') s]> caps'))
  | Eol =>
      match s with
      | [] => k s caps
      | c :: _ => if is_line_terminator c then k s caps else None
      end
  end.

End Matcher.

(** A match attempt anchored at the start of [s]: the unread rest and the
    groups, group 0 being the whole match. *)
Definition match_here (r : regex) (s : jsstring)
    : option (jsstring * captures) :=
  run (Group 0 r) s ∅ (fun s' caps => Some (s', caps)).

(** RegExp.prototype.exec without the g flag: leftmost start position. *)
Fixpoint search (r : regex) (s : jsstring) : option (jsstring * captures) :=
  match match_here r s with
  | Some x => Some x
  | None =>
      match s with
      | [] => None
      | _ :: s' => search r s'
      end
  end.

(** String.prototype.match with a non-global pattern: the array of the
    whole match and the groups, or null. *)
Definition str_match (s : jsstring) (r : regex) : option captures :=
  snd <$> search r s.

(** String.prototype.replace with a global pattern and the empty
    replacement.  [skip] counts the code units of the current match still
    to be dropped; after an empty match the next code unit is kept and the
    scan resumes one position further. *)
Fixpoint replace_all_go (r : regex) (skip : nat) (s : jsstring) : jsstring :=
  match s with
  | [] => []
  | c :: s' =>
      match skip with
      | S n => replace_all_go r n s'
      | O =>
          match match_here r s with
          | Some (rest, _) =>
              match (length s - length rest)%nat with
              | O => c :: replace_all_go r 0 s'
              | S n => replace_all_go r n s'
              end
          | None => c :: replace_all_go r 0 s'
          end
      end
  end.

Definition replace_all (s : jsstring) (r : regex) : jsstring :=
  replace_all_go r 0 s.

End Regex.

(* ===================================================================== *)
(** * CodeExecutor.js: the parameter extractor                            *)
(* ===================================================================== *)

Module CodeExecutor.
Import JS Regex.

(** [this.maxTreeLimit = 1000], the safety cap set by the constructor. *)
Definition maxTreeLimit : Z := 1000.

Inductive Pattern := PWhile | PFor | PAssignment.

Record ParseResult := mkParseResult {
  valid : bool;
  limit : option number;
  condition : option jsstring;
  pattern : option Pattern;
  errors : list jsstring;
  warnings : list jsstring
}.

(** Emoji of the messages, as UTF-16 code units. *)
Definition emoji_warning : jsstring := [0x26A0; 0xFE0F]%N.
Definition emoji_bulb : jsstring := [0xD83D; 0xDCA1]%N.
Definition emoji_red : jsstring := [0xD83D; 0xDD34]%N.
Definition emoji_orange : jsstring := [0xD83D; 0xDFE0]%N.
Definition emoji_yellow : jsstring := [0xD83D; 0xDFE1]%N.
Definition emoji_green : jsstring := [0xD83D; 0xDFE2]%N.
Definition dquote : jsstring := [34%N].

(** /\/\/.*$/gm and /\/\*[\s\S]*?\*\//g *)
Definition re_line_comment : regex :=
  Seq (Lit "//") (Seq (Star true is_dot) Eol).
Definition re_block_comment : regex :=
  Seq (Lit "/*") (Seq (Star false is_any) (Lit "*/")).

Definition stripComments (code : jsstring) : jsstring :=
  replace_all (replace_all code re_line_comment) re_block_comment.

(** /while\s*\(\s*(.+?)\s*\)/ *)
Definition re_while : regex :=
  Seq (Lit "while")
    (Seq (Star true is_space)
      (Seq (lit_char 40)
        (Seq (Star true is_space)
          (Seq (Group 1 (Plus false is_dot))
            (Seq (Star true is_space) (lit_char 41)))))).

(** /for\s*\([^;]+;\s*\w+\s*(<|<=)\s*(\d+)/ *)
Definition re_for : regex :=
  Seq (Lit "for")
    (Seq (Star true is_space)
      (Seq (lit_char 40)
        (Seq (Plus true (fun c => negb (N.eqb c 59)))
          (Seq (lit_char 59)
            (Seq (Star true is_space)
              (Seq (Plus true is_word)
                (Seq (Star true is_space)
                  (Seq (Group 1 (Alt (Lit "<") (Lit "<=")))
                    (Seq (Star true is_space)
                      (Group 2 (Plus true is_digit))))))))))).

(** /(maxTrees|treeCount|count)\s*=\s*(\d+)/i *)
Definition re_assign : regex :=
  Seq (Group 1 (Alt (LitI "maxTrees") (Alt (LitI "treeCount") (LitI "count"))))
    (Seq (Star true is_space)
      (Seq (lit_char_i 61)
        (Seq (Star true is_space)
          (Group 2 (Plus true is_digit))))).

(** The five condition shapes of extractLimitFromCondition:
    /\w+\s*<\s*(\d+)/, /\w+\s*<=\s*(\d+)/, /(\d+)\s*>\s*\w+/,
    /(\d+)\s*>=\s*\w+/ and /\w+\s*!=\s*(\d+)/. *)
Definition re_ident_op_num (op : string) : regex :=
  Seq (Plus true is_word)
    (Seq (Star true is_space)
      (Seq (Lit op)
        (Seq (Star true is_space)
          (Group 1 (Plus true is_digit))))).

Definition re_num_op_ident (op : string) : regex :=
  Seq (Group 1 (Plus true is_digit))
    (Seq (Star true is_space)
      (Seq (Lit op)
        (Seq (Star true is_space)
          (Plus true is_word)))).

Definition re_lt : regex := re_ident_op_num "<".
Definition re_le : regex := re_ident_op_num "<=".
Definition re_gt : regex := re_num_op_ident ">".
Definition re_ge : regex := re_num_op_ident ">=".
Definition re_ne : regex := re_ident_op_num "!=".

(** [match[i]] of a successful match; an unset group reads as the empty
    string here, which parseInt turns into NaN like undefined. *)
Definition group (caps : captures) (i : nat) : jsstring :=
  default [] (caps !! i).

(** Returns [number | null]. *)
Definition extractLimitFromCondition (condition : jsstring) : option number :=
  match str_match condition re_lt with
  | Some caps => Some (parseInt (group caps 1))
  | None =>
  match str_match condition re_le with
  | Some caps => Some (add1 (parseInt (group caps 1)))
  | None =>
  match str_match condition re_gt with
  | Some caps => Some (parseInt (group caps 1))
  | None =>
  match str_match condition re_ge with
  | Some caps => Some (add1 (parseInt (group caps 1)))
  | None =>
  match str_match condition re_ne with
  | Some caps => Some (parseInt (group caps 1))
  | None => None
  end end end end end.

Definition push_warning (w : jsstring) (r : ParseResult) : ParseResult :=
  mkParseResult (valid r) (limit r) (condition r) (pattern r)
    (errors r) (warnings r ++ [w]).

Definition addPerformanceWarnings (result : ParseResult) : ParseResult :=
  if negb (truthy (limit result)) then result
  else
    let l := default NaN (limit result) in
    if gt l (Num 500) then
      push_warning
        (emoji_red ++ js " 500+ trees: Expect <20 FPS on Chromebook") result
    else if gt l (Num 300) then
      push_warning
        (emoji_orange ++ js " 300+ trees: FPS will drop to ~30") result
    else if gt l (Num 175) then
      push_warning
        (emoji_yellow ++ js " 175+ trees: FPS may drop below 45") result
    else if le l (Num 50) then
      push_warning
        (emoji_green ++ js " Good choice! Should run at 60 FPS") result
    else result.

Definition msg_capped : jsstring :=
  js "Capped at " ++ toString maxTreeLimit ++ js " trees for safety".
Definition msg_infinite : jsstring :=
  emoji_warning ++ js " 'while (true)' = infinite loop!".
Definition msg_safety_cap : jsstring :=
  js "Safety cap: spawning " ++ toString maxTreeLimit ++ js " trees".
Definition msg_while_false : jsstring := js "'while (false)' spawns 0 trees".
Definition msg_cant_parse (condition : jsstring) : jsstring :=
  js "Can't parse: " ++ dquote ++ condition ++ dquote.
Definition msg_try : jsstring := emoji_bulb ++ js " Try: treeCount < 50".
Definition msg_not_found : jsstring := js "Couldn't find a loop or tree count.".
Definition msg_add : jsstring := emoji_bulb ++ js " Add: while (treeCount < 50)".

Definition parseStudentCode (code : jsstring) : ParseResult :=
  let cleanCode := stripComments code in
  match str_match cleanCode re_while with
  | Some whileMatch =>
      let condition := trim (group whileMatch 1) in
      let result :=
        match extractLimitFromCondition condition with
        | Some limit =>
            mkParseResult true (Some (Math_min limit (Num maxTreeLimit)))
              (Some condition) (Some PWhile) []
              (if gt limit (Num maxTreeLimit) then [msg_capped] else [])
        | None =>
            if bool_decide (condition = js "true") then
              mkParseResult true (Some (Num maxTreeLimit))
                (Some condition) (Some PWhile)
                [msg_infinite] [msg_safety_cap]
            else if bool_decide (condition = js "false") then
              mkParseResult true (Some (Num 0))
                (Some condition) (Some PWhile) [] [msg_while_false]
            else
              mkParseResult false None (Some condition) (Some PWhile)
                [msg_cant_parse condition; msg_try] []
        end in
      addPerformanceWarnings result
  | None =>
  match str_match cleanCode re_for with
  | Some forMatch =>
      let op := group forMatch 1 in
      let limit0 := parseInt (group forMatch 2) in
      let limit := if bool_decide (op = js "<=") then add1 limit0 else limit0 in
      addPerformanceWarnings
        (mkParseResult true (Some (Math_min limit (Num maxTreeLimit)))
           (Some (js "i " ++ op ++ js " " ++ group forMatch 2))
           (Some PFor) [] [])
  | None =>
  match str_match cleanCode re_assign with
  | Some assignMatch =>
      addPerformanceWarnings
        (mkParseResult true
           (Some (Math_min (parseInt (group assignMatch 2)) (Num maxTreeLimit)))
           (Some (group assignMatch 1 ++ js " = " ++ group assignMatch 2))
           (Some PAssignment) [] [])
  | None =>
      mkParseResult false None None None [msg_not_found; msg_add] []
  end end end.

End CodeExecutor.

(* ===================================================================== *)
(** * VisualProfiler.js: the metrics sampler                              *)
(* ===================================================================== *)

Module VisualProfiler.
Import JS.

(** A JavaScript array: a slot is a value or a hole (reads as undefined).
    [a[i] = v] overwrites in range and grows the array past its end,
    leaving holes in the skipped slots. *)
Abbreviation jsarray := (list (option Z)).

Definition array_get (a : jsarray) (i : nat) : option Z := mjoin (a !! i).

Definition array_set (a : jsarray) (i : nat) (v : Z) : jsarray :=
  if decide (i < length a)%nat then <[i := Some v]> a
  else a ++ replicate (i - length a) None ++ [Some v].

Record Threshold := mkThreshold { green : Z; yellow : Z }.

Record Metrics := mkMetrics {
  fps : Z;
  frameTime : Q;
  memory : option Z;          (* number | null; the sources store numbers *)
  drawCalls : Z;
  triangles : Z;
  geometries : Z
}.

Record Health := mkHealth { c : string; i : jsstring; l : string }.

(** The icon literals, code unit by code unit as the file has them. *)
Definition icon_ok : jsstring := [0x201A; 0xFA; 0xD6]%N.
Definition icon_warn : jsstring := [0x201A; 0xF6; 0x2020; 0xD4; 0x220F; 0xE8]%N.
Definition icon_bad : jsstring := [0x201A; 0xF9; 0xE5]%N.

Inductive DomWrite :=
| WriteFps (v : Z) (h : Health)
| WriteMemory (v : option Z) (h : Health)
| WriteDrawCalls (v : Z) (h : Health)
| WriteStats (tris geos : Z)
| DrawGraph (samples : list (option Z)).

Record Profiler := mkProfiler {
  thresholds : gmap string Threshold;
  metrics : Metrics;
  fpsHistory : jsarray;
  historyIndex : nat;
  frameCount : Z;
  lastFpsTime : Q;
  graphUpdateCounter : Z;
  prev_fps : option Z;               (* this.prevValues.fps, .memory, .dc *)
  prev_memory : option (option Z);
  prev_dc : option Z;
  has_panel : bool;                  (* this.elements.fps is set *)
  has_graph : bool;                  (* this.graphCtx is set *)
  dom : list DomWrite
}.

(** What the host and the renderer answer when a sample is taken. *)
Record RenderInfo := mkRenderInfo {
  calls : option Z;
  render_triangles : option Z;
  memory_geometries : option Z
}.

Record Host := mkHost {
  now : Q;                           (* performance.now() *)
  renderer_info : option RenderInfo; (* this.renderer?.info *)
  usedJSHeapSize : option Z          (* performance.memory, Chrome only *)
}.

Definition default_thresholds : gmap string Threshold :=
  <["fps" := mkThreshold 45 30]>
    (<["memory" := mkThreshold 300 350]>
      (<["drawCalls" := mkThreshold 50 80]> ∅)).

(** constructor; [t0] is the performance.now() reading it takes. *)
Definition constructor (t0 : Q) : Profiler :=
  {| thresholds := default_thresholds;
     metrics := mkMetrics 60 (1667 # 100) (Some 0) 0 0 0;
     fpsHistory := replicate 60 (Some 60);
     historyIndex := 0;
     frameCount := 0;
     lastFpsTime := t0;
     graphUpdateCounter := 0;
     prev_fps := None; prev_memory := None; prev_dc := None;
     has_panel := false; has_graph := false;
     dom := [] |}.

(** init(panelManager): with a panel manager the panel is created, its
    elements cached and the graph canvas set up. *)
Definition init (panelManager : bool) (p : Profiler) : Profiler :=
  mkProfiler (thresholds p) (metrics p) (fpsHistory p) (historyIndex p)
    (frameCount p) (lastFpsTime p) (graphUpdateCounter p)
    (prev_fps p) (prev_memory p) (prev_dc p)
    (if panelManager then true else has_panel p)
    (if panelManager then true else has_graph p)
    (dom p).

(** update(): the per-frame hook. *)
Definition update (p : Profiler) : Profiler :=
  mkProfiler (thresholds p) (metrics p) (fpsHistory p) (historyIndex p)
    (frameCount p + 1) (lastFpsTime p) (graphUpdateCounter p)
    (prev_fps p) (prev_memory p) (prev_dc p) (has_panel p) (has_graph p)
    (dom p).

(** The property names every object inherits from Object.prototype:
    [this.thresholds[metric]] finds a function (or the prototype itself)
    under them, whose [green] and [yellow] read undefined. *)
Definition object_prototype_keys : list string :=
  ["constructor"; "hasOwnProperty"; "isPrototypeOf";
   "propertyIsEnumerable"; "toLocaleString"; "toString"; "valueOf";
   "__proto__"; "__defineGetter__"; "__defineSetter__";
   "__lookupGetter__"; "__lookupSetter__"].

Definition inherited (metric : string) : bool :=
  bool_decide (metric ∈ object_prototype_keys).

(** getHealth(metric, value).  [None] is the TypeError of reading [t.green]
    when [this.thresholds[metric]] is undefined.  Under an inherited name
    every comparison is against undefined and fails. *)
Definition getHealth (p : Profiler) (metric : string) (value : Z)
    : option Health :=
  match thresholds p !! metric with
  | Some t =>
      Some
        (if bool_decide (metric = "fps") then
           if green t <=? value then mkHealth "healthy" icon_ok "Excellent"
           else if yellow t <=? value
                then mkHealth "warning" icon_warn "Moderate"
           else mkHealth "critical" icon_bad "Poor"
         else
           if value <? green t then mkHealth "healthy" icon_ok "Good"
           else if value <? yellow t
                then mkHealth "warning" icon_warn "Warning"
           else mkHealth "critical" icon_bad "Critical")
  | None =>
      if inherited metric then Some (mkHealth "critical" icon_bad "Critical")
      else None
  end.

(** The values the drawing loop of drawGraph reads, in loop order:
    [fpsHistory[(historyIndex + i) % 60]] for i = 0 .. 59. *)
Definition drawGraph_samples (p : Profiler) : list (option Z) :=
  (fun i => array_get (fpsHistory p) ((historyIndex p + i) mod 60))
    <$> seq 0 60.

(** The points of the stroked path on a [w] by [h] canvas; a hole or a
    missing value has no finite ordinate. *)
Definition drawGraph_path (w h : Q) (p : Profiler) : list (Q * option Q) :=
  map (fun '(i, v) =>
         (inject_Z (Z.of_nat i) / 59 * w,
          (fun f => h - (inject_Z (Z.min 70 f) / 70) * h) <$> v)%Q)
    (zip (seq 0 60) (drawGraph_samples p)).

Definition push_dom (w : DomWrite) (p : Profiler) : Profiler :=
  mkProfiler (thresholds p) (metrics p) (fpsHistory p) (historyIndex p)
    (frameCount p) (lastFpsTime p) (graphUpdateCounter p)
    (prev_fps p) (prev_memory p) (prev_dc p) (has_panel p) (has_graph p)
    (dom p ++ [w]).

Definition drawGraph (p : Profiler) : Profiler :=
  if has_graph p then push_dom (DrawGraph (drawGraph_samples p)) p else p.

(** updateUI().  [None] is a TypeError raised by getHealth. *)
Definition updateUI (p : Profiler) : option Profiler :=
  if negb (has_panel p) then Some p
  else
    let m := metrics p in
    p1 ← (if bool_decide (prev_fps p = Some (fps m)) then Some p
          else
            h ← getHealth p "fps" (fps m);
            Some (mkProfiler (thresholds p) m (fpsHistory p) (historyIndex p)
                    (frameCount p) (lastFpsTime p) (graphUpdateCounter p)
                    (Some (fps m)) (prev_memory p) (prev_dc p)
                    (has_panel p) (has_graph p)
                    (dom p ++ [WriteFps (fps m) h])));
    p2 ← (if bool_decide (prev_memory p1 = Some (memory m)) then Some p1
          else
            h ← getHealth p1 "memory" (default 0 (memory m));
            Some (mkProfiler (thresholds p1) m (fpsHistory p1)
                    (historyIndex p1) (frameCount p1) (lastFpsTime p1)
                    (graphUpdateCounter p1) (prev_fps p1)
                    (Some (memory m)) (prev_dc p1)
                    (has_panel p1) (has_graph p1)
                    (dom p1 ++ [WriteMemory (memory m) h])));
    p3 ← (if bool_decide (prev_dc p2 = Some (drawCalls m)) then Some p2
          else
            h ← getHealth p2 "drawCalls" (drawCalls m);
            Some (mkProfiler (thresholds p2) m (fpsHistory p2)
                    (historyIndex p2) (frameCount p2) (lastFpsTime p2)
                    (graphUpdateCounter p2) (prev_fps p2)
                    (prev_memory p2) (Some (drawCalls m))
                    (has_panel p2) (has_graph p2)
                    (dom p2 ++ [WriteDrawCalls (drawCalls m) h])));
    let p4 := push_dom (WriteStats (triangles m) (geometries m)) p3 in
    let n := graphUpdateCounter p4 + 1 in
    let p5 := if 3 <=? n then drawGraph p4 else p4 in
    Some (mkProfiler (thresholds p5) (metrics p5) (fpsHistory p5)
            (historyIndex p5) (frameCount p5) (lastFpsTime p5)
            (if 3 <=? n then 0 else n)
            (prev_fps p5) (prev_memory p5) (prev_dc p5)
            (has_panel p5) (has_graph p5) (dom p5)).

(** The part of sampleMetrics before the call of updateUI.  Time stamps
    are rationals and [frameCount / elapsed * 1000] is taken exactly; the
    code computes it in doubles, each operation rounded, so that next to
    a half the number it stores can differ by one from the one here. *)
Definition sample (host : Host) (p : Profiler) : Profiler :=
  let elapsed := (now host - lastFpsTime p)%Q in
  let timed := Qlt_le_dec 0 elapsed in
  let m0 := metrics p in
  let new_fps :=
    Math_round ((inject_Z (frameCount p) / elapsed) * 1000)%Q in
  let fps1 := if timed then new_fps else fps m0 in
  let m1 :=
    match renderer_info host with
    | Some info =>
        mkMetrics fps1 (frameTime m0) (memory m0)
          (or_default (calls info) 0)
          (or_default (render_triangles info) 0)
          (or_default (memory_geometries info) 0)
    | None =>
        mkMetrics fps1 (frameTime m0) (memory m0)
          (drawCalls m0) (triangles m0) (geometries m0)
    end in
  let m2 :=
    match usedJSHeapSize host with
    | Some used =>
        mkMetrics (fps m1) (frameTime m1)
          (Some (Math_round (inject_Z used / 1048576)%Q))
          (drawCalls m1) (triangles m1) (geometries m1)
    | None => m1
    end in
  mkProfiler (thresholds p) m2
    (if timed then array_set (fpsHistory p) (historyIndex p) new_fps
     else fpsHistory p)
    (if timed then (historyIndex p + 1) mod 60 else historyIndex p)%nat
    (if timed then 0 else frameCount p)
    (if timed then now host else lastFpsTime p)
    (graphUpdateCounter p) (prev_fps p) (prev_memory p) (prev_dc p)
    (has_panel p) (has_graph p) (dom p).

Definition sampleMetrics (host : Host) (p : Profiler) : option Profiler :=
  updateUI (sample host p).

(** getMetrics(): the current sample, with the health of three of its
    fields.  A null heap figure would compare as 0.  [None] is a TypeError
    raised by getHealth. *)
Record MetricsReport := mkMetricsReport {
  sample_of : Metrics;
  health_fps : Health;
  health_memory : Health;
  health_drawCalls : Health
}.

Definition getMetrics (p : Profiler) : option MetricsReport :=
  hf ← getHealth p "fps" (fps (metrics p));
  hm ← getHealth p "memory" (default 0 (memory (metrics p)));
  hd ← getHealth p "drawCalls" (drawCalls (metrics p));
  Some (mkMetricsReport (metrics p) hf hm hd).

(** reset() *)
Definition reset (p : Profiler) : Profiler :=
  mkProfiler (thresholds p) (metrics p)
    (map (fun _ => Some 60) (fpsHistory p)) 0 0 (lastFpsTime p)
    (graphUpdateCounter p) None None None (has_panel p) (has_graph p)
    (dom p).

End VisualProfiler.

(* ===================================================================== *)
(** * Exceptions and mutable objects                                      *)
(* ===================================================================== *)

Module Eff.

(** A method call either returns or throws; the mutations made before a
    throw stay. *)
Inductive outcome (A : Type) :=
| Returned (a : A)
| Thrown (e : string).
Arguments Returned {A} a.
Arguments Thrown {A} e.

Definition M (S A : Type) : Type := S -> outcome A * S.

Definition ret {S A} (a : A) : M S A := fun s => (Returned a, s).

Definition bind {S A B} (m : M S A) (f : A -> M S B) : M S B :=
  fun s =>
    match m s with
    | (Returned a, s') => f a s'
    | (Thrown e, s') => (Thrown e, s')
    end.

Definition get {S} : M S S := fun s => (Returned s, s).
Definition modify {S} (f : S -> S) : M S unit := fun s => (Returned tt, f s).
Definition throw {S A} (e : string) : M S A := fun s => (Thrown e, s).

#[global] Instance M_ret {S} : MRet (M S) := fun A a => ret a.
#[global] Instance M_bind {S} : MBind (M S) := fun A B f m => bind m f.

End Eff.

(* ===================================================================== *)
(** * SceneController.js: the population engine                           *)
(* ===================================================================== *)

Module SceneController.
Import Eff.

(** The matrix that [dummy.updateMatrix()] composes, kept as the position,
    uniform scale and rotation about y it is composed from.  The rotation
    is stored in units of pi: [Math.random() * Math.PI * 2] is [2 r] pi. *)
Record Matrix := mkMatrix {
  pos_x : Q; pos_y : Q; pos_z : Q;
  scale : Q;
  rot_y_pi : Q
}.

Inductive MeshKind := Trunk | Foliage.

(** A THREE.InstancedMesh with the geometry and material made for it. *)
Record InstancedMesh := mkMesh {
  kind : MeshKind;
  count : Z;
  instanceMatrix : list (option Matrix);   (* one slot per instance *)
  needsUpdate : bool;
  geometry_disposed : bool;
  material_disposed : bool
}.

Inductive Object3D :=
| AmbientLight
| DirectionalLight
| Ground
| Grid
| MeshRef (id : nat).

(** The controller and the objects it refers to; meshes live in a store
    and are referred to by address, from the scene graph and from
    [this.treeInstancedMesh] alike. *)
Record Controller := mkController {
  store : gmap nat InstancedMesh;
  next_id : nat;
  scene : list Object3D;
  treeInstancedMesh : option (nat * nat);   (* { trunk, foliage } or null *)
  currentTreeCount : Z;
  random_calls : nat                        (* Math.random() calls so far *)
}.

(** The host: the Math.random() stream and the largest Float32Array it
    allocates. *)
Record Host := mkHost {
  random : nat -> Q;
  max_floats : Z
}.

Definition constructor : Controller :=
  mkController ∅ 0 [] None 25 0.

Definition set_store (f : gmap nat InstancedMesh -> gmap nat InstancedMesh)
    (c : Controller) : Controller :=
  mkController (f (store c)) (next_id c) (scene c) (treeInstancedMesh c)
    (currentTreeCount c) (random_calls c).

Definition set_scene (f : list Object3D -> list Object3D)
    (c : Controller) : Controller :=
  mkController (store c) (next_id c) (f (scene c)) (treeInstancedMesh c)
    (currentTreeCount c) (random_calls c).

Definition is_ref (id : nat) (o : Object3D) : bool :=
  match o with
  | MeshRef j => bool_decide (j = id)
  | _ => false
  end.

(** scene.remove(obj) and scene.add(obj) *)
Definition scene_remove (id : nat) : Controller -> Controller :=
  set_scene (filter (fun o => is_ref id o = false)).

Definition scene_add (id : nat) : Controller -> Controller :=
  set_scene (fun children =>
    filter (fun o => is_ref id o = false) children ++ [MeshRef id]).

Definition dispose_mesh (m : InstancedMesh) : InstancedMesh :=
  mkMesh (kind m) (count m) (instanceMatrix m) (needsUpdate m) true true.

(** The "Cleanup existing" block. *)
Definition cleanup (c : Controller) : Controller :=
  match treeInstancedMesh c with
  | Some (trunk, foliage) =>
      set_store (alter dispose_mesh foliage)
        (set_store (alter dispose_mesh trunk)
          (scene_remove foliage (scene_remove trunk c)))
  | None => c
  end.

(** The buffer of [count * 16] floats behind [instanceMatrix]. *)
Definition can_allocate (host : Host) (count : Z) : bool :=
  (0 <=? count * 16) && (count * 16 <=? max_floats host).

(** new THREE.InstancedMesh(geometry, material, count): a RangeError when
    the typed array cannot be made. *)
Definition new_InstancedMesh (host : Host) (k : MeshKind) (n : Z)
    : M Controller nat :=
  fun c =>
    if can_allocate host n then
      let id := next_id c in
      (Returned id,
       mkController
         (<[id := mkMesh k n (replicate (Z.to_nat n) None) false false false]>
            (store c))
         (S id) (scene c) (treeInstancedMesh c) (currentTreeCount c)
         (random_calls c))
    else (Thrown "RangeError: Invalid typed array length", c).

(** mesh.setMatrixAt(i, matrix): a typed-array store, ignored out of
    range. *)
Definition setMatrixAt (id i : nat) (m : Matrix) : Controller -> Controller :=
  set_store (alter (fun mesh =>
    mkMesh (kind mesh) (count mesh) (<[i := Some m]> (instanceMatrix mesh))
      (needsUpdate mesh) (geometry_disposed mesh) (material_disposed mesh)) id).

Definition set_needsUpdate (id : nat) : Controller -> Controller :=
  set_store (alter (fun mesh =>
    mkMesh (kind mesh) (count mesh) (instanceMatrix mesh) true
      (geometry_disposed mesh) (material_disposed mesh)) id).

Definition spreadRadius : Q := 45.

(** One turn of the placement loop: four Math.random() calls, then the
    trunk and the foliage matrix of instance [i]. *)
Definition place_one (host : Host) (trunk foliage i : nat)
    (c : Controller) : Controller :=
  let r := random_calls c in
  let x := ((random host r - (1 # 2)) * spreadRadius * 2)%Q in
  let z := ((random host (r + 1) - (1 # 2)) * spreadRadius * 2)%Q in
  let s := ((7 # 10) + random host (r + 2) * (6 # 10))%Q in
  let rotation := (random host (r + 3) * 2)%Q in
  let c1 := setMatrixAt trunk i (mkMatrix x 1 z s rotation) c in
  let c2 := setMatrixAt foliage i (mkMatrix x ((35 # 10) * s) z s rotation) c1 in
  mkController (store c2) (next_id c2) (scene c2) (treeInstancedMesh c2)
    (currentTreeCount c2) (r + 4).

(** for (let i = 0; i < count; i++) *)
Definition place_all (host : Host) (trunk foliage : nat) (n : Z)
    (c : Controller) : Controller :=
  fold_left (fun acc i => place_one host trunk foliage i acc)
    (seq 0 (Z.to_nat n)) c.

(** spawnTrees up to and including the two [scene.add] calls: both batches
    are allocated, filled and in the scene. *)
Definition spawn_build (host : Host) (n : Z) : M Controller (nat * nat) :=
  modify cleanup ;;
  trunk ← new_InstancedMesh host Trunk n;
  foliage ← new_InstancedMesh host Foliage n;
  modify (place_all host trunk foliage n) ;;
  modify (set_needsUpdate trunk) ;;
  modify (set_needsUpdate foliage) ;;
  modify (scene_add trunk) ;;
  modify (scene_add foliage) ;;
  mret (trunk, foliage).

(** The last two assignments of spawnTrees. *)
Definition spawn_publish (n : Z) (meshes : nat * nat) : M Controller unit :=
  modify (fun c =>
    mkController (store c) (next_id c) (scene c) (Some meshes)
      (currentTreeCount c) (random_calls c)) ;;
  modify (fun c =>
    mkController (store c) (next_id c) (scene c) (treeInstancedMesh c)
      n (random_calls c)).

Definition spawnTrees (host : Host) (n : Z) : M Controller unit :=
  meshes ← spawn_build host n;
  spawn_publish n meshes.

(** The instanced batches in the scene graph, one draw call each. *)
Definition scene_batches (c : Controller) : list nat :=
  omap (fun o => match o with MeshRef id => Some id | _ => None end) (scene c).

Definition population_draw_calls (c : Controller) : nat :=
  length (scene_batches c).

(** A batch that can still be drawn: in the scene, with live geometry and
    material. *)
Definition renderable (c : Controller) (id : nat) : Prop :=
  id ∈ scene_batches c ∧
  ∃ m, store c !! id = Some m ∧
       geometry_disposed m = false ∧ material_disposed m = false.

(** init(): lights, ground and grid, then the initial trees. *)
Definition init (host : Host) : M Controller unit :=
  modify (set_scene (fun _ => [AmbientLight; DirectionalLight; Ground; Grid])) ;;
  c ← get;
  spawnTrees host (currentTreeCount c).

End SceneController.

(* ===================================================================== *)
(** * Scenario.js and InfiniteForest.js: the scenario state machine       *)
(* ===================================================================== *)

Module InfiniteForest.
Import JS Eff.

Inductive State := Idle | Broken | Inspecting | Fixed | Complete.

Record Range := mkRange { range_min : option Z; range_max : option Z }.

(** [this.validation]: the fields the methods below read. *)
Record Validation := mkValidation {
  targetFPS : option Z;
  acceptableRange : option Range;
  initialTreeCount : option Z
}.

(** [this._defaults] *)
Definition defaults_initialTreeCount : Z := 300.
Definition defaults_targetFPS : Z := 45.
Definition defaults_min : Z := 10.
Definition defaults_max : Z := 175.

Definition _defaults : Validation :=
  mkValidation (Some defaults_targetFPS)
    (Some (mkRange (Some defaults_min) (Some defaults_max)))
    (Some defaults_initialTreeCount).

Record Story := mkStory { story_success : option string; story_failure : option string }.

Record Checkpoint := mkCheckpoint { reached : bool; timestamp : Z; elapsed : Z }.

Record Session := mkSession {
  s_attempts : Z;
  hintsShown : Z;
  hintsRevealed : list Z;
  s_startTime : option Z;
  checkpoints : gmap string Checkpoint;
  completed : bool;
  s_fpsBefore : option Z;
  s_fpsAfter : option Z
}.

Record ScenarioMetrics := mkScenarioMetrics {
  fpsBefore : option Z;
  fpsAfter : option Z;
  codeChanges : Z;
  hintsUsed : Z
}.

(** The argument of the [onComplete] callback of Scenario.complete. *)
Record CompletionEvent := mkCompletionEvent {
  ev_scenario : string;
  ev_success : bool;
  ev_duration : Z;
  ev_attempts : Z;
  ev_metrics : ScenarioMetrics
}.

Record SuccessStats := mkSuccessStats {
  st_fpsBefore : Z;
  st_fpsAfter : Z;
  st_improvementPercent : Z;
  st_attempts : Z;
  st_time : Z;
  st_hintsUsed : Z
}.

(** The texts logged to the code editor, by template. *)
Inductive Message :=
| StillTooManyTrees (treeCount fps : Z)
| FpsButWeNeed (fps targetFPS : Z)
| LooksABitEmpty (treeCount : Z)
| StillCausingLag (treeCount maxTrees : Z)
| StoryFailure (text : option string)
| CompletedIn (timeSpent attempts : Z).

(** What reaches the collaborators, in order. *)
Inductive Event :=
| EditorLog (level : string) (m : Message)
| ShowHintButton
| ShowSuccessOverlay (stats : SuccessStats)
| OnCompleteCalled (arg : option CompletionEvent)
| OnStateChangeCalled (st : State)
| MarkComplete (userId scenarioId : string) (score : Z).

(** A function stored in the [onComplete] property: whether a call with
    the given argument (undefined when there is none) returns or throws. *)
Inductive Completion := Normal | Throws.
Definition Callback : Type := option CompletionEvent -> Completion.

(** The scenario object.  [onComplete_property] is the own property that
    the constructor of Scenario creates with [this.onComplete = null] and
    that ScenarioManager.loadScenario assigns; a property read
    [this.onComplete] finds it before the method of the same name on the
    prototype of InfiniteForest. *)
Record Forest := mkForest {
  id : string;
  state : State;
  attempts : Z;
  startTime : option Z;
  completionTime : option Z;
  metrics : ScenarioMetrics;
  validation : option Validation;
  story : option Story;
  onComplete_property : option Callback;
  onStateChange_property : bool;
  session : Session;
  hintTimers : list Z;
  successOverlay : bool;
  hintButton : bool;
  events : list Event
}.

(** What the collaborators answer during one call. *)
Record Env := mkEnv {
  now : Z;                          (* Date.now() *)
  profiler_fps : option Z;          (* this.profiler?.metrics?.fps *)
  scene_treeCount : option Z;       (* this.sceneController?.currentTreeCount *)
  codeEditor : bool;                (* this.codeEditor is set *)
  progress_user : option string     (* window.ProgressTracker, AuthManager
                                       and a logged-in user id *)
}.

Definition empty_session : Session :=
  mkSession 0 0 [] None ∅ false None None.

(** new InfiniteForest(...): the constructor of Scenario, then its own. *)
Definition constructor : Forest :=
  {| id := "infinite-forest";
     state := Idle;
     attempts := 0;
     startTime := None;
     completionTime := None;
     metrics := mkScenarioMetrics None None 0 0;
     validation := Some (mkValidation (Some 45) None None);
     story := Some (mkStory (Some EmptyString) (Some EmptyString));
     onComplete_property := None;
     onStateChange_property := false;
     session := empty_session;
     hintTimers := [];
     successOverlay := false;
     hintButton := false;
     events := [] |}.

(** ScenarioManager._onScenarioComplete(event) reads [event.success], a
    TypeError when the event is undefined. *)
Definition ScenarioManager_onComplete : Callback :=
  fun event =>
    match event with
    | Some _ => Normal
    | None => Throws
    end.

Definition set_session (f : Session -> Session) (s : Forest) : Forest :=
  mkForest (id s) (state s) (attempts s) (startTime s) (completionTime s)
    (metrics s) (validation s) (story s) (onComplete_property s)
    (onStateChange_property s) (f (session s)) (hintTimers s)
    (successOverlay s) (hintButton s) (events s).

Definition emit (e : Event) (s : Forest) : Forest :=
  mkForest (id s) (state s) (attempts s) (startTime s) (completionTime s)
    (metrics s) (validation s) (story s) (onComplete_property s)
    (onStateChange_property s) (session s) (hintTimers s)
    (successOverlay s) (hintButton s) (events s ++ [e]).

(** ScenarioManager.loadScenario sets the callbacks after construction. *)
Definition loadScenario_callbacks (s : Forest) : Forest :=
  mkForest (id s) (state s) (attempts s) (startTime s) (completionTime s)
    (metrics s) (validation s) (story s) (Some ScenarioManager_onComplete)
    true (session s) (hintTimers s) (successOverlay s) (hintButton s)
    (events s).

(** A template literal that spans lines. *)
Definition text_of_lines (ls : list string) : string :=
  String.concat (String "010"%char EmptyString) ls.

(** _getFallbackStory(): the two texts the methods below read. *)
Definition _getFallbackStory : Story :=
  mkStory
    (Some (text_of_lines
       [ "🎉 EXCELLENT WORK!";
         EmptyString;
         "You fixed the infinite loop! The forest now has a reasonable ";
         "number of trees and the game runs smoothly.";
         EmptyString;
         "📊 Your Results:";
         "• FPS improved dramatically!";
         "• You learned: Loop termination conditions";
         EmptyString;
         "You're becoming a great AI code auditor!" ]))
    (Some (text_of_lines
       [ "🔄 Not quite right yet!";
         EmptyString;
         "The game is still lagging. Make sure your loop has a ";
         "proper exit condition.";
         EmptyString;
         "💡 Remember: The loop needs to STOP at some point.";
         "Try: while (treeCount < 50)" ])).

(** _useFallbackConfig() *)
Definition _useFallbackConfig (s : Forest) : Forest :=
  mkForest (id s) (state s) (attempts s) (startTime s) (completionTime s)
    (metrics s) (Some _defaults) (Some _getFallbackStory)
    (onComplete_property s)
    (onStateChange_property s) (session s) (hintTimers s)
    (successOverlay s) (hintButton s) (events s).

(** _markCheckpoint(checkpointId): first write wins. *)
Definition _markCheckpoint (env : Env) (checkpointId : string)
    (s : Forest) : Forest :=
  match checkpoints (session s) !! checkpointId with
  | Some _ => s
  | None =>
      set_session (fun ss =>
        mkSession (s_attempts ss) (hintsShown ss) (hintsRevealed ss)
          (s_startTime ss)
          (<[checkpointId :=
               mkCheckpoint true (now env)
                 (now env - default 0 (s_startTime ss))]> (checkpoints ss))
          (completed ss) (s_fpsBefore ss) (s_fpsAfter ss)) s
  end.

Definition editor_log (env : Env) (level : string) (m : Message)
    (s : Forest) : Forest :=
  if codeEditor env then emit (EditorLog level m) s else s.

Definition _showHintButton (s : Forest) : Forest :=
  if hintButton s then emit ShowHintButton s else s.

(** _showFeedback(fps, treeCount, targetFPS, minTrees, maxTrees) *)
Definition _showFeedback (env : Env) (fps treeCount targetFPS minTrees maxTrees : Z)
    (s : Forest) : Forest :=
  let message :=
    if (fps <? targetFPS) && (maxTrees <? treeCount) then
      StillTooManyTrees treeCount fps
    else if fps <? targetFPS then FpsButWeNeed fps targetFPS
    else if treeCount <? minTrees then LooksABitEmpty treeCount
    else if maxTrees <? treeCount then StillCausingLag treeCount maxTrees
    else StoryFailure (story s ≫= story_failure) in
  _showHintButton (editor_log env "warning" message s).

(** _emitStateChange() *)
Definition _emitStateChange (s : Forest) : Forest :=
  if onStateChange_property s then emit (OnStateChangeCalled (state s)) s
  else s.

(** A call [this.onComplete(arg)] of whatever the own property holds. *)
Definition call_onComplete (arg : option CompletionEvent) : M Forest unit :=
  fun s =>
    match onComplete_property s with
    | None => (Thrown "TypeError: this.onComplete is not a function", s)
    | Some f =>
        let s' := emit (OnCompleteCalled arg) s in
        match f arg with
        | Normal => (Returned tt, s')
        | Throws => (Thrown "TypeError: thrown by the onComplete callback", s')
        end
    end.

(** Scenario.complete(success) *)
Definition complete (env : Env) (success : bool) : M Forest unit :=
  modify (fun s =>
    mkForest (id s) Complete (attempts s) (startTime s) (Some (now env))
      (metrics s) (validation s) (story s) (onComplete_property s)
      (onStateChange_property s) (session s) (hintTimers s)
      (successOverlay s) (hintButton s) (events s)) ;;
  s ← get;
  let duration := now env - default 0 (startTime s) in
  (if bool_decide (onComplete_property s = None) then mret tt
   else call_onComplete
          (Some (mkCompletionEvent (id s) success duration (attempts s)
                   (metrics s)))) ;;
  modify _emitStateChange.

(** Scenario.checkCompletion(): the success flag it returns. *)
Definition checkCompletion (env : Env) : M Forest bool :=
  s ← get;
  let fps :=
    or_default (fpsAfter (metrics s)) (or_default (profiler_fps env) 0) in
  let success :=
    match validation s ≫= targetFPS with
    | Some target => target <=? fps
    | None => false
    end in
  (if success then complete env true else mret tt) ;;
  mret success.

(** _calculateScore() *)
Definition _calculateScore (env : Env) (s : Forest) : Z :=
  let score := 100 - (s_attempts (session s) - 1) * 5
                   - hintsShown (session s) * 10 in
  let score :=
    if now env - default 0 (s_startTime (session s)) <? 120000
    then score + 10 else score in
  Z.max 0 (Z.min 100 score).

(** _saveProgress() *)
Definition _saveProgress (env : Env) (s : Forest) : Forest :=
  match progress_user env with
  | Some userId => emit (MarkComplete userId (id s) (_calculateScore env s)) s
  | None => s
  end.

(** The method InfiniteForest.prototype.onComplete(). *)
Definition InfiniteForest_onComplete (env : Env) : M Forest unit :=
  modify (set_session (fun ss =>
    mkSession (s_attempts ss) (hintsShown ss) (hintsRevealed ss)
      (s_startTime ss) (checkpoints ss) true (s_fpsBefore ss)
      (s_fpsAfter ss))) ;;
  modify (_markCheckpoint env "scenario_complete") ;;
  modify (fun s =>
    mkForest (id s) (state s) (attempts s) (startTime s) (completionTime s)
      (metrics s) (validation s) (story s) (onComplete_property s)
      (onStateChange_property s) (session s) []
      (successOverlay s) (hintButton s) (events s)) ;;
  s ← get;
  let ss := session s in
  let before := or_default (s_fpsBefore ss) 10 in
  let timeSpent := (now env - default 0 (s_startTime ss)) `div` 1000 in
  let improvement := default 0 (s_fpsAfter ss) - before in
  let improvementPercent :=
    Math_round (inject_Z improvement / inject_Z before * 100)%Q in
  modify (fun s =>
    if successOverlay s then
      emit (ShowSuccessOverlay
              (mkSuccessStats before (or_default (s_fpsAfter ss) 60)
                 improvementPercent (s_attempts ss) timeSpent (hintsShown ss))) s
    else s) ;;
  modify (editor_log env "success" (CompletedIn timeSpent (s_attempts ss))) ;;
  complete env true ;;
  modify (_saveProgress env).

(** What validate() returns. *)
Record Verdict := mkVerdict {
  success : bool;
  v_fps : Z;
  v_treeCount : Z;
  v_targetFPS : Z;
  improvement : Z;
  message : option string
}.

(** The thresholds validate() works with: the configured value, or the
    default when it is missing or zero. *)
Definition effective_targetFPS (s : Forest) : Z :=
  or_default (validation s ≫= targetFPS) defaults_targetFPS.
Definition effective_min (s : Forest) : Z :=
  or_default ((validation s ≫= acceptableRange) ≫= range_min) defaults_min.
Definition effective_max (s : Forest) : Z :=
  or_default ((validation s ≫= acceptableRange) ≫= range_max) defaults_max.

(** InfiniteForest.validate() *)
Definition validate (env : Env) : M Forest Verdict :=
  let fps := or_default (profiler_fps env) 0 in
  let treeCount := or_default (scene_treeCount env) 0 in
  s0 ← get;
  let targetFPS := effective_targetFPS s0 in
  let minTrees := effective_min s0 in
  let maxTrees := effective_max s0 in
  modify (fun s =>
    mkForest (id s) (state s) (attempts s) (startTime s) (completionTime s)
      (mkScenarioMetrics (fpsBefore (metrics s)) (Some fps)
         (codeChanges (metrics s)) (hintsUsed (metrics s)))
      (validation s) (story s) (onComplete_property s)
      (onStateChange_property s)
      (mkSession (s_attempts (session s)) (hintsShown (session s))
         (hintsRevealed (session s)) (s_startTime (session s))
         (checkpoints (session s)) (completed (session s))
         (s_fpsBefore (session s)) (Some fps))
      (hintTimers s) (successOverlay s) (hintButton s) (events s)) ;;
  let fpsPass := targetFPS <=? fps in
  let treeCountPass := (minTrees <=? treeCount) && (treeCount <=? maxTrees) in
  let success := fpsPass && treeCountPass in
  (if success then
     modify (_markCheckpoint env "fps_improved") ;;
     modify (_markCheckpoint env "tree_count_valid") ;;
     call_onComplete None
   else
     modify (_showFeedback env fps treeCount targetFPS minTrees maxTrees)) ;;
  s ← get;
  mret (mkVerdict success fps treeCount targetFPS
          (fps - or_default (s_fpsBefore (session s)) 10)
          (story s ≫= if success then story_success else story_failure)).

End InfiniteForest.

(* ===================================================================== *)
(** * main.js: the tree-count shortcut                                  *)
(* ===================================================================== *)

Module OrbryaEngine.
Import Eff SceneController.

(** The tree counts the T shortcut cycles through. *)
Definition levels : list Z := [25; 50; 100; 175; 300].

(** Array.prototype.indexOf: the first index holding [x], or -1. *)
Fixpoint indexOf (l : list Z) (x : Z) : Z :=
  match l with
  | [] => -1
  | y :: l' =>
      if bool_decide (y = x) then 0
      else let i := indexOf l' x in if i <? 0 then -1 else i + 1
  end.

(** [levels[(idx + 1) % levels.length]]; [None] is undefined. *)
Definition next_level (current : Z) : option Z :=
  let idx := indexOf levels current in
  levels !! Z.to_nat (Z.rem (idx + 1) (Z.of_nat (length levels))).

(** The T key outside the editor: respawn at the next level.  A count of
    undefined is not modelled; [next_level] never yields it. *)
Definition press_T (host : Host) : M Controller unit :=
  c ← get;
  match next_level (currentTreeCount c) with
  | Some next => spawnTrees host next
  | None => throw "spawnTrees(undefined)"
  end.

End OrbryaEngine.

(* ===================================================================== *)
(** * CodeExecutor.js: validate, execute, undo and quickRun             *)
(* ===================================================================== *)

Module Executor.
Import JS Eff CodeExecutor SceneController.

(** An entry of [this.history]. *)
Record HistoryEntry := mkHistoryEntry { h_treeCount : Z; h_timestamp : Z }.

(** The object execute() returns.  [fpsAfter] is null at return; a timer
    fills it in a second later. *)
Record ExecResult := mkExecResult {
  success : bool;
  treeCount : Z;
  previousCount : Z;
  r_errors : list jsstring;
  r_warnings : list jsstring;
  fpsBefore : option Z;
  fpsAfter : option Z
}.

(** What a callback does when called: return, or throw an error with this
    message. *)
Inductive Reply := Returns | Raises (message : string).

Inductive Call :=
| OnExecute (r : ExecResult)
| OnError (r : ExecResult)
| OnValidate (r : ParseResult).

(** The executor with the scene controller it drives.  [lastResult]
    refers to the object execute() returns, so it shows what was done to
    that object afterwards. *)
Record Executor := mkExecutor {
  sceneController : Controller;
  lastResult : option ExecResult;
  history : list HistoryEntry;
  onExecute : option (ExecResult -> Reply);
  onError : option (ExecResult -> Reply);
  onValidate : option (ParseResult -> Reply);
  calls : list Call
}.

Record Env := mkEnv {
  now : Z;                   (* Date.now() *)
  profiler_fps : option Z    (* this.profiler?.metrics?.fps *)
}.

(** constructor(sceneController, profiler) *)
Definition constructor (sc : Controller) : Executor :=
  mkExecutor sc None [] None None None [].

Definition set_controller (c : Controller) (ex : Executor) : Executor :=
  mkExecutor c (lastResult ex) (history ex) (onExecute ex) (onError ex)
    (onValidate ex) (calls ex).

Definition set_lastResult (r : ExecResult) (ex : Executor) : Executor :=
  mkExecutor (sceneController ex) (Some r) (history ex) (onExecute ex)
    (onError ex) (onValidate ex) (calls ex).

Definition set_history (h : list HistoryEntry) (ex : Executor) : Executor :=
  mkExecutor (sceneController ex) (lastResult ex) h (onExecute ex)
    (onError ex) (onValidate ex) (calls ex).

Definition record (c : Call) (ex : Executor) : Executor :=
  mkExecutor (sceneController ex) (lastResult ex) (history ex) (onExecute ex)
    (onError ex) (onValidate ex) (calls ex ++ [c]).

(** A method of the scene controller, called through
    [this.sceneController]. *)
Definition on_scene {A} (m : M Controller A) : M Executor A :=
  fun ex =>
    let '(o, c) := m (sceneController ex) in (o, set_controller c ex).

(** [if (cb) cb(arg)] *)
Definition notify {A} (cb : option (A -> Reply)) (entry : Call) (arg : A)
    : M Executor unit :=
  match cb with
  | None => mret tt
  | Some f =>
      modify (record entry) ;;
      match f arg with
      | Returns => mret tt
      | Raises message => throw message
      end
  end.

(** try { body } catch (err) { handler(err.message) } *)
Definition try_catch {S A} (body : M S A) (handler : string -> M S A)
    : M S A :=
  fun s =>
    match body s with
    | (Returned a, s') => (Returned a, s')
    | (Thrown e, s') => handler e s'
    end.

(** validate(code) *)
Definition validate (code : jsstring) : M Executor ParseResult :=
  ex ← get;
  let result := parseStudentCode code in
  notify (onValidate ex) (OnValidate result) result ;;
  mret result.

(** [x || null] *)
Definition or_null (x : option Z) : option Z :=
  match x with
  | Some v => if v =? 0 then None else Some v
  | None => None
  end.

Definition runtime_error (message : string) : jsstring :=
  js "Runtime error: " ++ js message.

Definition add_error (message : string) (r : ExecResult) : ExecResult :=
  mkExecResult (success r) (treeCount r) (previousCount r)
    (r_errors r ++ [runtime_error message]) (r_warnings r)
    (fpsBefore r) (fpsAfter r).

(** The catch block.  [aliased] tells whether [this.lastResult] already
    refers to the result object, which the block changes. *)
Definition on_throw (aliased : bool) (r : ExecResult) (message : string)
    : M Executor ExecResult :=
  let r' := add_error message r in
  (if aliased then modify (set_lastResult r') else mret tt) ;;
  ex ← get;
  notify (onError ex) (OnError r') r' ;;
  mret r'.

(** execute(code).  A valid parse has a limit that is an integer from 0
    to the cap (lemma [valid_limit_tracked]), which is what the model of
    spawnTrees takes; the model stops at any other number. *)
Definition execute (host : Host) (env : Env) (code : jsstring)
    : M Executor ExecResult :=
  ex ← get;
  let parsed := parseStudentCode code in
  let execResult :=
    mkExecResult false 0 (currentTreeCount (sceneController ex))
      (errors parsed) (warnings parsed) (or_null (profiler_fps env)) None in
  if negb (valid parsed) || bool_decide (limit parsed = None) then
    notify (onError ex) (OnError execResult) execResult ;;
    mret execResult
  else
    modify (fun ex =>
      set_history
        (history ex
         ++ [mkHistoryEntry (previousCount execResult) (now env)]) ex) ;;
    match limit parsed with
    | Some (Num n) =>
        (* the try block up to the call of spawnTrees, and its catch *)
        caught ← try_catch
                   (on_scene (spawnTrees host n) ;; mret None)
                   (fun message =>
                      r ← on_throw false execResult message; mret (Some r));
        match caught with
        | Some r => mret r
        | None =>
            (* the rest of the try block, and its catch *)
            let done :=
              mkExecResult true n (previousCount execResult)
                (r_errors execResult) (r_warnings execResult)
                (fpsBefore execResult) (fpsAfter execResult) in
            modify (set_lastResult done) ;;
            ex ← get;
            try_catch
              (notify (onExecute ex) (OnExecute done) done ;; mret done)
              (on_throw true done)
        end
    | _ => throw "limit outside the model"
    end.

(** What undo() returns. *)
Record UndoResult := mkUndoResult {
  u_success : bool;
  u_message : option string;
  u_treeCount : option Z
}.

(** undo(): [this.history.pop()] takes the last entry. *)
Definition undo (host : Host) : M Executor UndoResult :=
  ex ← get;
  match last (history ex) with
  | None => mret (mkUndoResult false (Some "Nothing to undo"%string) None)
  | Some prev =>
      modify (set_history (removelast (history ex))) ;;
      on_scene (spawnTrees host (h_treeCount prev)) ;;
      mret (mkUndoResult true None (Some (h_treeCount prev)))
  end.

(** quickRun(count), for an integer count. *)
Definition quickRun (host : Host) (env : Env) (count : Z)
    : M Executor ExecResult :=
  execute host env
    (js "while (treeCount < " ++ toString count ++ js ") { }").

End Executor.

(* ===================================================================== *)
(** * VisualProfiler.js: the sampling timer                             *)
(* ===================================================================== *)

Module Updates.

(** The profiler's timer fields and the intervals alive in the host.  A
    handle returned by setInterval is a positive integer. *)
Record Timer := mkTimer {
  visible : bool;
  updateInterval : option positive;   (* the handle, or null *)
  alive : list positive;              (* intervals calling sampleMetrics *)
  next_handle : positive
}.

Definition constructor (next_handle : positive) : Timer :=
  mkTimer true None [] next_handle.

(** startUpdates() *)
Definition startUpdates (t : Timer) : Timer :=
  match updateInterval t with
  | Some _ => t
  | None =>
      mkTimer (visible t) (Some (next_handle t))
        (alive t ++ [next_handle t]) (Pos.succ (next_handle t))
  end.

(** stopUpdates() *)
Definition stopUpdates (t : Timer) : Timer :=
  match updateInterval t with
  | Some h =>
      mkTimer (visible t) None (filter (fun h' => h' <> h) (alive t))
        (next_handle t)
  | None => t
  end.

Definition set_visible (b : bool) (t : Timer) : Timer :=
  mkTimer b (updateInterval t) (alive t) (next_handle t).

(** init(panelManager), show(), hide() and dispose(), as far as the timer
    goes. *)
Definition init (t : Timer) : Timer := startUpdates t.
Definition show (t : Timer) : Timer := startUpdates (set_visible true t).
Definition hide (t : Timer) : Timer := stopUpdates (set_visible false t).
Definition dispose (t : Timer) : Timer := stopUpdates t.

(** ProfilingTestSuite.toggleProfiler() *)
Definition toggleProfiler (t : Timer) : Timer :=
  if visible t then hide t else show t.

(** OrbryaEngine.toggleLiteMode(): the new value of [this.liteMode]
    decides. *)
Definition toggleLiteMode (liteMode : bool) (t : Timer) : Timer :=
  if liteMode then stopUpdates t else startUpdates t.

End Updates.

(* ===================================================================== *)
(** * ProfilingTestSuite.js: the overall status                         *)
(* ===================================================================== *)

Module ProfilingTestSuite.
Import JS VisualProfiler.

(** A property read on a health object, which has the keys c, i and l;
    any other key reads undefined. *)
Definition Health_get (h : Health) (key : string) : option jsstring :=
  if bool_decide (key = "c"%string) then Some (js (c h))
  else if bool_decide (key = "i"%string) then Some (i h)
  else if bool_decide (key = "l"%string) then Some (js (l h))
  else None.

(** [x || 'unknown'] on a string or undefined. *)
Definition or_unknown (x : option jsstring) : jsstring :=
  match x with
  | Some (c :: s) => c :: s
  | _ => js "unknown"
  end.

(** getOverallStatus(metrics) *)
Definition getOverallStatus (metrics : MetricsReport) : string :=
  let fpsHealth := or_unknown (Health_get (health_fps metrics) "class") in
  let memHealth := or_unknown (Health_get (health_memory metrics) "class") in
  let dcHealth := or_unknown (Health_get (health_drawCalls metrics) "class") in
  if bool_decide (fpsHealth = js "critical")
     || bool_decide (memHealth = js "critical")
     || bool_decide (dcHealth = js "critical") then "RED"
  else if bool_decide (fpsHealth = js "warning")
          || bool_decide (memHealth = js "warning")
          || bool_decide (dcHealth = js "warning") then "YELLOW"
  else "GREEN".

End ProfilingTestSuite.

(* ===================================================================== *)
(** * ScenarioManager.js: progress tracking                             *)
(* ===================================================================== *)

Module ScenarioManager.
Import JS InfiniteForest.

(** [this.progress] *)
Record Progress := mkProgress {
  completed : list string;
  currentAttempts : Z;
  totalTime : Z
}.

(** The achievement line logged to the editor console: the rounded
    seconds and the attempts. *)
Record Achievement := mkAchievement { seconds : Z; with_attempts : Z }.

Record Manager := mkManager {
  progress : Progress;
  codeEditor : bool;                  (* this.codeEditor is set *)
  console : list Achievement
}.

Definition constructor (codeEditor : bool) : Manager :=
  mkManager (mkProgress [] 0 0) codeEditor [].

(** _onScenarioComplete(event) *)
Definition _onScenarioComplete (event : CompletionEvent) (m : Manager)
    : Manager :=
  let p := progress m in
  let completed' :=
    if ev_success event && negb (bool_decide (ev_scenario event ∈ completed p))
    then completed p ++ [ev_scenario event]
    else completed p in
  mkManager
    (mkProgress completed' (currentAttempts p)
       (totalTime p + ev_duration event))
    (codeEditor m)
    (if codeEditor m then
       console m
       ++ [mkAchievement
             (Math_round (inject_Z (ev_duration event) / 1000)%Q)
             (ev_attempts event)]
     else console m).

End ScenarioManager.

(* ===================================================================== *)
(** * ScenarioLoader.js and the solution parser of InfiniteForest.js    *)
(* ===================================================================== *)

Module ScenarioLoader.
Import JS Regex.

(** An entry of [definition.code.acceptablePatterns] with its pattern
    compiled ([new RegExp(p.pattern)]); the bounds are numbers or
    missing. *)
Record AcceptablePattern := mkAcceptablePattern {
  p_regex : regex;
  p_feedback : string;
  minValue : option Z;
  maxValue : option Z
}.

(** A scenario definition, as far as the parser reads it:
    [definition.code?.acceptablePatterns], and [definition.story] with
    its hint. *)
Record ScenarioDefinition := mkScenarioDefinition {
  acceptablePatterns : option (list AcceptablePattern);
  story : option (option string)
}.

(** The feedback texts, by template. *)
Inductive Feedback :=
| TooLow (value : number) (atLeast : Z)
| MightLag (value : number) (atMost : Z)
| FromPattern (text : string)
| Hint (text : string)
| TryDifferentApproach
| TryAddingCondition.

Record Solution := mkSolution {
  valid : bool;
  feedback : Feedback;
  extractedValue : option number
}.

(** getValidationPatterns(definition) *)
Definition getValidationPatterns (d : ScenarioDefinition)
    : list AcceptablePattern :=
  default [] (acceptablePatterns d).

(** [match[1] ? parseInt(match[1], 10) : null] *)
Definition extract (caps : captures) : option number :=
  match caps !! 1%nat with
  | Some (c :: s) => Some (parseInt (c :: s))
  | _ => None
  end.

(** [bound && value < bound] and [bound && value > bound] *)
Definition below (value : number) (bound : option Z) : bool :=
  match bound with
  | Some b => negb (b =? 0) && lt value (Num b)
  | None => false
  end.

Definition above (value : number) (bound : option Z) : bool :=
  match bound with
  | Some b => negb (b =? 0) && gt value (Num b)
  | None => false
  end.

(** [text || fallback] on a string or undefined. *)
Definition hint_or (hint : option string) (fallback : Feedback) : Feedback :=
  match hint with
  | Some (String a s) => Hint (String a s)
  | _ => fallback
  end.

(** The loop of validateSolution over the patterns, and the return after
    it.  [None] is the TypeError of reading [definition.story.hint] when
    the definition has no story. *)
Fixpoint validate_patterns (patterns : list AcceptablePattern)
    (d : ScenarioDefinition) (code : jsstring) : option Solution :=
  match patterns with
  | [] =>
      hint ← story d;
      Some (mkSolution false (hint_or hint TryDifferentApproach) None)
  | pattern :: patterns' =>
      match str_match code (p_regex pattern) with
      | Some caps =>
          match extract caps with
          | Some value =>
              if below value (minValue pattern) then
                Some (mkSolution false
                        (TooLow value (default 0 (minValue pattern)))
                        (Some value))
              else if above value (maxValue pattern) then
                Some (mkSolution false
                        (MightLag value (default 0 (maxValue pattern)))
                        (Some value))
              else Some (mkSolution true (FromPattern (p_feedback pattern))
                           (Some value))
          | None =>
              Some (mkSolution true (FromPattern (p_feedback pattern)) None)
          end
      | None => validate_patterns patterns' d code
      end
  end.

(** validateSolution(definition, code) *)
Definition validateSolution (d : ScenarioDefinition) (code : jsstring)
    : option Solution :=
  validate_patterns (getValidationPatterns d) d code.

End ScenarioLoader.

Module SolutionParser.
Import JS Regex ScenarioLoader.

(** /while\s*\(\s*treeCount\s* op \s*(\d+)\s*\)/ and
    /while\s*\(\s*(\d+)\s* op \s*treeCount\s*\)/ *)
Definition re_loop_count_op_num (op : string) : regex :=
  Seq (Lit "while")
    (Seq (Star true is_space)
      (Seq (lit_char 40)
        (Seq (Star true is_space)
          (Seq (Lit "treeCount")
            (Seq (Star true is_space)
              (Seq (Lit op)
                (Seq (Star true is_space)
                  (Seq (Group 1 (Plus true is_digit))
                    (Seq (Star true is_space) (lit_char 41)))))))))).

Definition re_loop_num_op_count (op : string) : regex :=
  Seq (Lit "while")
    (Seq (Star true is_space)
      (Seq (lit_char 40)
        (Seq (Star true is_space)
          (Seq (Group 1 (Plus true is_digit))
            (Seq (Star true is_space)
              (Seq (Lit op)
                (Seq (Star true is_space)
                  (Seq (Lit "treeCount")
                    (Seq (Star true is_space) (lit_char 41)))))))))).

(** _getFallbackPatterns() *)
Definition _getFallbackPatterns : list AcceptablePattern :=
  [ mkAcceptablePattern (re_loop_count_op_num "<")
      "Great! You added a proper loop limit." (Some 10) (Some 175);
    mkAcceptablePattern (re_loop_count_op_num "<=")
      "Good use of <= operator!" (Some 10) (Some 174);
    mkAcceptablePattern (re_loop_num_op_count ">")
      "Clever! Reversed the comparison." (Some 10) (Some 175) ].

(** The loop of _parseStudentCode over [this.solutionPatterns]. *)
Fixpoint match_patterns (patterns : list AcceptablePattern)
    (no_match : Feedback) (code : jsstring) : Solution :=
  match patterns with
  | [] => mkSolution false no_match None
  | pattern :: patterns' =>
      match str_match code (p_regex pattern) with
      | Some caps =>
          mkSolution true (FromPattern (p_feedback pattern)) (extract caps)
      | None => match_patterns patterns' no_match code
      end
  end.

(** InfiniteForest._parseStudentCode(code): through the loader when the
    definition was loaded, else over the scenario's own patterns. *)
Definition _parseStudentCode (config : option ScenarioDefinition)
    (solutionPatterns : list AcceptablePattern) (story_hint : option string)
    (code : jsstring) : option Solution :=
  match config with
  | Some definition => validateSolution definition code
  | None =>
      Some (match_patterns solutionPatterns
              (hint_or story_hint TryAddingCondition) code)
  end.

End SolutionParser.

(* ===================================================================== *)
(** * InfiniteForest.js: the hint system                                *)
(* ===================================================================== *)

Module Hints.
Import JS InfiniteForest.

Record Hint := mkHint {
  level : Z;
  delaySeconds : option Z;
  text : string;
  trigger : string
}.

(** _getFallbackHints() *)
Definition _getFallbackHints : list Hint :=
  [ mkHint 1 (Some 60)
      "🤔 Look at the while loop. What happens when the condition is 'true'?"
      "time";
    mkHint 2 (Some 120)
      "💡 Replace 'true' with a condition that checks the tree count."
      "time";
    mkHint 3 (Some 180) "✅ Try: while (treeCount < 50)" "time" ].

(** What the hint system shows. *)
Inductive HintEffect :=
| ConsoleInfo (text : string)       (* codeEditor.log('info', text) *)
| ConsoleNoMoreHints
| PanelText (text : string)         (* the hint panel, made visible *)
| PulseButton.

(** The scenario with the fields of the hint system. *)
Record HintState := mkHintState {
  scenario : Forest;
  config_hints : option (list Hint);   (* this.config?.hints *)
  activeHintLevel : Z;
  hintPanel : bool;                    (* this._hintPanel is set *)
  effects : list HintEffect
}.

(** [this.config?.hints || this._getFallbackHints()] *)
Definition hints (h : HintState) : list Hint :=
  default _getFallbackHints (config_hints h).

Definition show (e : HintEffect) (h : HintState) : HintState :=
  mkHintState (scenario h) (config_hints h) (activeHintLevel h)
    (hintPanel h) (effects h ++ [e]).










End Hints.

(* ===================================================================== *)
(** * Notions used in the statements                                      *)
(* ===================================================================== *)

Section HealthBandsNotions.
Import VisualProfiler.

(** The two comparison directions in the words of the specification. *)
Definition band_higher_is_better (t : Threshold) (value : Z) : string :=
  if decide (value >= green t) then "healthy"
  else if decide (value >= yellow t) then "warning"
  else "critical".

Definition band_lower_is_better (t : Threshold) (value : Z) : string :=
  if decide (value < green t) then "healthy"
  else if decide (value < yellow t) then "warning"
  else "critical".

End HealthBandsNotions.

Section SamplerNotions.
Import JS VisualProfiler.

(** A run of the profiler: rendered frames (the per-frame hook) and timer
    ticks (sampleMetrics with what the host answers then), in order. *)
Inductive Action := Frame | Tick (host : Host).

Definition step (a : Action) (p : Profiler) : option Profiler :=
  match a with
  | Frame => Some (update p)
  | Tick host => sampleMetrics host p
  end.

Fixpoint run (acts : list Action) (p : Profiler) : option Profiler :=
  match acts with
  | [] => Some p
  | a :: acts' => p' ← step a p; run acts' p'
  end.

(** The value a tick stores in the history, if it stores one. *)
Definition tick_value (host : Host) (p : Profiler) : option Z :=
  if Qlt_le_dec 0 (now host - lastFpsTime p)%Q then
    Some (Math_round ((inject_Z (frameCount p)
                       / (now host - lastFpsTime p)) * 1000)%Q)
  else None.

(** The values stored during a run, oldest first. *)
Fixpoint written (acts : list Action) (p : Profiler) : list Z :=
  match acts with
  | [] => []
  | a :: acts' =>
      match step a p with
      | Some p' =>
          match a with
          | Tick host => option_list (tick_value host p)
          | Frame => []
          end ++ written acts' p'
      | None => []
      end
  end.

(** The last [n] elements of a list. *)
Definition last_n {A} (n : nat) (l : list A) : list A :=
  drop (length l - n) l.

(** Reading from the cursor forward, for a full buffer. *)
Definition ring_read (l : jsarray) (h : nat) : list (option Z) :=
  (fun i => array_get l ((h + i) mod 60)%nat) <$> seq 0 60.

(** The chronological reading is [chron], on a full buffer with the cursor
    in range. *)
Definition ring_inv (p : Profiler) (chron : list Z) : Prop :=
  length (fpsHistory p) = 60%nat /\ (historyIndex p < 60)%nat
  /\ drawGraph_samples p = Some <$> chron.

(** Sixty-five samples one second apart, the k-th after k rendered
    frames, so that it stores the value k. *)
Definition sixty_five_ticks : list Action :=
  flat_map
    (fun k => replicate k Frame
              ++ [Tick (mkHost (inject_Z (1000 * Z.of_nat k)) None None)])
    (seq 1 65).

Definition after_sixty_five_ticks : Profiler :=
  default (constructor 0) (run sixty_five_ticks (init true (constructor 0))).

Definition no_heap (a : Action) : Prop :=
  match a with
  | Tick host => usedJSHeapSize host = None
  | Frame => True
  end.

(** Two samples on a host without heap introspection. *)
Definition two_ticks_without_heap : list Action :=
  [Frame; Frame; Tick (mkHost 1000 None None); Frame;
   Tick (mkHost 2000 None None)].
Definition after_two_ticks : Profiler :=
  default (constructor 0)
    (run two_ticks_without_heap (init true (constructor 0))).

End SamplerNotions.

Section PopulationNotions.
Import Eff SceneController.

(** Every batch in the scene graph is one of the two the controller holds
    in [treeInstancedMesh]. *)
Definition known_batches (c : Controller) : Prop :=
  forall id, id ∈ scene_batches c ->
    exists trunk foliage,
      treeInstancedMesh c = Some (trunk, foliage)
      /\ (id = trunk \/ id = foliage).

(** A batch of [n] instances of kind [k], every slot [i < n] holding a
    matrix placed above the ground plane, its geometry and material live
    and its buffer flagged for upload. *)
Definition batch_ready (c : Controller) (id : nat) (k : MeshKind) (n : Z)
    : Prop :=
  exists m,
    store c !! id = Some m
    /\ kind m = k /\ count m = n
    /\ length (instanceMatrix m) = Z.to_nat n
    /\ (forall i, (i < Z.to_nat n)%nat ->
          exists mat, instanceMatrix m !! i = Some (Some mat)
                      /\ (0 < pos_y mat)%Q)
    /\ needsUpdate m = true
    /\ geometry_disposed m = false /\ material_disposed m = false.

Definition mesh_ref (o : Object3D) : option nat :=
  match o with MeshRef id => Some id | _ => None end.

(** The instance store of setMatrixAt, on one mesh. *)
Definition set_slot (i : nat) (mat : Matrix) (m : InstancedMesh)
    : InstancedMesh :=
  mkMesh (kind m) (count m) (<[i := Some mat]> (instanceMatrix m))
    (needsUpdate m) (geometry_disposed m) (material_disposed m).

Definition same_shape (m m' : InstancedMesh) : Prop :=
  kind m' = kind m /\ count m' = count m
  /\ needsUpdate m' = needsUpdate m
  /\ geometry_disposed m' = geometry_disposed m
  /\ material_disposed m' = material_disposed m
  /\ length (instanceMatrix m') = length (instanceMatrix m).

Definition filled (P : nat -> Prop) (m : InstancedMesh) : Prop :=
  forall i, P i -> (i < length (instanceMatrix m))%nat ->
    exists mat, instanceMatrix m !! i = Some (Some mat) /\ (0 < pos_y mat)%Q.

(** A host whose Math.random() cycles through eighths. *)
Definition host_eighths : Host :=
  mkHost (fun k => Z.of_nat (k mod 8) # 8) 1000000.

(** The controller after init() on that host: 25 trees. *)
Definition initial_scene : Controller := snd (init host_eighths constructor).

(** ... and after spawnTrees(-1) on it. *)
Definition after_negative_spawn : outcome unit * Controller :=
  spawnTrees host_eighths (-1) initial_scene.

End PopulationNotions.

Section CompletionNotions.
Import JS Eff InfiniteForest.

(** The two readings of validate(). *)
Definition reading_fps (env : Env) : Z := or_default (profiler_fps env) 0.
Definition reading_treeCount (env : Env) : Z :=
  or_default (scene_treeCount env) 0.

(** Both conjuncts of the success criterion hold. *)
Definition passes (env : Env) (s : Forest) : Prop :=
  effective_targetFPS s <= reading_fps env
  /\ effective_min s <= reading_treeCount env <= effective_max s.

Definition is_notification (e : Event) : bool :=
  match e with
  | OnCompleteCalled _ => true
  | _ => false
  end.

Definition is_markComplete (e : Event) : bool :=
  match e with
  | MarkComplete _ _ _ => true
  | _ => false
  end.

(** How often the [onComplete] property was called, and how often
    ProgressTracker.markComplete. *)
Definition notifications (s : Forest) : nat :=
  length (List.filter is_notification (events s)).
Definition progress_records (s : Forest) : nat :=
  length (List.filter is_markComplete (events s)).

(** Readings of the fixed scene: 60 frames per second with 50 trees. *)
Definition fixed_readings : Env :=
  mkEnv 90000 (Some 60) (Some 50) true (Some "student-1").

(** The scenario as ScenarioManager loads it when the JSON definition is
    missing: fallback configuration, manager callbacks. *)
Definition loaded_scenario : Forest :=
  loadScenario_callbacks (_useFallbackConfig constructor).

End CompletionNotions.

Section MatcherFactsNotions.
Import JS Regex.

(** [$] under the m flag holds before [rest]. *)
Definition at_eol (rest : jsstring) : Prop :=
  match rest with
  | [] => True
  | c :: _ => is_line_terminator c = true
  end.

(** [matches r m rest caps caps']: the pattern [r] can consume [m] when
    followed by [rest], turning the groups [caps] into [caps']. *)
Inductive matches : regex -> jsstring -> jsstring -> captures -> captures
    -> Prop :=
| M_Eps rest caps : matches Eps [] rest caps caps
| M_Chr p c rest caps :
    p c = true -> matches (Chr p) [c] rest caps caps
| M_Star g p cs rest caps :
    Forall (fun c => p c = true) cs -> matches (Star g p) cs rest caps caps
| M_Seq r1 r2 m1 m2 rest caps caps1 caps2 :
    matches r1 m1 (m2 ++ rest) caps caps1 ->
    matches r2 m2 rest caps1 caps2 ->
    matches (Seq r1 r2) (m1 ++ m2) rest caps caps2
| M_AltL r1 r2 m rest caps caps' :
    matches r1 m rest caps caps' -> matches (Alt r1 r2) m rest caps caps'
| M_AltR r1 r2 m rest caps caps' :
    matches r2 m rest caps caps' -> matches (Alt r1 r2) m rest caps caps'
| M_Group i r m rest caps caps' :
    matches r m rest caps caps' ->
    matches (Group i r) m rest caps (<[i := m]> caps')
| M_Eol rest caps : at_eol rest -> matches Eol [] rest caps caps.

(** A literal, character by character. *)
Definition lit_list (l : jsstring) : regex :=
  fold_right (fun c r => Seq (lit_char c) r) Eps l.

(** A nonempty run of decimal digits. *)
Definition digit_string (ds : jsstring) : Prop :=
  ds <> [] /\ Forall (fun c => is_digit c = true) ds.

Import CodeExecutor.

(** A number that is neither NaN nor negative. *)
Definition nonneg (x : number) : Prop :=
  match x with
  | Num z => 0 <= z
  | Huge false => True
  | _ => False
  end.

Fixpoint prefixb (a b : jsstring) : bool :=
  match a, b with
  | [], _ => true
  | x :: a', y :: b' => N.eqb x y && prefixb a' b'
  | _ :: _, [] => false
  end.

Fixpoint infixb (needle hay : jsstring) : bool :=
  prefixb needle hay
  || match hay with
     | [] => false
     | _ :: hay' => infixb needle hay'
     end.

(** A message names the cap when it contains the cap's decimal text. *)
Definition names_cap (w : jsstring) : bool :=
  infixb (toString maxTreeLimit) w.

(** The class [p] cannot go on into [rest]. *)
Definition stops (p : N -> bool) (rest : jsstring) : Prop :=
  match rest with
  | [] => True
  | c :: _ => p c = false
  end.

(** An operator whose first character is neither a word character, a
    digit nor white space: [<], [<=], [>], [>=], [!=]. *)
Definition operator (op : string) : Prop :=
  match js op with
  | [] => False
  | o :: _ => is_word o = false /\ is_space o = false /\ is_digit o = false
  end.

(** The first character after the white space at the start of [s] is in
    the class [p]. *)
Definition follows (p : N -> bool) (s : jsstring) : bool :=
  match trimStart s with
  | c :: _ => p c
  | [] => false
  end.

(** Some occurrence of the character [o] in [s] is followed, after
    optional white space, by a character of the class [p]. *)
Fixpoint has_follow (o : N) (p : N -> bool) (s : jsstring) : bool :=
  match s with
  | [] => false
  | c :: s' => (N.eqb c o && follows p s') || has_follow o p s'
  end.

Definition identifier (w : jsstring) : Prop :=
  w <> [] /\ Forall (fun c => is_word c = true) w.

Definition spaces (sp : jsstring) : Prop :=
  Forall (fun c => is_space c = true) sp.

(** The result of the extractor on a text: accepted with this limit. *)
Definition accepts (code : string) (n : Z) : Prop :=
  valid (parseStudentCode (js code)) = true
  /\ limit (parseStudentCode (js code)) = Some (Num n).

End MatcherFactsNotions.

Section CommentNotions.
Import JS.

(** No code unit of [s] is a slash. *)
Definition slash_free (s : jsstring) : Prop := Forall (fun c => c <> 47%N) s.

(** [s] does not begin with a slash. *)
Definition no_leading_slash (s : jsstring) : Prop :=
  match s with
  | c :: _ => c <> 47%N
  | [] => True
  end.

(** No code unit of [s] ends a line. *)
Definition one_line (s : jsstring) : Prop :=
  Forall (fun c => is_line_terminator c = false) s.

End CommentNotions.

Section PanelNotions.
Import JS VisualProfiler.

(** The timer ticks of a run. *)
Fixpoint ticks (acts : list Action) : nat :=
  match acts with
  | [] => 0
  | Tick _ :: acts' => S (ticks acts')
  | Frame :: acts' => ticks acts'
  end.

Definition fps_write (w : DomWrite) : option Z :=
  match w with
  | WriteFps v _ => Some v
  | _ => None
  end.

Definition is_graph_draw (w : DomWrite) : bool :=
  match w with
  | DrawGraph _ => true
  | _ => false
  end.

(** The frame rates written to the panel, in order, and the number of
    times the graph was drawn. *)
Definition fps_writes (p : Profiler) : list Z := omap fps_write (dom p).
Definition graph_draws (p : Profiler) : nat :=
  length (List.filter is_graph_draw (dom p)).

(** No two neighbours of [l] are equal. *)
Fixpoint no_repeat (l : list Z) : Prop :=
  match l with
  | a :: (b :: _) as t => a <> b /\ no_repeat t
  | _ => True
  end.

(** Three samples one second apart, after 60, 60 and 30 rendered frames. *)
Definition three_ticks : list Action :=
  replicate 60 Frame ++ [Tick (mkHost 1000 None None)]
  ++ replicate 60 Frame ++ [Tick (mkHost 2000 None None)]
  ++ replicate 30 Frame ++ [Tick (mkHost 3000 None None)].
Definition after_three_ticks : Profiler :=
  default (constructor 0) (run three_ticks (init true (constructor 0))).

End PanelNotions.

Section ForestNotions.
Import Eff SceneController.

(** Where spawnTrees puts a tree: inside the square of side 90 around the
    origin, the trunk at height 1, uniformly scaled by a factor from 0.7
    up to 1.3 and turned by less than a full turn, the foliage at the same
    place, scale and turn, 3.5 times the scale above the ground. *)
Definition well_placed (trunk foliage : Matrix) : Prop :=
  (-45 <= pos_x trunk /\ pos_x trunk < 45
   /\ -45 <= pos_z trunk /\ pos_z trunk < 45
   /\ (7 # 10) <= scale trunk /\ scale trunk < (13 # 10)
   /\ 0 <= rot_y_pi trunk /\ rot_y_pi trunk < 2)%Q
  /\ pos_y trunk = 1%Q
  /\ pos_x foliage = pos_x trunk /\ pos_z foliage = pos_z trunk
  /\ scale foliage = scale trunk /\ rot_y_pi foliage = rot_y_pi trunk
  /\ pos_y foliage = ((35 # 10) * scale trunk)%Q.

(** The slots of [P] hold a well placed tree. *)
Definition planted (P : nat -> Prop) (mt mf : InstancedMesh) : Prop :=
  forall i, P i -> (i < length (instanceMatrix mt))%nat ->
    exists a b,
      instanceMatrix mt !! i = Some (Some a)
      /\ instanceMatrix mf !! i = Some (Some b)
      /\ well_placed a b.

(** Math.random() answers from 0 inclusive to 1 exclusive. *)
Definition unit_random (host : Host) : Prop :=
  forall k, (0 <= random host k /\ random host k < 1)%Q.

Definition disposed (m : InstancedMesh) : Prop :=
  geometry_disposed m = true /\ material_disposed m = true.

Definition is_current (c : Controller) (id : nat) : Prop :=
  exists t f, treeInstancedMesh c = Some (t, f) /\ (id = t \/ id = f).

(** Nothing leaks: the scene holds no batch but the current pair, every
    batch ever made that is not of the current pair has been disposed, and
    the addresses in use are below the next fresh one. *)
Definition tidy (c : Controller) : Prop :=
  known_batches c
  /\ (forall id m, store c !! id = Some m -> is_current c id \/ disposed m)
  /\ (forall id m, store c !! id = Some m -> (id < next_id c)%nat)
  /\ (forall t f, treeInstancedMesh c = Some (t, f) ->
        t <> f /\ is_Some (store c !! t) /\ is_Some (store c !! f)).

(** spawnTrees called once for each count of a list, in order. *)
Fixpoint spawn_each (host : Host) (ns : list Z) : M Controller unit :=
  match ns with
  | [] => mret tt
  | n :: ns' => spawnTrees host n ;; spawn_each host ns'
  end.

(** The scene without its instanced batches: lights, ground and grid. *)
Definition scenery (c : Controller) : list Object3D :=
  List.filter (fun o => match o with MeshRef _ => false | _ => true end)
    (scene c).

End ForestNotions.

Section ScenarioNotions.
Import JS Eff InfiniteForest.

(** The checkpoint names the sources pass to _markCheckpoint; none of them
    names a property of Object.prototype. *)
Definition checkpoint_names : list string :=
  ["scene_loaded"; "inspect_code"; "code_modified"; "code_applied";
   "fps_improved"; "tree_count_valid"; "scenario_complete"].

(** The scenario with the frame rate validate() has just read stored in
    its metrics and its session. *)
Definition with_fpsAfter (fps : Z) (s : Forest) : Forest :=
  mkForest (id s) (state s) (attempts s) (startTime s) (completionTime s)
    (mkScenarioMetrics (fpsBefore (metrics s)) (Some fps)
       (codeChanges (metrics s)) (hintsUsed (metrics s)))
    (validation s) (story s) (onComplete_property s)
    (onStateChange_property s)
    (mkSession (s_attempts (session s)) (hintsShown (session s))
       (hintsRevealed (session s)) (s_startTime (session s))
       (checkpoints (session s)) (completed (session s))
       (s_fpsBefore (session s)) (Some fps))
    (hintTimers s) (successOverlay s) (hintButton s) (events s).

(** The session with other counters. *)
Definition with_counters (attempts hints : Z) (s : Forest) : Forest :=
  set_session (fun ss =>
    mkSession attempts hints (hintsRevealed ss) (s_startTime ss)
      (checkpoints ss) (completed ss) (s_fpsBefore ss) (s_fpsAfter ss)) s.

(** Readings of a scene that still lags, and of one that runs fast with
    too many trees. *)
Definition laggy_readings : Env :=
  mkEnv 90000 (Some 30) (Some 300) true (Some "student-1").
Definition crowded_readings : Env :=
  mkEnv 90000 (Some 60) (Some 300) true (Some "student-1").

Definition is_story_failure (m : Message) : bool :=
  match m with
  | StoryFailure _ => true
  | _ => false
  end.

End ScenarioNotions.

Section ExecutorNotions.
Import JS Eff CodeExecutor SceneController Executor.

(** The callbacks that are set return when called. *)
Definition callbacks_return (ex : Executor) : Prop :=
  (forall f r, onExecute ex = Some f -> f r = Returns)
  /\ (forall f r, onError ex = Some f -> f r = Returns).

(** The calls a callback slot receives for one result. *)
Definition heard {A} (cb : option A) (entry : Call) : list Call :=
  match cb with
  | Some _ => [entry]
  | None => []
  end.

(** The executor as [new CodeExecutor(sceneController, profiler)] leaves
    it, on the scene after init(); a clock reading with a profiler at 60
    frames per second; a host that cannot allocate a batch of 50. *)
Definition fresh_executor : Executor := constructor initial_scene.
Definition steady_clock : Env := mkEnv 1000 (Some 60).
Definition cramped_host : SceneController.Host :=
  SceneController.mkHost (random host_eighths) 100.
Definition fifty_trees : jsstring := js "while (treeCount < 50) { }".

End ExecutorNotions.

Section ManagerNotions.
Import InfiniteForest ScenarioManager.

(** The manager after the completion events of a list, in order. *)
Definition after_events (events : list CompletionEvent) (m : Manager)
    : Manager :=
  fold_left (fun acc ev => _onScenarioComplete ev acc) events m.

Definition durations (events : list CompletionEvent) : Z :=
  fold_right (fun ev acc => ev_duration ev + acc) 0 events.

(** The event Scenario.complete(true) hands to the manager for the forest
    scenario, after [duration] milliseconds. *)
Definition forest_completed (duration : Z) : CompletionEvent :=
  mkCompletionEvent "infinite-forest" true duration 1
    (mkScenarioMetrics None (Some 60) 0 0).

End ManagerNotions.

Section TimerNotions.
Import Updates.

Inductive TimerOp :=
| Init | StartUpdates | StopUpdates | Show | Hide | Dispose
| ToggleProfiler | ToggleLiteMode (liteMode : bool).

Definition apply_op (op : TimerOp) : Timer -> Timer :=
  match op with
  | Init => init
  | StartUpdates => startUpdates
  | StopUpdates => stopUpdates
  | Show => show
  | Hide => hide
  | Dispose => dispose
  | ToggleProfiler => toggleProfiler
  | ToggleLiteMode b => toggleLiteMode b
  end.

Definition apply_ops (ops : list TimerOp) (t : Timer) : Timer :=
  fold_left (fun acc op => apply_op op acc) ops t.

(** The handle the profiler holds is the one interval alive, and no
    handle at or above the next fresh one is in use. *)
Definition one_timer (t : Timer) : Prop :=
  alive t = match updateInterval t with Some h => [h] | None => [] end
  /\ Forall (fun h => (h < next_handle t)%positive) (alive t).

End TimerNotions.

Section StatusNotions.
Import JS VisualProfiler.

(** One sample after five frames in a second, and the report
    getMetrics() then gives. *)
Definition slow_tick : list Action :=
  replicate 5 Frame ++ [Tick (mkHost 1000 None None)].
Definition after_slow_tick : Profiler :=
  default (constructor 0) (run slow_tick (init true (constructor 0))).
Definition slow_report : MetricsReport :=
  default
    (mkMetricsReport (metrics after_slow_tick) (mkHealth EmptyString [] EmptyString)
       (mkHealth EmptyString [] EmptyString) (mkHealth EmptyString [] EmptyString))
    (getMetrics after_slow_tick).

End StatusNotions.

Section LoaderNotions.
Import JS Regex ScenarioLoader SolutionParser.

(** A loop header that tests the tree count against a numeral. *)
Definition loop_header (sp0 sp1 sp2 : jsstring) (op : string)
    (sp3 ds sp4 : jsstring) : jsstring :=
  js "while" ++ sp0 ++ js "(" ++ sp1 ++ js "treeCount" ++ sp2 ++ js op
  ++ sp3 ++ ds ++ sp4 ++ js ")".

(** The value lies within the bounds that are set and not zero. *)
Definition within (value : Z) (lo hi : option Z) : Prop :=
  (forall b, lo = Some b -> b <> 0 -> b <= value)
  /\ (forall b, hi = Some b -> b <> 0 -> value <= b).

(** The definition of the scenario format's documentation: one pattern,
    /treeCount\s*<\s*(\d+)/, with the bounds 10 and 175. *)
Definition documented_definition : ScenarioDefinition :=
  mkScenarioDefinition
    (Some [ mkAcceptablePattern
              (Seq (Lit "treeCount")
                 (Seq (Star true is_space)
                    (Seq (Lit "<")
                       (Seq (Star true is_space)
                          (Group 1 (Plus true is_digit))))))
              "Great! You added a proper loop limit." (Some 10) (Some 175) ])
    (Some (Some "Look at the while loop condition..."%string)).

End LoaderNotions.

Section HeaderNotions.
Import JS Regex CodeExecutor.

(** A loop condition as the extractor reads it: it starts and ends with a
    character that is no white space, stays on one line and holds no
    closing parenthesis. *)
Definition plain_condition (cond : jsstring) : Prop :=
  (exists c cond', cond = c :: cond' /\ is_space c = false)
  /\ (exists c, last cond = Some c /\ is_space c = false)
  /\ one_line cond
  /\ Forall (fun c => c <> 41%N) cond.

(** [while (cond)] with optional white space. *)
Definition while_header (sp0 sp1 cond sp2 : jsstring) : jsstring :=
  js "while" ++ sp0 ++ js "(" ++ sp1 ++ cond ++ sp2 ++ js ")".

(** What the extractor makes of a text: a while loop with this condition
    and this count, cut at the cap, with the cap warning exactly when the
    count is over the cap and no error. *)
Definition reads_loop (code cond : jsstring) (n : Z) : Prop :=
  let r := parseStudentCode code in
  valid r = true /\ limit r = Some (Num (Z.min n maxTreeLimit))
  /\ condition r = Some cond /\ pattern r = Some PWhile
  /\ errors r = []
  /\ (msg_capped ∈ warnings r <-> maxTreeLimit < n).

End HeaderNotions.

Section HintNotions.
Import JS InfiniteForest Hints.







End HintNotions.


(* ===================================================================== *)
(** * Properties                                                          *)
(* ===================================================================== *)

#[local] Arguments Nat.modulo : simpl never.
#[local] Arguments Z.pow : simpl never.
#[local] Arguments InfiniteForest._markCheckpoint : simpl never.

(** ** Health classification *)

Section HealthBands.
Import VisualProfiler.

Lemma getHealth_fps p value :
  c <$> getHealth p "fps" value
  = (fun t => band_higher_is_better t value) <$> (thresholds p !! "fps").
Proof.
  unfold getHealth, band_higher_is_better.
  destruct (thresholds p !! "fps") as [t|]; simpl; [|done].
  f_equal.
  destruct (Z.leb_spec (green t) value), (Z.leb_spec (yellow t) value);
    repeat case_decide; simpl; try done; lia.
Qed.

Lemma getHealth_other p metric value :
  metric ≠ "fps" -> inherited metric = false ->
  c <$> getHealth p metric value
  = (fun t => band_lower_is_better t value) <$> (thresholds p !! metric).
Proof.
  intros Hne Hown. unfold getHealth, band_lower_is_better.
  destruct (thresholds p !! metric) as [t|]; simpl; [|by rewrite Hown].
  f_equal. rewrite bool_decide_eq_false_2 by done.
  destruct (Z.ltb_spec value (green t)), (Z.ltb_spec value (yellow t));
    repeat case_decide; simpl; try done; lia.
Qed.

(** C3: getHealth compares upwards for fps (healthy from the green bound
    up, warning from the yellow bound up, else critical) and downwards for
    drawCalls and memory (healthy strictly below green, warning strictly
    below yellow, else critical), whatever thresholds are configured; with
    the default thresholds fps 45 is healthy, 44 warning, 29 critical,
    and 49 draw calls are healthy while 50 are a warning. *)
Theorem C3_getHealth_bands :
  (forall p value,
     c <$> getHealth p "fps" value
     = (fun t => band_higher_is_better t value) <$> (thresholds p !! "fps"))
  /\ (forall p value,
     c <$> getHealth p "drawCalls" value
     = (fun t => band_lower_is_better t value)
         <$> (thresholds p !! "drawCalls"))
  /\ (forall p value,
     c <$> getHealth p "memory" value
     = (fun t => band_lower_is_better t value) <$> (thresholds p !! "memory"))
  /\ (forall t0,
     let p := constructor t0 in
     thresholds p !! "fps" = Some (mkThreshold 45 30)
     /\ thresholds p !! "drawCalls" = Some (mkThreshold 50 80)
     /\ c <$> getHealth p "fps" 45 = Some "healthy"
     /\ c <$> getHealth p "fps" 44 = Some "warning"
     /\ c <$> getHealth p "fps" 29 = Some "critical"
     /\ c <$> getHealth p "drawCalls" 49 = Some "healthy"
     /\ c <$> getHealth p "drawCalls" 50 = Some "warning").
Proof.
  split; [exact getHealth_fps|].
  split; [intros; by apply getHealth_other|].
  split; [intros; by apply getHealth_other|].
  intros t0 p. repeat split; reflexivity.
Qed.

End HealthBands.

(** ** The sampler: heap reading and history ring *)

Section Sampler.
Import JS VisualProfiler.

Lemma updateUI_keeps p p' :
  updateUI p = Some p' ->
  metrics p' = metrics p /\ fpsHistory p' = fpsHistory p
  /\ historyIndex p' = historyIndex p /\ thresholds p' = thresholds p.
Proof.
  unfold updateUI, drawGraph, push_dom. intros H.
  repeat (case_match; simplify_option_eq; simpl in *; try done).
Qed.

Lemma mod60_cases n :
  (n < 120 -> n mod 60 = if decide (n < 60) then n else n - 60)%nat.
Proof.
  intros Hn. case_decide.
  - apply Nat.mod_small; lia.
  - symmetry. apply (Nat.mod_unique n 60 1); lia.
Qed.

Lemma ring_read_lookup l h i :
  (i < 60)%nat -> ring_read l h !! i = Some (array_get l ((h + i) mod 60)%nat).
Proof.
  intros Hi. unfold ring_read.
  by rewrite list_lookup_fmap, lookup_seq_lt.
Qed.

Lemma ring_read_length l h : length (ring_read l h) = 60%nat.
Proof. unfold ring_read. by rewrite length_fmap, length_seq. Qed.

(** A store at the cursor followed by the advance of the cursor drops the
    oldest value from the chronological reading and appends the new one. *)
Lemma ring_read_write l h v :
  length l = 60%nat -> (h < 60)%nat ->
  ring_read (array_set l h v) ((h + 1) mod 60)%nat
  = drop 1 (ring_read l h) ++ [Some v].
Proof.
  intros Hl Hh. unfold array_set. rewrite decide_True by lia.
  apply list_eq. intros i.
  destruct (decide (i < 59)%nat) as [Hi|Hi].
  - rewrite ring_read_lookup by lia.
    rewrite lookup_app_l by (rewrite length_drop, ring_read_length; lia).
    rewrite lookup_drop, ring_read_lookup by lia.
    f_equal. unfold array_get. f_equal.
    rewrite list_lookup_insert_ne; [f_equal|].
    + rewrite (mod60_cases (h + 1)) by lia.
      rewrite !mod60_cases by (repeat case_decide; lia).
      repeat case_decide; lia.
    + rewrite (mod60_cases (h + 1)) by lia.
      rewrite !mod60_cases by (repeat case_decide; lia).
      repeat case_decide; lia.
  - destruct (decide (i = 59)%nat) as [->|Hi'].
    + rewrite ring_read_lookup by lia.
      rewrite lookup_app_r by (rewrite length_drop, ring_read_length; lia).
      rewrite length_drop, ring_read_length.
      replace (((h + 1) mod 60 + 59) mod 60)%nat with h.
      * unfold array_get. by rewrite list_lookup_insert_eq by lia.
      * rewrite (mod60_cases (h + 1)) by lia.
        rewrite !mod60_cases by (repeat case_decide; lia).
        repeat case_decide; lia.
    + rewrite !lookup_ge_None_2; [done| |].
      * rewrite length_app, length_drop, ring_read_length. simpl. lia.
      * rewrite ring_read_length. lia.
Qed.

Lemma sample_history host p :
  fpsHistory (sample host p)
  = match tick_value host p with
    | Some v => array_set (fpsHistory p) (historyIndex p) v
    | None => fpsHistory p
    end
  /\ historyIndex (sample host p)
  = match tick_value host p with
    | Some _ => ((historyIndex p + 1) mod 60)%nat
    | None => historyIndex p
    end.
Proof.
  unfold sample, tick_value.
  destruct (Qlt_le_dec 0 (now host - lastFpsTime p)); simpl; done.
Qed.

Lemma sample_memory host p :
  memory (metrics (sample host p))
  = match usedJSHeapSize host with
    | Some used => Some (Math_round (inject_Z used / 1048576)%Q)
    | None => memory (metrics p)
    end.
Proof.
  unfold sample.
  destruct (usedJSHeapSize host), (renderer_info host); simpl; done.
Qed.

Lemma last_n_shift {A} (chron w : list A) (v : A) :
  length chron = 60%nat ->
  last_n 60 ((drop 1 chron ++ [v]) ++ w) = last_n 60 (chron ++ v :: w).
Proof.
  intros Hl. destruct chron as [|c0 chron]; [done|].
  simpl in Hl. unfold last_n.
  change (drop 1 (c0 :: chron)) with chron.
  rewrite <- app_assoc. simpl app. simpl length.
  rewrite !length_app. simpl length.
  replace (length chron + S (length w) - 60)%nat with (length w) by lia.
  replace (S (length chron + S (length w)) - 60)%nat
    with (S (length w)) by lia.
  done.
Qed.

Lemma last_n_snoc {A} (chron : list A) (v : A) :
  length chron = 60%nat -> last_n 60 (chron ++ [v]) = drop 1 chron ++ [v].
Proof.
  intros Hl. unfold last_n. rewrite length_app, Hl. simpl length.
  change (60 + 1 - 60)%nat with 1%nat.
  rewrite drop_app_le by lia. done.
Qed.

Lemma ring_inv_length p chron : ring_inv p chron -> length chron = 60%nat.
Proof.
  intros (_ & _ & H). apply (f_equal length) in H.
  change (drawGraph_samples p)
    with (ring_read (fpsHistory p) (historyIndex p)) in H.
  by rewrite ring_read_length, length_fmap in H.
Qed.

Lemma step_ring_inv a p p' chron :
  step a p = Some p' -> ring_inv p chron ->
  ring_inv p'
    (last_n 60 (chron ++ match a with
                         | Tick host => option_list (tick_value host p)
                         | Frame => []
                         end)).
Proof.
  intros Hstep Hinv. pose proof (ring_inv_length _ _ Hinv) as Hlen.
  destruct Hinv as (Hl & Hh & Hread).
  assert (Hsame : last_n 60 (chron ++ []) = chron).
  { unfold last_n. rewrite app_nil_r, Hlen. done. }
  destruct a as [|host]; simpl in Hstep.
  - inversion Hstep; subst. rewrite Hsame. done.
  - unfold sampleMetrics in Hstep.
    apply updateUI_keeps in Hstep as (_ & Hhist & Hidx & _).
    destruct (sample_history host p) as [Hh1 Hi1].
    unfold ring_inv, drawGraph_samples. rewrite Hhist, Hidx, Hh1, Hi1.
    destruct (tick_value host p) as [v|]; simpl.
    + unfold array_set at 1. rewrite decide_True by lia.
      rewrite length_insert. split; [done|]. split.
      { rewrite mod60_cases by lia. case_decide; lia. }
      change (ring_read (array_set (fpsHistory p) (historyIndex p) v)
                ((historyIndex p + 1) mod 60)
              = Some <$> last_n 60 (chron ++ [v])).
      rewrite ring_read_write by done.
      change (ring_read (fpsHistory p) (historyIndex p))
        with (drawGraph_samples p).
      rewrite Hread.
      rewrite last_n_snoc by done.
      by rewrite fmap_app, fmap_drop.
    + rewrite Hsame. done.
Qed.

Lemma run_ring_inv acts : forall p p' chron,
  run acts p = Some p' -> ring_inv p chron ->
  ring_inv p' (last_n 60 (chron ++ written acts p)).
Proof.
  induction acts as [|a acts IH]; intros p p' chron Hrun Hinv.
  - simpl in *. inversion Hrun; subst.
    pose proof (ring_inv_length _ _ Hinv) as Hlen.
    unfold last_n. rewrite app_nil_r, Hlen. done.
  - simpl in Hrun. simpl written.
    destruct (step a p) as [p1|] eqn:Hstep; [|done]. simpl in Hrun.
    pose proof (step_ring_inv _ _ _ _ Hstep Hinv) as Hinv1.
    pose proof (ring_inv_length _ _ Hinv) as Hlen.
    specialize (IH _ _ _ Hrun Hinv1).
    destruct a as [|host]; simpl in *.
    + unfold last_n at 2 in IH. rewrite app_nil_r, Hlen in IH. done.
    + destruct (tick_value host p) as [v|]; simpl in *.
      * rewrite last_n_snoc in IH by done.
        rewrite last_n_shift in IH by done. done.
      * unfold last_n at 2 in IH. rewrite app_nil_r, Hlen in IH. done.
Qed.

Lemma last_n_app_ge {A} (n : nat) (l w : list A) :
  (n <= length w)%nat -> last_n n (l ++ w) = last_n n w.
Proof.
  intros Hn. unfold last_n. rewrite length_app.
  rewrite drop_app_ge by lia. f_equal. lia.
Qed.

(** The slots visited by a reading from cursor [h], in order. *)
Lemma ring_indices h :
  (h < 60)%nat ->
  (fun i => (h + i) mod 60)%nat <$> seq 0 60 = seq h (60 - h) ++ seq 0 h.
Proof.
  intros Hh. apply list_eq. intros i.
  rewrite list_lookup_fmap.
  destruct (decide (i < 60 - h)%nat) as [Hi|Hi].
  - rewrite lookup_seq_lt by lia. simpl.
    rewrite lookup_app_l by (rewrite length_seq; lia).
    rewrite lookup_seq_lt by lia.
    rewrite mod60_cases by lia. case_decide; f_equal; lia.
  - destruct (decide (i < 60)%nat) as [Hi'|Hi'].
    + rewrite lookup_seq_lt by lia. simpl.
      rewrite lookup_app_r by (rewrite length_seq; lia).
      rewrite length_seq, lookup_seq_lt by lia.
      rewrite mod60_cases by lia. case_decide; f_equal; lia.
    + rewrite lookup_seq_ge by lia. simpl.
      rewrite lookup_ge_None_2; [done|].
      rewrite length_app, !length_seq. lia.
Qed.

Lemma init_ring_inv b t0 :
  ring_inv (init b (constructor t0)) (replicate 60 60).
Proof.
  unfold ring_inv. split; [done|]. split; [simpl; lia|]. reflexivity.
Qed.

(** C4: the FPS history is created with 60 slots holding 60 and the cursor
    at 0; a sample that stores a value overwrites the slot under the
    cursor and moves the cursor to the next slot modulo 60, the length
    staying 60; reading from the cursor forward, as the graph does, visits
    each of the 60 slots once and yields, oldest first, the last 60 of the
    initial values followed by the stored ones, hence exactly the most
    recent 60 stored values once 60 or more (65, say) were stored. *)
Theorem C4_history_ring :
  (forall t0,
     fpsHistory (constructor t0) = replicate 60 (Some 60)
     /\ historyIndex (constructor t0) = 0%nat)
  /\ (forall host p p',
        length (fpsHistory p) = 60%nat -> (historyIndex p < 60)%nat ->
        sampleMetrics host p = Some p' ->
        length (fpsHistory p') = 60%nat /\ (historyIndex p' < 60)%nat
        /\ match tick_value host p with
           | Some v =>
               fpsHistory p' = <[historyIndex p := Some v]> (fpsHistory p)
               /\ historyIndex p' = ((historyIndex p + 1) mod 60)%nat
           | None =>
               fpsHistory p' = fpsHistory p
               /\ historyIndex p' = historyIndex p
           end)
  /\ (forall b t0 acts p',
        run acts (init b (constructor t0)) = Some p' ->
        let stored := written acts (init b (constructor t0)) in
        length (fpsHistory p') = 60%nat
        /\ drawGraph_samples p'
           = Some <$> last_n 60 (replicate 60 60 ++ stored)
        /\ ((60 <= length stored)%nat ->
            drawGraph_samples p' = Some <$> last_n 60 stored))
  /\ (forall h, (h < 60)%nat ->
        (fun i => (h + i) mod 60)%nat <$> seq 0 60 ≡ₚ seq 0 60).
Proof.
  split; [done|]. split; [|split].
  - intros host p p' Hl Hh Hs. unfold sampleMetrics in Hs.
    apply updateUI_keeps in Hs as (_ & Hhist & Hidx & _).
    destruct (sample_history host p) as [Hh1 Hi1].
    rewrite Hhist, Hidx, Hh1, Hi1.
    destruct (tick_value host p) as [v|].
    + unfold array_set. rewrite decide_True by lia.
      rewrite length_insert. repeat split; try done.
      rewrite mod60_cases by lia. case_decide; lia.
    + done.
  - intros b t0 acts p' Hrun stored.
    pose proof (run_ring_inv _ _ _ _ Hrun (init_ring_inv b t0))
      as (Hl & _ & Hread).
    split; [done|]. split; [done|].
    intros Hlen. rewrite Hread. by rewrite last_n_app_ge.
  - intros h Hh. rewrite ring_indices by done.
    assert (seq 0 60 = seq 0 h ++ seq (0 + h) (60 - h)) as ->
      by (rewrite <- seq_app; f_equal; lia).
    apply Permutation_app_comm.
Qed.

Lemma C4_history_ring_witness :
  run sixty_five_ticks (init true (constructor 0))
  = Some after_sixty_five_ticks
  /\ written sixty_five_ticks (init true (constructor 0))
     = Z.of_nat <$> seq 1 65
  /\ drawGraph_samples after_sixty_five_ticks
     = Some <$> (Z.of_nat <$> seq 6 60).
Proof.
  assert (Hrun : run sixty_five_ticks (init true (constructor 0))
                 = Some after_sixty_five_ticks) by (vm_compute; reflexivity).
  assert (Hw : written sixty_five_ticks (init true (constructor 0))
               = Z.of_nat <$> seq 1 65) by (vm_compute; reflexivity).
  split; [exact Hrun|]. split; [exact Hw|].
  destruct (proj1 (proj2 (proj2 C4_history_ring)) true 0%Q _ _ Hrun)
    as (_ & _ & Hlast).
  rewrite Hw in Hlast.
  rewrite Hlast by (vm_compute; lia). reflexivity.
Defined.

(** C8, as stated, fails: on the constructor's profiler one sample on a
    host without heap
    introspection leaves the reported heap figure at the number 0. *)
Lemma C8_memory_reads_zero :
  exists p' report,
    sampleMetrics (mkHost 1000 None None) (constructor 0) = Some p'
    /\ getMetrics p' = Some report
    /\ memory (metrics p') = Some 0
    /\ memory (sample_of report) = Some 0
    /\ memory (sample_of report) <> None.
Proof.
  eexists _, _. split; [vm_compute; reflexivity|].
  split; [vm_compute; reflexivity|]. repeat split; done.
Qed.

Lemma run_thresholds acts : forall p p',
  run acts p = Some p' -> thresholds p' = thresholds p.
Proof.
  induction acts as [|a acts IH]; intros p p' Hrun; simpl in Hrun.
  - by inversion Hrun.
  - destruct (step a p) as [p1|] eqn:Hstep; [|done]. simpl in Hrun.
    rewrite (IH _ _ Hrun). destruct a as [|host]; simpl in Hstep.
    + by inversion Hstep.
    + unfold sampleMetrics in Hstep.
      by apply updateUI_keeps in Hstep as (_ & _ & _ & ->).
Qed.

Lemma step_memory a p p' :
  no_heap a -> step a p = Some p' ->
  memory (metrics p') = memory (metrics p).
Proof.
  destruct a as [|host]; simpl; intros Hno Hstep.
  - by inversion Hstep.
  - unfold sampleMetrics in Hstep.
    apply updateUI_keeps in Hstep as (Hm & _).
    rewrite Hm, sample_memory, Hno. done.
Qed.

Lemma run_memory acts : forall p p',
  Forall no_heap acts -> run acts p = Some p' ->
  memory (metrics p') = memory (metrics p).
Proof.
  induction acts as [|a acts IH]; intros p p' Hall Hrun; simpl in Hrun.
  - by inversion Hrun.
  - inversion Hall as [|? ? Ha Hacts]; subst.
    destruct (step a p) as [p1|] eqn:Hstep; [|done]. simpl in Hrun.
    rewrite (IH _ _ Hacts Hrun). by eapply step_memory.
Qed.

(** C8, as the code has it: the heap figure is the number 0 from
    construction on, never null; a sample taken on a host without heap
    introspection leaves the figure as it was, so a profiler that only
    ever ran on such a host reports 0. *)
Theorem C8_heap_unavailable_keeps_figure :
  (forall t0, memory (metrics (constructor t0)) = Some 0)
  /\ (forall host p p',
        usedJSHeapSize host = None -> sampleMetrics host p = Some p' ->
        memory (metrics p') = memory (metrics p))
  /\ (forall b t0 acts p',
        Forall no_heap acts -> run acts (init b (constructor t0)) = Some p' ->
        memory (metrics p') = Some 0
        /\ exists report,
             getMetrics p' = Some report
             /\ memory (sample_of report) = Some 0)
  /\ (forall p report,
        getMetrics p = Some report -> sample_of report = metrics p).
Proof.
  split; [done|]. split; [|split].
  - intros host p p' Hno Hs. by apply (step_memory (Tick host)).
  - intros b t0 acts p' Hall Hrun.
    pose proof (run_memory _ _ _ Hall Hrun) as Hm.
    split; [by rewrite Hm|].
    pose proof (run_thresholds _ _ _ Hrun) as Ht.
    unfold getMetrics, getHealth. rewrite Ht. simpl.
    eexists. split; [reflexivity|]. simpl. by rewrite Hm.
  - intros p report. unfold getMetrics. intros H.
    by simplify_option_eq.
Qed.

Lemma C8_heap_unavailable_keeps_figure_witness :
  Forall no_heap two_ticks_without_heap
  /\ run two_ticks_without_heap (init true (constructor 0))
     = Some after_two_ticks
  /\ memory (metrics after_two_ticks) = Some 0.
Proof.
  assert (Hall : Forall no_heap two_ticks_without_heap)
    by (repeat constructor).
  assert (Hrun : run two_ticks_without_heap (init true (constructor 0))
                 = Some after_two_ticks) by (vm_compute; reflexivity).
  split; [exact Hall|]. split; [exact Hrun|].
  exact (proj1 (proj1 (proj2 (proj2 C8_heap_unavailable_keeps_figure))
                  true 0%Q two_ticks_without_heap after_two_ticks
                  Hall Hrun)).
Defined.

End Sampler.

(** ** The population engine *)

Section Population.
Import Eff SceneController.

Lemma omap_filter_ref id (l : list Object3D) :
  omap mesh_ref (filter (fun o => is_ref id o = false) l)
  = filter (fun j => j <> id) (omap mesh_ref l).
Proof.
  induction l as [|o l IH]; [done|].
  rewrite filter_cons.
  destruct (decide (is_ref id o = false)) as [Hd|Hd];
    destruct o as [| | | |j]; simpl in *; try done.
  - apply bool_decide_eq_false_1 in Hd.
    rewrite filter_cons, decide_True by done. f_equal. exact IH.
  - apply not_false_is_true, bool_decide_eq_true_1 in Hd.
    rewrite filter_cons, decide_False by tauto. exact IH.
Qed.

Lemma scene_batches_remove id c :
  scene_batches (scene_remove id c)
  = filter (fun j => j <> id) (scene_batches c).
Proof. apply omap_filter_ref. Qed.

Lemma scene_batches_add id c :
  scene_batches (scene_add id c)
  = filter (fun j => j <> id) (scene_batches c) ++ [id].
Proof.
  unfold scene_batches, scene_add, set_scene. simpl.
  rewrite omap_app. simpl. f_equal. apply omap_filter_ref.
Qed.

Lemma cleanup_batches c :
  known_batches c -> scene_batches (cleanup c) = [].
Proof.
  intros Hk. unfold cleanup.
  destruct (treeInstancedMesh c) as [[t f]|] eqn:Hm.
  - change (scene_batches (scene_remove f (scene_remove t c)) = []).
    rewrite !scene_batches_remove.
    apply elem_of_nil_inv. intros id Hin.
    apply list_elem_of_filter in Hin as [Hf Hin].
    apply list_elem_of_filter in Hin as [Ht Hin].
    destruct (Hk id Hin) as (t' & f' & Heq & Hor).
    rewrite Hm in Heq. inversion Heq; subst. tauto.
  - apply elem_of_nil_inv. intros id Hin.
    destruct (Hk id Hin) as (t' & f' & Heq & _). by rewrite Hm in Heq.
Qed.

Lemma cleanup_fields c :
  currentTreeCount (cleanup c) = currentTreeCount c
  /\ treeInstancedMesh (cleanup c) = treeInstancedMesh c
  /\ next_id (cleanup c) = next_id c
  /\ random_calls (cleanup c) = random_calls c.
Proof.
  unfold cleanup.
  destruct (treeInstancedMesh c) as [[t f]|] eqn:E; simpl; rewrite ?E; done.
Qed.

Lemma set_slot_shape i mat m : same_shape m (set_slot i mat m).
Proof. unfold same_shape, set_slot; simpl. by rewrite length_insert. Qed.

Lemma set_slot_filled P i mat m :
  (0 < pos_y mat)%Q -> filled P m ->
  filled (fun j => P j \/ j = i) (set_slot i mat m).
Proof.
  intros Hpos Hf j Hj Hlt. unfold set_slot in *; simpl in *.
  rewrite length_insert in Hlt.
  destruct (decide (j = i)) as [->|Hne].
  - exists mat. by rewrite list_lookup_insert_eq.
  - rewrite list_lookup_insert_ne by done. apply Hf; [tauto|done].
Qed.

Lemma same_shape_trans m1 m2 m3 :
  same_shape m1 m2 -> same_shape m2 m3 -> same_shape m1 m3.
Proof. unfold same_shape. intuition congruence. Qed.

Lemma place_one_spec host t f i c mt mf :
  t <> f -> (forall k, (0 <= random host k)%Q) ->
  store c !! t = Some mt -> store c !! f = Some mf ->
  let c' := place_one host t f i c in
  (exists mat_t mat_f,
      (0 < pos_y mat_t)%Q /\ (0 < pos_y mat_f)%Q
      /\ store c' !! t = Some (set_slot i mat_t mt)
      /\ store c' !! f = Some (set_slot i mat_f mf))
  /\ scene c' = scene c
  /\ treeInstancedMesh c' = treeInstancedMesh c
  /\ currentTreeCount c' = currentTreeCount c
  /\ next_id c' = next_id c.
Proof.
  intros Hne Hrand Ht Hf c'. split; [|done].
  eexists _, _. unfold c', place_one, setMatrixAt, set_store. simpl.
  split; [|split; [|split]].
  3: { rewrite lookup_alter_ne by done. rewrite lookup_alter_eq, Ht.
       reflexivity. }
  3: { rewrite lookup_alter_eq. rewrite lookup_alter_ne by done.
       rewrite Hf. reflexivity. }
  - simpl. reflexivity.
  - simpl. pose proof (Hrand (random_calls c + 2)%nat). lra.
Qed.

Lemma place_fold host t f :
  t <> f -> (forall k, (0 <= random host k)%Q) ->
  forall (idxs : list nat) c mt mf (P : nat -> Prop),
    store c !! t = Some mt -> store c !! f = Some mf ->
    filled P mt -> filled P mf ->
    let c' := fold_left (fun acc i => place_one host t f i acc) idxs c in
    (exists mt' mf',
        store c' !! t = Some mt' /\ store c' !! f = Some mf'
        /\ same_shape mt mt' /\ same_shape mf mf'
        /\ filled (fun j => P j \/ j ∈ idxs) mt'
        /\ filled (fun j => P j \/ j ∈ idxs) mf')
    /\ scene c' = scene c
    /\ treeInstancedMesh c' = treeInstancedMesh c
    /\ currentTreeCount c' = currentTreeCount c
    /\ next_id c' = next_id c.
Proof.
  intros Hne Hrand idxs.
  induction idxs as [|i idxs IH]; intros c mt mf P Ht Hf Hpt Hpf c'.
  - split; [|done]. exists mt, mf. unfold c'; simpl.
    repeat split; try done.
    + intros j [Hj|Hj] Hlt; [by apply Hpt|by apply elem_of_nil in Hj].
    + intros j [Hj|Hj] Hlt; [by apply Hpf|by apply elem_of_nil in Hj].
  - unfold c'. simpl.
    destruct (place_one_spec host t f i c mt mf Hne Hrand Ht Hf)
      as ((mat_t & mat_f & Hp1 & Hp2 & Ht1 & Hf1) & Hs & Hm & Hc & Hn).
    destruct (IH _ _ _ (fun j => P j \/ j = i) Ht1 Hf1
                (set_slot_filled P i mat_t mt Hp1 Hpt)
                (set_slot_filled P i mat_f mf Hp2 Hpf))
      as ((mt' & mf' & Ht' & Hf' & Hst & Hsf & Hft & Hff)
          & Hs' & Hm' & Hc' & Hn').
    split.
    + exists mt', mf'. split; [done|]. split; [done|].
      split; [eapply same_shape_trans; [apply set_slot_shape|done]|].
      split; [eapply same_shape_trans; [apply set_slot_shape|done]|].
      split.
      * intros j Hj Hlt. apply Hft; [|done].
        rewrite elem_of_cons in Hj. tauto.
      * intros j Hj Hlt. apply Hff; [|done].
        rewrite elem_of_cons in Hj. tauto.
    + rewrite Hs', Hm', Hc', Hn'. done.
Qed.

Lemma spawn_build_spec host n c :
  0 <= n -> can_allocate host n = true -> known_batches c ->
  (forall k, (0 <= random host k)%Q) ->
  exists c',
    spawn_build host n c = (Returned (next_id c, S (next_id c)), c')
    /\ currentTreeCount c' = currentTreeCount c
    /\ treeInstancedMesh c' = treeInstancedMesh c
    /\ scene_batches c' = [next_id c; S (next_id c)]
    /\ batch_ready c' (next_id c) Trunk n
    /\ batch_ready c' (S (next_id c)) Foliage n.
Proof.
  intros Hn Hcan Hk Hrand.
  destruct (cleanup_fields c) as (Hc1 & Hm1 & Hn1 & _).
  pose proof (cleanup_batches c Hk) as Hb1.
  set (t := next_id c). set (f := S t).
  assert (Htf : t <> f) by (unfold f; lia).
  set (fresh k := mkMesh k n (replicate (Z.to_nat n) None) false false false).
  set (c3 := mkController
               (<[f := fresh Foliage]> (<[t := fresh Trunk]> (store (cleanup c))))
               (S f) (scene (cleanup c)) (treeInstancedMesh (cleanup c))
               (currentTreeCount (cleanup c)) (random_calls (cleanup c))).
  assert (Ht3 : store c3 !! t = Some (fresh Trunk)).
  { unfold c3; simpl. rewrite lookup_insert_ne by done.
    by rewrite lookup_insert_eq. }
  assert (Hf3 : store c3 !! f = Some (fresh Foliage)).
  { unfold c3; simpl. by rewrite lookup_insert_eq. }
  destruct (place_fold host t f Htf Hrand (seq 0 (Z.to_nat n)) c3
              (fresh Trunk) (fresh Foliage) (fun _ => False) Ht3 Hf3)
    as ((mt & mf & Ht4 & Hf4 & Hst & Hsf & Hft & Hff) & Hs4 & Hm4 & Hc4 & _).
  { intros i []. }
  { intros i []. }
  fold (place_all host t f n c3) in Ht4, Hf4, Hs4, Hm4, Hc4.
  set (c4 := place_all host t f n c3) in *.
  set (c8 := scene_add f (scene_add t (set_needsUpdate f (set_needsUpdate t c4)))).
  exists c8. split.
  { unfold spawn_build, mbind, M_bind, bind, modify, new_InstancedMesh.
    rewrite Hcan. simpl. rewrite Hn1. reflexivity. }
  split; [unfold c8; simpl; by rewrite Hc4, <- Hc1|].
  split; [unfold c8; simpl; by rewrite Hm4, <- Hm1|].
  split.
  { unfold c8. rewrite !scene_batches_add.
    assert (scene_batches (set_needsUpdate f (set_needsUpdate t c4)) = []) as ->.
    { unfold scene_batches in *. simpl. by rewrite Hs4. }
    rewrite filter_nil. simpl. rewrite filter_cons, decide_True by done.
    by rewrite filter_nil. }
  assert (Hready : forall id k m,
            store c4 !! id = Some m -> same_shape (fresh k) m ->
            filled (fun j => False \/ j ∈ seq 0 (Z.to_nat n)) m ->
            (id = t \/ id = f) ->
            batch_ready c8 id k n).
  { intros id k m Hlk (Hkind & Hcount & _ & Hg & Hd & Hlen) Hfill Hid.
    simpl in Hkind, Hcount, Hg, Hd, Hlen. rewrite length_replicate in Hlen.
    exists (mkMesh (kind m) (count m) (instanceMatrix m) true
              (geometry_disposed m) (material_disposed m)).
    split.
    { unfold c8, scene_add, set_scene, set_needsUpdate, set_store. simpl.
      destruct Hid as [-> | ->].
      - rewrite lookup_alter_ne by done. by rewrite lookup_alter_eq, Hlk.
      - rewrite lookup_alter_eq. rewrite lookup_alter_ne by done.
        by rewrite Hlk. }
    simpl. repeat split; try done.
    intros i Hi. apply Hfill; [|lia].
    right. apply elem_of_seq. lia. }
  split; [by apply (Hready t Trunk mt); auto
         |by apply (Hready f Foliage mf); auto].
Qed.

(** C5: when spawnTrees(n) completes for n >= 0 (the two buffers could be
    allocated), starting from a controller whose scene holds no batch it
    does not know of: the batches are built first, a trunk and a foliage
    batch of n instances each with the matrix of every index 0..n-1 set
    (placed above the ground plane, never at the origin) and both added to
    the scene while the count is still the old one; only then are they
    recorded and the count set to n.  Afterwards the scene holds exactly
    these two batches, so the population costs two draw calls whatever n
    is. *)
Theorem C5_spawnTrees_population host n c :
  0 <= n -> can_allocate host n = true -> known_batches c ->
  (forall k, (0 <= random host k)%Q) ->
  exists trunk foliage built c',
    spawn_build host n c = (Returned (trunk, foliage), built)
    /\ batch_ready built trunk Trunk n
    /\ batch_ready built foliage Foliage n
    /\ currentTreeCount built = currentTreeCount c
    /\ spawnTrees host n c = (Returned tt, c')
    /\ currentTreeCount c' = n
    /\ treeInstancedMesh c' = Some (trunk, foliage)
    /\ scene_batches c' = [trunk; foliage]
    /\ population_draw_calls c' = 2%nat
    /\ batch_ready c' trunk Trunk n
    /\ batch_ready c' foliage Foliage n
    /\ known_batches c'.
Proof.
  intros Hn Hcan Hk Hrand.
  destruct (spawn_build_spec host n c Hn Hcan Hk Hrand)
    as (built & Hbuild & Hcount & Hmesh & Hbatches & Hrt & Hrf).
  set (t := next_id c) in *. set (f := S t) in *.
  set (c' := mkController (store built) (next_id built) (scene built)
               (Some (t, f)) n (random_calls built)).
  exists t, f, built, c'.
  split; [done|]. split; [done|]. split; [done|]. split; [done|].
  split.
  { unfold spawnTrees, mbind, M_bind, bind. rewrite Hbuild. reflexivity. }
  split; [done|]. split; [done|]. split; [exact Hbatches|].
  split; [unfold population_draw_calls;
          change (scene_batches c') with (scene_batches built);
          by rewrite Hbatches|].
  split; [exact Hrt|]. split; [exact Hrf|].
  intros id Hin. change (scene_batches c') with (scene_batches built) in Hin.
  rewrite Hbatches in Hin. exists t, f. split; [done|].
  rewrite !elem_of_cons in Hin.
  destruct Hin as [->|[->|Hin]]; [tauto|tauto|by apply elem_of_nil in Hin].
Qed.

Lemma host_eighths_nonneg k : (0 <= random host_eighths k)%Q.
Proof. unfold Qle; simpl. lia. Qed.

Lemma initial_scene_batches : scene_batches initial_scene = [0; 1]%nat.
Proof. vm_compute. reflexivity. Qed.

Lemma initial_scene_known : known_batches initial_scene.
Proof.
  intros id Hin. exists 0%nat, 1%nat. split; [vm_compute; reflexivity|].
  rewrite initial_scene_batches in Hin.
  apply elem_of_cons in Hin as [->|Hin]; [by left|].
  apply elem_of_cons in Hin as [->|Hin]; [by right|].
  by apply elem_of_nil in Hin.
Qed.

Lemma C5_spawnTrees_population_witness :
  (0 <= 500 /\ can_allocate host_eighths 500 = true
   /\ known_batches initial_scene
   /\ (forall k, (0 <= random host_eighths k)%Q))
  /\ exists trunk foliage built c',
       spawn_build host_eighths 500 initial_scene
       = (Returned (trunk, foliage), built)
       /\ batch_ready built trunk Trunk 500
       /\ batch_ready built foliage Foliage 500
       /\ currentTreeCount built = currentTreeCount initial_scene
       /\ spawnTrees host_eighths 500 initial_scene = (Returned tt, c')
       /\ currentTreeCount c' = 500
       /\ treeInstancedMesh c' = Some (trunk, foliage)
       /\ scene_batches c' = [trunk; foliage]
       /\ population_draw_calls c' = 2%nat
       /\ batch_ready c' trunk Trunk 500
       /\ batch_ready c' foliage Foliage 500
       /\ known_batches c'.
Proof.
  assert (H1 : 0 <= 500) by lia.
  assert (H2 : can_allocate host_eighths 500 = true) by reflexivity.
  split; [split; [exact H1|split; [exact H2|split;
            [exact initial_scene_known|exact host_eighths_nonneg]]]|].
  exact (C5_spawnTrees_population host_eighths 500 initial_scene H1 H2
           initial_scene_known host_eighths_nonneg).
Defined.

Lemma initial_scene_live id :
  (fun m => (geometry_disposed m, material_disposed m))
    <$> (store initial_scene !! id) = Some (false, false) ->
  id ∈ scene_batches initial_scene ->
  renderable initial_scene id.
Proof.
  intros Hid Hin. split; [done|].
  destruct (store initial_scene !! id) as [m|]; [|done].
  exists m. simpl in Hid. by inversion Hid.
Qed.

(** C6, as stated, fails: after init, spawnTrees(-1) throws; the 25 trees
    that were in the scene
    are gone from it and their geometry and material are disposed. *)
Lemma C6_failed_allocation_drops_population :
  renderable initial_scene 0 /\ renderable initial_scene 1
  /\ treeInstancedMesh initial_scene = Some (0, 1)%nat
  /\ currentTreeCount initial_scene = 25
  /\ fst after_negative_spawn
     = Thrown "RangeError: Invalid typed array length"
  /\ ~ renderable (snd after_negative_spawn) 0
  /\ ~ renderable (snd after_negative_spawn) 1
  /\ scene_batches (snd after_negative_spawn) = []
  /\ (snd after_negative_spawn) <> initial_scene.
Proof.
  assert (Hb' : scene_batches (snd after_negative_spawn) = [])
    by (vm_compute; reflexivity).
  split.
  { apply initial_scene_live; [vm_compute; reflexivity|].
    rewrite initial_scene_batches. apply elem_of_cons. by left. }
  split.
  { apply initial_scene_live; [vm_compute; reflexivity|].
    rewrite initial_scene_batches. apply elem_of_cons. right.
    apply elem_of_cons. by left. }
  split; [vm_compute; reflexivity|].
  split; [vm_compute; reflexivity|].
  split; [vm_compute; reflexivity|].
  split; [intros [Hin _]; rewrite Hb' in Hin; by apply elem_of_nil in Hin|].
  split; [intros [Hin _]; rewrite Hb' in Hin; by apply elem_of_nil in Hin|].
  split; [exact Hb'|].
  intros Heq. apply (f_equal scene_batches) in Heq.
  rewrite initial_scene_batches in Heq. rewrite Hb' in Heq. discriminate.
Qed.

Lemma cleanup_disposes c t f id :
  treeInstancedMesh c = Some (t, f) -> id = t \/ id = f ->
  (id ∉ scene_batches (cleanup c))
  /\ forall m, store (cleanup c) !! id = Some m ->
       geometry_disposed m = true /\ material_disposed m = true.
Proof.
  intros Hm Hid. unfold cleanup. rewrite Hm. split.
  - change (id ∉ scene_batches (scene_remove f (scene_remove t c))).
    rewrite !scene_batches_remove. intros Hin.
    apply list_elem_of_filter in Hin as [Hf Hin].
    apply list_elem_of_filter in Hin as [Ht Hin]. tauto.
  - intros m. unfold set_store, scene_remove, set_scene. simpl.
    destruct (decide (t = f)) as [<-|Hne].
    + assert (id = t) as -> by tauto.
      rewrite !lookup_alter_eq. destruct (store c !! t); simpl; [|done].
      intros [= <-]. done.
    + destruct Hid as [-> | ->].
      * rewrite lookup_alter_ne by done. rewrite lookup_alter_eq.
        destruct (store c !! t); simpl; [|done]. intros [= <-]. done.
      * rewrite lookup_alter_eq. rewrite lookup_alter_ne by done.
        destruct (store c !! f); simpl; [|done]. intros [= <-]. done.
Qed.

(** C6, as the code has it: the previous batches are released before the
    new ones are allocated.  When the allocation fails, as it does for
    every negative count, spawnTrees throws to its caller; the count and
    the [treeInstancedMesh] reference are left as they were, but the
    batches that reference names have already been taken out of the scene
    and their geometry and material disposed. *)
Theorem C6_failed_allocation_after_release :
  (forall host n, n < 0 -> can_allocate host n = false)
  /\ (forall host n c,
        can_allocate host n = false ->
        spawnTrees host n c
        = (Thrown "RangeError: Invalid typed array length", cleanup c)
        /\ currentTreeCount (cleanup c) = currentTreeCount c
        /\ treeInstancedMesh (cleanup c) = treeInstancedMesh c
        /\ forall t f id,
             treeInstancedMesh c = Some (t, f) -> id = t \/ id = f ->
             (id ∉ scene_batches (cleanup c))
             /\ forall m, store (cleanup c) !! id = Some m ->
                  geometry_disposed m = true /\ material_disposed m = true).
Proof.
  split.
  - intros host n Hn. unfold can_allocate.
    apply andb_false_intro1. apply Z.leb_gt. lia.
  - intros host n c Hcan.
    destruct (cleanup_fields c) as (Hc1 & Hm1 & _).
    split; [|split; [done|split; [done|]]].
    + unfold spawnTrees, spawn_build, mbind, M_bind, bind, modify,
        new_InstancedMesh. simpl. by rewrite Hcan.
    + intros t f id. apply cleanup_disposes.
Qed.

Lemma C6_failed_allocation_after_release_witness :
  can_allocate host_eighths (-1) = false
  /\ spawnTrees host_eighths (-1) initial_scene
     = (Thrown "RangeError: Invalid typed array length", cleanup initial_scene)
  /\ currentTreeCount (cleanup initial_scene) = currentTreeCount initial_scene.
Proof.
  assert (H : can_allocate host_eighths (-1) = false) by reflexivity.
  destruct (proj2 C6_failed_allocation_after_release host_eighths (-1)
              initial_scene H) as (Hs & Hc & _).
  split; [exact H|]. split; [exact Hs|exact Hc].
Defined.

End Population.

(** ** The scenario: validation and completion *)

Section Completion.
Import JS Eff InfiniteForest.

Lemma markCheckpoint_keeps env cp s :
  let s' := _markCheckpoint env cp s in
  state s' = state s /\ events s' = events s
  /\ onComplete_property s' = onComplete_property s
  /\ completed (session s') = completed (session s)
  /\ s_fpsBefore (session s') = s_fpsBefore (session s)
  /\ story s' = story s.
Proof.
  unfold _markCheckpoint.
  destruct (checkpoints (session s) !! cp); simpl; done.
Qed.

Lemma passes_true env s :
  passes env s ->
  (effective_targetFPS s <=? reading_fps env)
  && ((effective_min s <=? reading_treeCount env)
      && (reading_treeCount env <=? effective_max s)) = true.
Proof.
  intros (H1 & H2 & H3).
  rewrite !andb_true_iff, !Z.leb_le. done.
Qed.

Lemma passes_false env s :
  ~ passes env s ->
  (effective_targetFPS s <=? reading_fps env)
  && ((effective_min s <=? reading_treeCount env)
      && (reading_treeCount env <=? effective_max s)) = false.
Proof.
  intros Hn. apply not_true_is_false. intros Ht.
  rewrite !andb_true_iff, !Z.leb_le in Ht. apply Hn. unfold passes. tauto.
Qed.

(** The branch validate() takes, and what each branch does. *)
Lemma validate_cases env s :
  let r := validate env s in
  (~ passes env s ->
     exists v, fst r = Returned v /\ success v = false
       /\ state (snd r) = state s
       /\ completed (session (snd r)) = completed (session s)
       /\ notifications (snd r) = notifications s
       /\ progress_records (snd r) = progress_records s)
  /\ (passes env s ->
        state (snd r) = state s
        /\ match onComplete_property s with
           | None =>
               fst r = Thrown "TypeError: this.onComplete is not a function"
               /\ events (snd r) = events s
           | Some f =>
               events (snd r) = events s ++ [OnCompleteCalled None]
               /\ match f None with
                  | Normal => exists v, fst r = Returned v /\ success v = true
                  | Throws =>
                      fst r
                      = Thrown "TypeError: thrown by the onComplete callback"
                  end
           end).
Proof.
  intros r. split.
  - intros Hn. apply passes_false in Hn.
    unfold r, validate, mbind, M_bind, bind, get, modify, mret, M_ret, ret.
    simpl. unfold reading_fps, reading_treeCount in Hn.
    change (effective_targetFPS (mkForest _ _ _ _ _ _ _ _ _ _ _ _ _ _ _))
      with (effective_targetFPS s).
    rewrite Hn. simpl. eexists. split; [reflexivity|]. simpl.
    split; [done|].
    unfold _showFeedback, _showHintButton, editor_log, notifications,
      progress_records, emit. simpl.
    repeat split;
      repeat (case_match; simpl; rewrite ?List.filter_app; simpl;
              rewrite ?app_nil_r; try done).
  - intros Hp. apply passes_true in Hp.
    unfold r, validate, mbind, M_bind, bind, get, modify, mret, M_ret, ret,
      call_onComplete.
    simpl. unfold reading_fps, reading_treeCount in Hp. rewrite Hp. simpl.
    set (s1 := mkForest _ _ _ _ _ _ _ _ _ _ _ _ _ _ _).
    set (s2 := _markCheckpoint env "fps_improved" s1).
    set (s3 := _markCheckpoint env "tree_count_valid" s2).
    destruct (markCheckpoint_keeps env "fps_improved" s1)
      as (Hst2 & Hev2 & Hcb2 & _).
    destruct (markCheckpoint_keeps env "tree_count_valid" s2)
      as (Hst3 & Hev3 & Hcb3 & _).
    fold s2 in Hst2, Hev2, Hcb2, Hst3, Hev3, Hcb3.
    fold s3 in Hst3, Hev3, Hcb3.
    assert (Hcb : onComplete_property s3 = onComplete_property s)
      by (rewrite Hcb3, Hcb2; done).
    assert (Hev : events s3 = events s) by (rewrite Hev3, Hev2; done).
    assert (Hst : state s3 = state s) by (rewrite Hst3, Hst2; done).
    rewrite Hcb. destruct (onComplete_property s) as [f|]; simpl.
    + destruct (f None); simpl; rewrite Hev, Hst; eauto.
    + rewrite Hev, Hst. done.
Qed.

Lemma validate_keeps_config env s :
  validation (snd (validate env s)) = validation s
  /\ onComplete_property (snd (validate env s)) = onComplete_property s.
Proof.
  unfold validate, mbind, M_bind, bind, get, modify, mret, M_ret, ret,
    call_onComplete, _showFeedback, _showHintButton, editor_log,
    _markCheckpoint.
  simpl.
  repeat (case_match; simpl in *; simplify_eq; try done).
Qed.

Lemma validate_keeps_passes env s :
  passes env s -> passes env (snd (validate env s)).
Proof.
  destruct (validate_keeps_config env s) as [Hv _].
  unfold passes, effective_targetFPS, effective_min, effective_max.
  by rewrite Hv.
Qed.

(** C1, as the code has it: whenever both conjuncts hold (the sampled fps
    is at least the target in force and the tree count lies in the range
    in force), validate() on a scenario object as its constructor leaves
    it, or as ScenarioManager.loadScenario wires it, does not return a
    verdict.  The success branch calls [this.onComplete()], which reads
    the own property the constructor of Scenario set to null (a
    TypeError) or the manager's callback, called without its event (a
    TypeError when it reads [event.success]); the state is left as it
    was. *)
Theorem C1_validate_passing_readings_throw env s :
  passes env s ->
  onComplete_property s = None
  \/ onComplete_property s = Some ScenarioManager_onComplete ->
  (exists e, fst (validate env s) = Thrown e)
  /\ state (snd (validate env s)) = state s.
Proof.
  intros Hp Hcb.
  destruct (proj2 (validate_cases env s) Hp) as [Hst Hcase].
  split; [|exact Hst].
  destruct Hcb as [Hcb|Hcb]; rewrite Hcb in Hcase.
  - destruct Hcase as [Hr _]. eauto.
  - destruct Hcase as [_ Hr]. simpl in Hr. eauto.
Qed.

Lemma fixed_readings_pass s :
  validation s = Some _defaults -> passes fixed_readings s.
Proof.
  intros Hv. unfold passes, effective_targetFPS, effective_min,
    effective_max. rewrite Hv. vm_compute. intuition discriminate.
Qed.

Lemma C1_validate_passing_readings_throw_witness :
  passes fixed_readings loaded_scenario
  /\ onComplete_property loaded_scenario = Some ScenarioManager_onComplete
  /\ fst (validate fixed_readings loaded_scenario)
     = Thrown "TypeError: thrown by the onComplete callback"
  /\ state (snd (validate fixed_readings loaded_scenario)) = Idle.
Proof.
  assert (Hp : passes fixed_readings loaded_scenario)
    by (by apply fixed_readings_pass).
  destruct (C1_validate_passing_readings_throw fixed_readings
              loaded_scenario Hp (or_intror eq_refl)) as [_ Hst].
  split; [exact Hp|]. split; [reflexivity|]. split; [reflexivity|exact Hst].
Defined.

(** What does hold of C1: a failing conjunct gives a returned verdict
    with success false and no completion. *)
Lemma validate_failing_conjunct env s :
  ~ passes env s ->
  exists v, fst (validate env s) = Returned v /\ success v = false
    /\ state (snd (validate env s)) = state s
    /\ notifications (snd (validate env s)) = notifications s.
Proof.
  intros Hn.
  destruct (proj1 (validate_cases env s) Hn) as (v & ? & ? & ? & ? & ? & ?).
  eauto.
Qed.

(** A passing validate() on a scenario whose [onComplete] property is
    null, or holds a function that throws when called without an event:
    the call throws, and nothing of a completion has happened. *)
Lemma validate_pass_records_nothing env s :
  passes env s ->
  (forall f, onComplete_property s = Some f -> f None = Throws) ->
  (exists e, fst (validate env s) = Thrown e)
  /\ state (snd (validate env s)) = state s
  /\ completed (session (snd (validate env s))) = completed (session s)
  /\ progress_records (snd (validate env s)) = progress_records s.
Proof.
  intros Hp Hcb. apply passes_true in Hp.
  unfold validate, mbind, M_bind, bind, get, modify, mret, M_ret, ret,
    call_onComplete.
  simpl. unfold reading_fps, reading_treeCount in Hp. rewrite Hp. simpl.
  set (s1 := mkForest _ _ _ _ _ _ _ _ _ _ _ _ _ _ _).
  set (s2 := _markCheckpoint env "fps_improved" s1).
  set (s3 := _markCheckpoint env "tree_count_valid" s2).
  destruct (markCheckpoint_keeps env "fps_improved" s1)
    as (Hst2 & Hev2 & Hcb2 & Hco2 & _).
  destruct (markCheckpoint_keeps env "tree_count_valid" s2)
    as (Hst3 & Hev3 & Hcb3 & Hco3 & _).
  fold s2 in Hst2, Hev2, Hcb2, Hco2, Hst3, Hev3, Hcb3, Hco3.
  fold s3 in Hst3, Hev3, Hcb3, Hco3.
  assert (Hcb' : onComplete_property s3 = onComplete_property s)
    by (rewrite Hcb3, Hcb2; done).
  assert (Hev : events s3 = events s) by (rewrite Hev3, Hev2; done).
  assert (Hst : state s3 = state s) by (rewrite Hst3, Hst2; done).
  assert (Hco : completed (session s3) = completed (session s))
    by (rewrite Hco3, Hco2; done).
  rewrite Hcb'. destruct (onComplete_property s) as [f|] eqn:Hf; simpl.
  - rewrite (Hcb f eq_refl). simpl. rewrite Hst, Hco.
    split; [eauto|]. split; [done|]. split; [done|].
    unfold progress_records. simpl.
    rewrite Hev, List.filter_app, length_app. simpl. lia.
  - rewrite Hst, Hco. unfold progress_records. rewrite Hev. eauto.
Qed.

(** C9, on the code: the completion record the claim counts is never
    written.  On a scenario as its constructor leaves it, or as
    ScenarioManager.loadScenario wires it, every validate() call on
    passing readings throws at [this.onComplete()] (the defect of C1)
    before the method of that name could mark the session completed,
    complete the scenario and call ProgressTracker.markComplete.  After
    any number of such calls no completion record has been written, the
    session is not marked completed, the state is as it was, and the
    next call throws again. *)
Theorem C9_passing_validate_never_records env s n :
  passes env s ->
  onComplete_property s = None
  \/ onComplete_property s = Some ScenarioManager_onComplete ->
  let s' := Nat.iter n (fun s0 => snd (validate env s0)) s in
  progress_records s' = progress_records s
  /\ completed (session s') = completed (session s)
  /\ state s' = state s
  /\ exists e, fst (validate env s') = Thrown e.
Proof.
  intros Hp Hcb s'.
  assert (Hthrows : forall s0,
            onComplete_property s0 = onComplete_property s ->
            forall f, onComplete_property s0 = Some f -> f None = Throws).
  { intros s0 E f Hf. rewrite E in Hf.
    destruct Hcb as [Hcb|Hcb]; rewrite Hcb in Hf; [done|].
    by injection Hf as <-. }
  assert (H : passes env s'
              /\ onComplete_property s' = onComplete_property s
              /\ progress_records s' = progress_records s
              /\ completed (session s') = completed (session s)
              /\ state s' = state s).
  { unfold s'. clear s'.
    induction n as [|n (IHp & IHcb & IHr & IHc & IHs)]; simpl; [done|].
    destruct (validate_pass_records_nothing env _ IHp (Hthrows _ IHcb))
      as (_ & Hs & Hc & Hr).
    split; [by apply validate_keeps_passes|].
    split; [by rewrite (proj2 (validate_keeps_config env _))|].
    split; [by rewrite Hr|]. split; [by rewrite Hc|]. by rewrite Hs. }
  destruct H as (Hp' & Hcb' & Hr & Hc & Hs).
  split; [exact Hr|]. split; [exact Hc|]. split; [exact Hs|].
  exact (proj1 (validate_pass_records_nothing env s' Hp' (Hthrows _ Hcb'))).
Qed.

Lemma C9_passing_validate_never_records_witness :
  (passes fixed_readings loaded_scenario
   /\ onComplete_property loaded_scenario = Some ScenarioManager_onComplete
   /\ progress_user fixed_readings = Some "student-1"%string)
  /\ progress_records
       (Nat.iter 2 (fun s0 => snd (validate fixed_readings s0))
          loaded_scenario) = 0%nat
  /\ completed
       (session
          (Nat.iter 2 (fun s0 => snd (validate fixed_readings s0))
             loaded_scenario)) = false
  /\ state
       (Nat.iter 2 (fun s0 => snd (validate fixed_readings s0))
          loaded_scenario) = Idle.
Proof.
  assert (Hp : passes fixed_readings loaded_scenario)
    by (by apply fixed_readings_pass).
  destruct (C9_passing_validate_never_records fixed_readings
              loaded_scenario 2 Hp (or_intror eq_refl))
    as (Hr & Hc & Hs & _).
  split; [split; [exact Hp|split; reflexivity]|].
  split; [exact Hr|]. split; [exact Hc|exact Hs].
Defined.

(** The method InfiniteForest.prototype.onComplete, which validate()
    never reaches: run with a callback that accepts an event and a
    logged-in user, it completes the scenario, notifies the callback and
    records the completion with ProgressTracker. *)
Lemma onComplete_method_notifies env s f userId :
  onComplete_property s = Some f -> (forall ev, f (Some ev) = Normal) ->
  progress_user env = Some userId ->
  exists s',
    InfiniteForest_onComplete env s = (Returned tt, s')
    /\ state s' = Complete
    /\ notifications s' = S (notifications s)
    /\ progress_records s' = S (progress_records s).
Proof.
  intros Hcb Hf Hu.
  unfold InfiniteForest_onComplete, mbind, M_bind, bind, get, modify,
    mret, M_ret, ret.
  simpl.
  match goal with
  | |- context [_markCheckpoint env "scenario_complete" ?s1] =>
      destruct (markCheckpoint_keeps env "scenario_complete" s1)
        as (_ & Hev & Hcb2 & _);
      set (s2 := _markCheckpoint env "scenario_complete" s1) in *
  end.
  simpl in Hev, Hcb2. rewrite Hcb in Hcb2. clearbody s2.
  unfold complete, call_onComplete, mbind, M_bind, bind, get, modify,
    mret, M_ret, ret, _saveProgress, _emitStateChange, editor_log, emit,
    notifications, progress_records.
  simpl. rewrite Hu.
  destruct (successOverlay s2), (codeEditor env); simpl;
    rewrite Hcb2; simpl; rewrite Hf; simpl;
    destruct (onStateChange_property s2); simpl;
    (eexists; split; [reflexivity|]); simpl; rewrite Hev;
    rewrite ?List.filter_app, ?length_app; simpl;
    rewrite ?List.filter_app, ?length_app; simpl;
    repeat split; lia.
Qed.

(** Scenario.checkCompletion(), the second completion path, looks at the
    frame rate only and completes again on every call that passes. *)
Lemma checkCompletion_completes env s f target :
  onComplete_property s = Some f -> (forall ev, f (Some ev) = Normal) ->
  validation s ≫= targetFPS = Some target ->
  target <= or_default (fpsAfter (metrics s))
              (or_default (profiler_fps env) 0) ->
  exists s',
    checkCompletion env s = (Returned true, s')
    /\ state s' = Complete
    /\ notifications s' = S (notifications s).
Proof.
  intros Hcb Hf Ht Hfps. apply Z.leb_le in Hfps.
  unfold checkCompletion, complete, call_onComplete, mbind, M_bind,
    bind, get, modify, mret, M_ret, ret, _emitStateChange, emit,
    notifications.
  simpl. unfold mbind in Ht. rewrite Ht, Hfps. simpl. rewrite Hcb. simpl.
  rewrite Hf. simpl.
  destruct (onStateChange_property s); simpl;
    eexists; (split; [reflexivity|]); simpl;
    rewrite ?List.filter_app, ?length_app; simpl;
    rewrite ?List.filter_app, ?length_app; simpl;
    repeat split; lia.
Qed.

End Completion.

(** ** The regular-expression matcher *)

Section MatcherFacts.
Import JS Regex.

Lemma star_greedy_sound {A} p s (k : jsstring -> option A) res :
  star_greedy p s k = Some res ->
  exists m rest,
    s = m ++ rest /\ Forall (fun c => p c = true) m /\ k rest = Some res.
Proof.
  induction s as [|c s IH]; simpl; intros H.
  - exists [], []. auto.
  - destruct (p c) eqn:Hp.
    + destruct (star_greedy p s k) as [r|] eqn:Hs.
      * inversion H; subst. destruct (IH eq_refl) as (m & rest & -> & Hm & Hk).
        exists (c :: m), rest. auto.
      * exists [], (c :: s). auto.
    + exists [], (c :: s). auto.
Qed.

Lemma star_lazy_sound {A} p s (k : jsstring -> option A) res :
  star_lazy p s k = Some res ->
  exists m rest,
    s = m ++ rest /\ Forall (fun c => p c = true) m /\ k rest = Some res.
Proof.
  induction s as [|c s IH]; simpl; intros H.
  - destruct (k []) eqn:Hk; [|done]. exists [], []. rewrite Hk. auto.
  - destruct (k (c :: s)) eqn:Hk.
    + exists [], (c :: s). rewrite Hk. auto.
    + destruct (p c) eqn:Hp; [|done].
      destruct (IH H) as (m & rest & -> & Hm & Hk').
      exists (c :: m), rest. auto.
Qed.

(** Soundness of the matcher: a successful run consumed a prefix that the
    pattern matches and handed the rest to its continuation. *)
Lemma run_sound {A} r : forall s caps (k : jsstring -> captures -> option A) res,
  run r s caps k = Some res ->
  exists m rest caps',
    s = m ++ rest /\ matches r m rest caps caps' /\ k rest caps' = Some res.
Proof.
  induction r as [|p|g p|r1 IH1 r2 IH2|r1 IH1 r2 IH2|i r IH|];
    intros s caps k res H; simpl in H.
  - exists [], s, caps. split; [done|]. split; [constructor|done].
  - destruct s as [|c s]; [done|]. destruct (p c) eqn:Hp; [|done].
    exists [c], s, caps. split; [done|]. split; [by constructor|done].
  - destruct g.
    + apply star_greedy_sound in H as (m & rest & -> & Hm & Hk).
      exists m, rest, caps. split; [done|]. split; [by constructor|done].
    + apply star_lazy_sound in H as (m & rest & -> & Hm & Hk).
      exists m, rest, caps. split; [done|]. split; [by constructor|done].
  - apply IH1 in H as (m1 & rest1 & caps1 & -> & Hm1 & H).
    apply IH2 in H as (m2 & rest & caps2 & -> & Hm2 & H).
    exists (m1 ++ m2), rest, caps2. rewrite <- app_assoc.
    split; [done|]. split; [by econstructor|done].
  - destruct (run r1 s caps k) as [x|] eqn:H1.
    + inversion H; subst.
      apply IH1 in H1 as (m & rest & caps' & -> & Hm & Hk).
      exists m, rest, caps'. split; [done|]. split; [by apply M_AltL|done].
    + apply IH2 in H as (m & rest & caps' & -> & Hm & Hk).
      exists m, rest, caps'. split; [done|]. split; [by apply M_AltR|done].
  - apply IH in H as (m & rest & caps' & -> & Hm & Hk).
    rewrite length_app in Hk.
    replace (length m + length rest - length rest)%nat with (length m)
      in Hk by lia.
    rewrite take_app_length in Hk.
    exists m, rest, (<[i := m]> caps').
    split; [done|]. split; [by constructor|done].
  - exists [], s, caps. split; [done|].
    split; [|by destruct s as [|c s]; [|destruct (is_line_terminator c)]].
    constructor. destruct s as [|c s]; simpl; [done|].
    by destruct (is_line_terminator c).
Qed.

Lemma matches_Group_inv i r m rest caps caps' :
  matches (Group i r) m rest caps caps' ->
  exists caps0, matches r m rest caps caps0 /\ caps' = <[i := m]> caps0.
Proof. inversion 1; subst; eauto. Qed.

Lemma matches_Seq_inv r1 r2 m rest caps caps' :
  matches (Seq r1 r2) m rest caps caps' ->
  exists m1 m2 caps1,
    m = m1 ++ m2 /\ matches r1 m1 (m2 ++ rest) caps caps1
    /\ matches r2 m2 rest caps1 caps'.
Proof. inversion 1; subst; eauto 10. Qed.

Lemma matches_Chr_inv p m rest caps caps' :
  matches (Chr p) m rest caps caps' ->
  exists c, m = [c] /\ p c = true /\ caps' = caps.
Proof. inversion 1; subst; eauto. Qed.

Lemma matches_Star_inv g p m rest caps caps' :
  matches (Star g p) m rest caps caps' ->
  Forall (fun c => p c = true) m /\ caps' = caps.
Proof. inversion 1; subst; eauto. Qed.

Lemma matches_Eps_inv m rest caps caps' :
  matches Eps m rest caps caps' -> m = [] /\ caps' = caps.
Proof. inversion 1; subst; eauto. Qed.

Lemma matches_Alt_inv r1 r2 m rest caps caps' :
  matches (Alt r1 r2) m rest caps caps' ->
  matches r1 m rest caps caps' \/ matches r2 m rest caps caps'.
Proof. inversion 1; subst; eauto. Qed.

Lemma match_here_sound r s rest caps :
  match_here r s = Some (rest, caps) ->
  exists m caps0,
    s = m ++ rest /\ matches r m rest ∅ caps0
    /\ caps = <[0%nat := m]> caps0.
Proof.
  unfold match_here. intros H.
  apply run_sound in H as (m & rest' & caps' & Hs & Hmt & Hk).
  inversion Hk; subst.
  apply matches_Group_inv in Hmt as (caps0 & Hmt & ->).
  by exists m, caps0.
Qed.

Lemma search_sound r s rest caps :
  search r s = Some (rest, caps) ->
  exists pre m caps0,
    s = pre ++ m ++ rest /\ matches r m rest ∅ caps0
    /\ caps = <[0%nat := m]> caps0.
Proof.
  induction s as [|c s IH]; simpl; intros H.
  - destruct (match_here r []) as [x|] eqn:Hm; [|done].
    inversion H; subst.
    apply match_here_sound in Hm as (m & caps0 & Hs & Hmt & ->).
    exists [], m, caps0. auto.
  - destruct (match_here r (c :: s)) as [x|] eqn:Hm.
    + inversion H; subst.
      apply match_here_sound in Hm as (m & caps0 & Hs & Hmt & ->).
      exists [], m, caps0. auto.
    + destruct (IH H) as (pre & m & caps0 & -> & Hmt & ->).
      exists (c :: pre), m, caps0. auto.
Qed.

Lemma str_match_sound s r caps :
  str_match s r = Some caps ->
  exists pre m rest caps0,
    s = pre ++ m ++ rest /\ matches r m rest ∅ caps0
    /\ caps = <[0%nat := m]> caps0.
Proof.
  unfold str_match. destruct (search r s) as [[rest c]|] eqn:Hs; [|done].
  simpl. intros [= <-].
  apply search_sound in Hs as (pre & m & caps0 & ? & ? & ?).
  by exists pre, m, rest, caps0.
Qed.

Lemma matches_Plus_inv g p m rest caps caps' :
  matches (Plus g p) m rest caps caps' ->
  m <> [] /\ Forall (fun c => p c = true) m /\ caps' = caps.
Proof.
  unfold Plus. intros H.
  apply matches_Seq_inv in H as (m1 & m2 & caps1 & -> & H1 & H2).
  apply matches_Chr_inv in H1 as (c & -> & Hc & ->).
  apply matches_Star_inv in H2 as (Hm2 & ->).
  split; [done|]. split; [by constructor|done].
Qed.

Lemma matches_lit_list l : forall m rest caps caps',
  matches (lit_list l) m rest caps caps' -> m = l /\ caps' = caps.
Proof.
  induction l as [|c l IH]; simpl; intros m rest caps caps' H.
  - by apply matches_Eps_inv in H.
  - apply matches_Seq_inv in H as (m1 & m2 & caps1 & -> & H1 & H2).
    apply matches_Chr_inv in H1 as (x & -> & Hx & ->).
    apply N.eqb_eq in Hx as <-.
    apply IH in H2 as (-> & ->). done.
Qed.

Lemma matches_Lit op m rest caps caps' :
  matches (Lit op) m rest caps caps' -> m = js op /\ caps' = caps.
Proof. apply matches_lit_list. Qed.

Lemma matches_LitI op : forall m rest caps caps',
  matches (LitI op) m rest caps caps' -> caps' = caps.
Proof.
  unfold LitI. induction (js op) as [|c l IH]; simpl;
    intros m rest caps caps' H.
  - by apply matches_Eps_inv in H as [_ ?].
  - apply matches_Seq_inv in H as (m1 & m2 & caps1 & -> & H1 & H2).
    apply matches_Chr_inv in H1 as (x & -> & Hx & ->).
    by apply IH in H2.
Qed.

Import CodeExecutor.

Lemma re_ident_op_num_inv op m rest caps0 :
  matches (re_ident_op_num op) m rest ∅ caps0 ->
  exists w sp sp' ds,
    m = w ++ sp ++ js op ++ sp' ++ ds
    /\ w <> [] /\ Forall (fun c => is_word c = true) w
    /\ Forall (fun c => is_space c = true) sp
    /\ Forall (fun c => is_space c = true) sp'
    /\ digit_string ds
    /\ caps0 = <[1%nat := ds]> ∅.
Proof.
  unfold re_ident_op_num. intros H.
  apply matches_Seq_inv in H as (w & m1 & c1 & -> & Hw & H).
  apply matches_Plus_inv in Hw as (Hw1 & Hw2 & ->).
  apply matches_Seq_inv in H as (sp & m2 & c2 & -> & Hsp & H).
  apply matches_Star_inv in Hsp as (Hsp & ->).
  apply matches_Seq_inv in H as (o & m3 & c3 & -> & Ho & H).
  apply matches_Lit in Ho as (-> & ->).
  apply matches_Seq_inv in H as (sp' & ds & c4 & -> & Hsp' & H).
  apply matches_Star_inv in Hsp' as (Hsp' & ->).
  apply matches_Group_inv in H as (c5 & Hds & ->).
  apply matches_Plus_inv in Hds as (Hd1 & Hd2 & ->).
  exists w, sp, sp', ds. repeat split; done.
Qed.

Lemma re_num_op_ident_inv op m rest caps0 :
  matches (re_num_op_ident op) m rest ∅ caps0 ->
  exists w sp sp' ds,
    m = ds ++ sp ++ js op ++ sp' ++ w
    /\ w <> [] /\ Forall (fun c => is_word c = true) w
    /\ Forall (fun c => is_space c = true) sp
    /\ Forall (fun c => is_space c = true) sp'
    /\ digit_string ds
    /\ caps0 = <[1%nat := ds]> ∅.
Proof.
  unfold re_num_op_ident. intros H.
  apply matches_Seq_inv in H as (ds & m1 & c1 & -> & Hds & H).
  apply matches_Group_inv in Hds as (c0 & Hds & ->).
  apply matches_Plus_inv in Hds as (Hd1 & Hd2 & ->).
  apply matches_Seq_inv in H as (sp & m2 & c2 & -> & Hsp & H).
  apply matches_Star_inv in Hsp as (Hsp & ->).
  apply matches_Seq_inv in H as (o & m3 & c3 & -> & Ho & H).
  apply matches_Lit in Ho as (-> & ->).
  apply matches_Seq_inv in H as (sp' & w & c4 & -> & Hsp' & H).
  apply matches_Star_inv in Hsp' as (Hsp' & ->).
  apply matches_Plus_inv in H as (Hw1 & Hw2 & ->).
  exists w, sp, sp', ds. repeat split; done.
Qed.

Lemma re_for_inv m rest caps0 :
  matches re_for m rest ∅ caps0 ->
  exists op ds,
    digit_string ds /\ caps0 = <[2%nat := ds]> (<[1%nat := op]> ∅).
Proof.
  unfold re_for. intros H.
  apply matches_Seq_inv in H as (? & ? & ? & -> & H0 & H).
  apply matches_Lit in H0 as (-> & ->).
  apply matches_Seq_inv in H as (? & ? & ? & -> & H0 & H).
  apply matches_Star_inv in H0 as (_ & ->).
  apply matches_Seq_inv in H as (? & ? & ? & -> & H0 & H).
  apply matches_Chr_inv in H0 as (? & -> & _ & ->).
  apply matches_Seq_inv in H as (? & ? & ? & -> & H0 & H).
  apply matches_Plus_inv in H0 as (_ & _ & ->).
  apply matches_Seq_inv in H as (? & ? & ? & -> & H0 & H).
  apply matches_Chr_inv in H0 as (? & -> & _ & ->).
  apply matches_Seq_inv in H as (? & ? & ? & -> & H0 & H).
  apply matches_Star_inv in H0 as (_ & ->).
  apply matches_Seq_inv in H as (? & ? & ? & -> & H0 & H).
  apply matches_Plus_inv in H0 as (_ & _ & ->).
  apply matches_Seq_inv in H as (? & ? & ? & -> & H0 & H).
  apply matches_Star_inv in H0 as (_ & ->).
  apply matches_Seq_inv in H as (op & ? & c1 & -> & H0 & H).
  apply matches_Group_inv in H0 as (c0 & H0 & ->).
  assert (c0 = ∅) as ->.
  { apply matches_Alt_inv in H0 as [H0|H0];
      by apply matches_Lit in H0 as [_ ?]. }
  clear H0.
  apply matches_Seq_inv in H as (? & ds & ? & -> & H0 & H).
  apply matches_Star_inv in H0 as (_ & ->).
  apply matches_Group_inv in H as (c2 & H & ->).
  apply matches_Plus_inv in H as (Hd1 & Hd2 & ->).
  exists op, ds. repeat split; done.
Qed.

Lemma re_assign_inv m rest caps0 :
  matches re_assign m rest ∅ caps0 ->
  exists name ds,
    digit_string ds /\ caps0 = <[2%nat := ds]> (<[1%nat := name]> ∅).
Proof.
  unfold re_assign. intros H.
  apply matches_Seq_inv in H as (name & ? & c1 & -> & H0 & H).
  apply matches_Group_inv in H0 as (c0 & H0 & ->).
  assert (c0 = ∅) as ->.
  { apply matches_Alt_inv in H0 as [H0|H0]; [by apply matches_LitI in H0|].
    apply matches_Alt_inv in H0 as [H0|H0]; by apply matches_LitI in H0. }
  clear H0.
  apply matches_Seq_inv in H as (? & ? & ? & -> & H0 & H).
  apply matches_Star_inv in H0 as (_ & ->).
  apply matches_Seq_inv in H as (? & ? & ? & -> & H0 & H).
  apply matches_Chr_inv in H0 as (? & -> & _ & ->).
  apply matches_Seq_inv in H as (? & ds & ? & -> & H0 & H).
  apply matches_Star_inv in H0 as (_ & ->).
  apply matches_Group_inv in H as (c2 & H & ->).
  apply matches_Plus_inv in H as (Hd1 & Hd2 & ->).
  exists name, ds. repeat split; done.
Qed.

(** *** parseInt on a run of digits *)

Lemma is_digit_range c : is_digit c = true <-> (48 <= c <= 57)%N.
Proof.
  unfold is_digit. rewrite andb_true_iff, !N.leb_le. done.
Qed.

Lemma is_space_cases c :
  is_space c = true ->
  (c = 9 \/ c = 10 \/ c = 11 \/ c = 12 \/ c = 13 \/ c = 32 \/ 160 <= c)%N.
Proof.
  unfold is_space.
  rewrite !orb_true_iff, !andb_true_iff, !N.eqb_eq, !N.leb_le. lia.
Qed.

Lemma digit_not_space c : is_digit c = true -> is_space c = false.
Proof.
  intros Hd. apply is_digit_range in Hd. apply not_true_is_false.
  intros Hs. apply is_space_cases in Hs. lia.
Qed.

Lemma digits_prefix_all ds :
  Forall (fun c => is_digit c = true) ds -> digits_prefix ds = ds.
Proof.
  induction 1 as [|c ds Hc _ IH]; simpl; [done|]. by rewrite Hc, IH.
Qed.

Lemma decimal_value_acc ds : forall acc,
  0 <= acc -> acc <= fold_left (fun a c => 10 * a + digit_value c) ds acc.
Proof.
  induction ds as [|c ds IH]; simpl; intros acc Hacc; [lia|].
  assert (0 <= digit_value c) by (unfold digit_value; lia).
  etrans; [|apply IH; lia]. lia.
Qed.

Lemma decimal_value_nonneg ds : 0 <= decimal_value ds.
Proof. by apply decimal_value_acc. Qed.

Lemma parseInt_digits ds :
  digit_string ds -> parseInt ds = norm (decimal_value ds).
Proof.
  intros [Hne Hall]. destruct ds as [|c ds]; [done|].
  inversion Hall as [|? ? Hc Hds]; subst.
  unfold parseInt. simpl trimStart. rewrite (digit_not_space c Hc).
  pose proof (proj1 (is_digit_range c) Hc) as Hr.
  assert (digits_prefix (c :: ds) = c :: ds) as Hp
    by (by apply digits_prefix_all).
  destruct c as [|p]; [lia|].
  destruct (decide (N.pos p = 45%N)) as [He|He]; [lia|].
  destruct (decide (N.pos p = 43%N)) as [He'|He']; [lia|].
  assert ((let '(neg, s2) :=
             match N.pos p :: ds with
             | 45%N :: t => (true, t)
             | 43%N :: t => (false, t)
             | _ => (false, N.pos p :: ds)
             end in
           match digits_prefix s2 with
           | [] => NaN
           | d :: ds0 =>
               norm (if neg then - decimal_value (d :: ds0)
                     else decimal_value (d :: ds0))
           end)
          = match digits_prefix (N.pos p :: ds) with
            | [] => NaN
            | d :: ds0 => norm (decimal_value (d :: ds0))
            end) as ->.
  { do 7 (destruct p as [p|p|]; try done). }
  by rewrite Hp.
Qed.

Lemma norm_nonneg z : 0 <= z -> nonneg (norm z).
Proof.
  intros Hz. unfold norm, safe_bound.
  destruct (Z.ltb_spec z (2 ^ 53)); [|done].
  destruct (Z.ltb_spec (- 2 ^ 53) z); [done|lia].
Qed.

Lemma add1_nonneg x : nonneg x -> nonneg (add1 x).
Proof.
  destruct x as [|z|[]]; simpl; try done.
  intros Hz. apply norm_nonneg. lia.
Qed.

Lemma parseInt_digits_nonneg ds : digit_string ds -> nonneg (parseInt ds).
Proof.
  intros Hd. rewrite parseInt_digits by done.
  apply norm_nonneg, decimal_value_nonneg.
Qed.

Lemma Math_min_cap x :
  nonneg x ->
  exists z, Math_min x (Num maxTreeLimit) = Num z /\ 0 <= z <= maxTreeLimit.
Proof.
  unfold maxTreeLimit. destruct x as [|z|[]]; simpl; try done.
  - intros Hz. destruct (Z.ltb_spec 1000 z); eexists; split; try done; lia.
  - intros _. exists 1000. split; [done|lia].
Qed.

Lemma addPerformanceWarnings_keeps r :
  valid (addPerformanceWarnings r) = valid r
  /\ limit (addPerformanceWarnings r) = limit r
  /\ errors (addPerformanceWarnings r) = errors r
  /\ exists extra, warnings (addPerformanceWarnings r) = warnings r ++ extra.
Proof.
  unfold addPerformanceWarnings, push_warning.
  repeat case_match; simpl; repeat split; try done;
    try (by eexists); by (exists []; rewrite app_nil_r).
Qed.

Lemma group1_of_match m ds :
  group (<[0%nat := m]> (<[1%nat := ds]> ∅)) 1 = ds.
Proof.
  unfold group. rewrite lookup_insert_ne by done.
  by rewrite lookup_insert_eq.
Qed.

Lemma group2_of_match m (a ds : jsstring) :
  group (<[0%nat := m]> (<[2%nat := ds]> (<[1%nat := a]> ∅))) 2 = ds.
Proof.
  unfold group. rewrite lookup_insert_ne by done.
  by rewrite lookup_insert_eq.
Qed.

Lemma str_match_ident_op_num s op caps :
  str_match s (re_ident_op_num op) = Some caps -> digit_string (group caps 1).
Proof.
  intros H. apply str_match_sound in H as (pre & m & rest & caps0 & _ & H & ->).
  apply re_ident_op_num_inv in H as (w & sp & sp' & ds & _ & _ & _ & _ & _ & Hd & ->).
  by rewrite group1_of_match.
Qed.

Lemma str_match_num_op_ident s op caps :
  str_match s (re_num_op_ident op) = Some caps -> digit_string (group caps 1).
Proof.
  intros H. apply str_match_sound in H as (pre & m & rest & caps0 & _ & H & ->).
  apply re_num_op_ident_inv in H as (w & sp & sp' & ds & _ & _ & _ & _ & _ & Hd & ->).
  by rewrite group1_of_match.
Qed.

Lemma str_match_for s caps :
  str_match s re_for = Some caps -> digit_string (group caps 2).
Proof.
  intros H. apply str_match_sound in H as (pre & m & rest & caps0 & _ & H & ->).
  apply re_for_inv in H as (op & ds & Hd & ->).
  by rewrite group2_of_match.
Qed.

Lemma str_match_assign s caps :
  str_match s re_assign = Some caps -> digit_string (group caps 2).
Proof.
  intros H. apply str_match_sound in H as (pre & m & rest & caps0 & _ & H & ->).
  apply re_assign_inv in H as (name & ds & Hd & ->).
  by rewrite group2_of_match.
Qed.

(** extractLimitFromCondition never returns NaN or a negative number. *)
Lemma extractLimitFromCondition_nonneg cond x :
  extractLimitFromCondition cond = Some x -> nonneg x.
Proof.
  unfold extractLimitFromCondition, re_lt, re_le, re_gt, re_ge, re_ne.
  destruct (str_match cond (re_ident_op_num "<")) as [c1|] eqn:H1.
  { intros [= <-]. by apply parseInt_digits_nonneg,
      (str_match_ident_op_num cond "<"). }
  destruct (str_match cond (re_ident_op_num "<=")) as [c2|] eqn:H2.
  { intros [= <-]. by apply add1_nonneg, parseInt_digits_nonneg,
      (str_match_ident_op_num cond "<="). }
  destruct (str_match cond (re_num_op_ident ">")) as [c3|] eqn:H3.
  { intros [= <-]. by apply parseInt_digits_nonneg,
      (str_match_num_op_ident cond ">"). }
  destruct (str_match cond (re_num_op_ident ">=")) as [c4|] eqn:H4.
  { intros [= <-]. by apply add1_nonneg, parseInt_digits_nonneg,
      (str_match_num_op_ident cond ">="). }
  destruct (str_match cond (re_ident_op_num "!=")) as [c5|] eqn:H5; [|done].
  intros [= <-]. by apply parseInt_digits_nonneg,
    (str_match_ident_op_num cond "!=").
Qed.

(** C10: whatever the input text, a result with [valid = true] carries a
    limit that is a number (not null, not NaN), an integer between 0 and
    the safety cap 1000 inclusive. *)
Theorem C10_valid_limit_bounded code :
  valid (parseStudentCode code) = true ->
  exists z,
    limit (parseStudentCode code) = Some (Num z) /\ 0 <= z <= 1000.
Proof.
  unfold parseStudentCode.
  destruct (str_match (stripComments code) re_while) as [wm|] eqn:Hw.
  { destruct (addPerformanceWarnings_keeps
                (match extractLimitFromCondition (trim (group wm 1)) with
                 | Some limit =>
                     mkParseResult true
                       (Some (Math_min limit (Num maxTreeLimit)))
                       (Some (trim (group wm 1))) (Some PWhile) []
                       (if gt limit (Num maxTreeLimit)
                        then [msg_capped] else [])
                 | None =>
                     if bool_decide (trim (group wm 1) = js "true") then
                       mkParseResult true (Some (Num maxTreeLimit))
                         (Some (trim (group wm 1))) (Some PWhile)
                         [msg_infinite] [msg_safety_cap]
                     else if bool_decide (trim (group wm 1) = js "false") then
                       mkParseResult true (Some (Num 0))
                         (Some (trim (group wm 1))) (Some PWhile) []
                         [msg_while_false]
                     else
                       mkParseResult false None (Some (trim (group wm 1)))
                         (Some PWhile)
                         [msg_cant_parse (trim (group wm 1)); msg_try] []
                 end)) as (Hv & Hl & _).
    rewrite Hv, Hl. clear Hv Hl.
    destruct (extractLimitFromCondition (trim (group wm 1))) as [x|] eqn:Hx.
    - intros _. simpl.
      apply extractLimitFromCondition_nonneg in Hx.
      destruct (Math_min_cap x Hx) as (z & -> & Hz). by exists z.
    - repeat case_bool_decide; simpl; intros Hvalid; try done.
      + exists 1000. split; [done|lia].
      + exists 0. split; [done|lia]. }
  destruct (str_match (stripComments code) re_for) as [fm|] eqn:Hf.
  { match goal with
    | |- valid (addPerformanceWarnings ?r) = _ -> _ =>
        destruct (addPerformanceWarnings_keeps r) as (Hv & Hl & _)
    end.
    rewrite Hv, Hl. simpl. intros _.
    apply str_match_for in Hf. apply parseInt_digits_nonneg in Hf.
    assert (Hn : nonneg (if bool_decide (group fm 1 = js "<=")
                         then add1 (parseInt (group fm 2))
                         else parseInt (group fm 2)))
      by (case_bool_decide; [by apply add1_nonneg|done]).
    destruct (Math_min_cap _ Hn) as (z & -> & Hz). by exists z. }
  destruct (str_match (stripComments code) re_assign) as [am|] eqn:Ha.
  { match goal with
    | |- valid (addPerformanceWarnings ?r) = _ -> _ =>
        destruct (addPerformanceWarnings_keeps r) as (Hv & Hl & _)
    end.
    rewrite Hv, Hl. simpl. intros _.
    apply str_match_assign in Ha. apply parseInt_digits_nonneg in Ha.
    destruct (Math_min_cap _ Ha) as (z & -> & Hz). by exists z. }
  done.
Qed.

Lemma C10_valid_limit_bounded_witness :
  valid (parseStudentCode (js "while (treeCount <= 99999)")) = true
  /\ limit (parseStudentCode (js "while (treeCount <= 99999)"))
     = Some (Num 1000)
  /\ exists z,
       limit (parseStudentCode (js "while (treeCount <= 99999)"))
       = Some (Num z) /\ 0 <= z <= 1000.
Proof.
  assert (H : valid (parseStudentCode (js "while (treeCount <= 99999)"))
              = true) by (vm_compute; reflexivity).
  split; [exact H|]. split; [vm_compute; reflexivity|].
  exact (C10_valid_limit_bounded _ H).
Defined.

(** *** The cap warning *)

Lemma Math_min_over_cap x :
  gt x (Num maxTreeLimit) = true ->
  Math_min x (Num maxTreeLimit) = Num maxTreeLimit.
Proof.
  unfold gt. destruct x as [|z|[]]; simpl; try done.
  by intros ->.
Qed.

(** The while path: a condition whose limit exceeds the cap is clamped
    and the warning naming the cap is pushed. *)
Lemma while_path_warns code wm x :
  str_match (stripComments code) re_while = Some wm ->
  extractLimitFromCondition (trim (group wm 1)) = Some x ->
  gt x (Num maxTreeLimit) = true ->
  let r := parseStudentCode code in
  valid r = true /\ limit r = Some (Num maxTreeLimit)
  /\ msg_capped ∈ warnings r /\ names_cap msg_capped = true.
Proof.
  intros Hw Hx Hgt r. unfold r, parseStudentCode. rewrite Hw, Hx, Hgt.
  match goal with
  | |- valid (addPerformanceWarnings ?r0) = _ /\ _ =>
      destruct (addPerformanceWarnings_keeps r0) as (Hv & Hl & _ & extra & He)
  end.
  rewrite Hv, Hl, He. simpl. rewrite Math_min_over_cap by done.
  repeat split; try done. apply elem_of_cons. by left.
Qed.

(** C7 for [while (true)]: the limit is the cap, an error is reported and
    a warning names the cap. *)
Lemma while_true_capped :
  let r := parseStudentCode (js "while (true) { SpawnTree(); }") in
  valid r = true /\ limit r = Some (Num maxTreeLimit)
  /\ errors r = [msg_infinite]
  /\ msg_safety_cap ∈ warnings r /\ names_cap msg_safety_cap = true.
Proof.
  repeat split; try (vm_compute; reflexivity).
  assert (warnings (parseStudentCode (js "while (true) { SpawnTree(); }"))
          = [msg_safety_cap;
             emoji_red ++ js " 500+ trees: Expect <20 FPS on Chromebook"])
    as -> by (vm_compute; reflexivity).
  apply elem_of_cons. by left.
Qed.

(** C7, where the code departs from it: a for loop and an assignment
    above the cap are clamped to 1000, but no warning of the result names
    the cap; the only warning is the one for 500+ trees. *)
Theorem C7_for_and_assignment_clamp_silently :
  let r_for := parseStudentCode (js "for (int i = 0; i < 2000; i++)") in
  let r_assign := parseStudentCode (js "maxTrees = 2000") in
  (valid r_for = true /\ pattern r_for = Some PFor
   /\ limit r_for = Some (Num 1000)
   /\ warnings r_for
      = [emoji_red ++ js " 500+ trees: Expect <20 FPS on Chromebook"]
   /\ forallb (fun w => negb (names_cap w)) (warnings r_for) = true)
  /\ (valid r_assign = true /\ pattern r_assign = Some PAssignment
      /\ limit r_assign = Some (Num 1000)
      /\ warnings r_assign
         = [emoji_red ++ js " 500+ trees: Expect <20 FPS on Chromebook"]
      /\ forallb (fun w => negb (names_cap w)) (warnings r_assign) = true).
Proof. repeat split; vm_compute; reflexivity. Qed.

(** *** The first path of a greedy run *)

Lemma stops_app p a b :
  Forall (fun c => p c = false) a -> stops p b -> stops p (a ++ b).
Proof. destruct 1; simpl; done. Qed.

Lemma star_greedy_all {A} p m rest (k : jsstring -> option A) res :
  Forall (fun c => p c = true) m -> stops p rest ->
  k rest = Some res -> star_greedy p (m ++ rest) k = Some res.
Proof.
  intros Hm Hstop Hk. induction Hm as [|c m Hc _ IH]; simpl.
  - destruct rest as [|c rest]; simpl in *; [done|]. by rewrite Hstop.
  - by rewrite Hc, IH.
Qed.

Lemma run_Star_all {A} p m rest caps (k : jsstring -> captures -> option A) res :
  Forall (fun c => p c = true) m -> stops p rest ->
  k rest caps = Some res -> run (Star true p) (m ++ rest) caps k = Some res.
Proof. intros. simpl. by apply star_greedy_all. Qed.

Lemma run_Plus_all {A} p m rest caps (k : jsstring -> captures -> option A) res :
  m <> [] -> Forall (fun c => p c = true) m -> stops p rest ->
  k rest caps = Some res -> run (Plus true p) (m ++ rest) caps k = Some res.
Proof.
  intros Hne Hm Hstop Hk. destruct m as [|c m]; [done|].
  inversion Hm as [|? ? Hc Hm']; subst. simpl. rewrite Hc.
  by apply star_greedy_all.
Qed.

Lemma run_lit_list {A} l rest caps (k : jsstring -> captures -> option A) :
  run (lit_list l) (l ++ rest) caps k = k rest caps.
Proof.
  induction l as [|c l IH]; simpl; [done|]. by rewrite N.eqb_refl.
Qed.

Lemma run_Lit {A} op rest caps (k : jsstring -> captures -> option A) :
  run (Lit op) (js op ++ rest) caps k = k rest caps.
Proof. apply run_lit_list. Qed.

Lemma search_first r s x : match_here r s = Some x -> search r s = Some x.
Proof. intros H. destruct s; simpl; by rewrite H. Qed.

Lemma take_all_minus {A} (m rest : list A) :
  take (length (m ++ rest) - length rest) (m ++ rest) = m.
Proof.
  rewrite length_app.
  replace (length m + length rest - length rest)%nat with (length m) by lia.
  apply take_app_length.
Qed.

Lemma word_not_space c : is_word c = true -> is_space c = false.
Proof.
  unfold is_word, is_digit. intros Hw. apply not_true_is_false. intros Hs.
  apply is_space_cases in Hs.
  rewrite !orb_true_iff, !andb_true_iff, !N.leb_le, N.eqb_eq in Hw. lia.
Qed.

Lemma space_not_word c : is_space c = true -> is_word c = false.
Proof.
  intros Hs. destruct (is_word c) eqn:Hw; [|done].
  apply word_not_space in Hw. congruence.
Qed.

Lemma space_not_digit c : is_space c = true -> is_digit c = false.
Proof.
  intros Hs. destruct (is_digit c) eqn:Hd; [|done].
  apply digit_not_space in Hd. congruence.
Qed.

Lemma Forall_class_neg (p q : N -> bool) l :
  (forall c, p c = true -> q c = false) ->
  Forall (fun c => p c = true) l -> Forall (fun c => q c = false) l.
Proof. intros Hpq H. eapply Forall_impl; [exact H|exact Hpq]. Qed.

Lemma operator_stops op rest :
  operator op ->
  stops is_word (js op ++ rest) /\ stops is_space (js op ++ rest)
  /\ stops is_digit (js op ++ rest).
Proof. unfold operator. destruct (js op); simpl; tauto. Qed.

Lemma run_Seq {A} r1 r2 s caps (k : jsstring -> captures -> option A) :
  run (Seq r1 r2) s caps k
  = run r1 s caps (fun s' caps' => run r2 s' caps' k).
Proof. reflexivity. Qed.

Lemma run_Group {A} i r s caps (k : jsstring -> captures -> option A) :
  run (Group i r) s caps k
  = run r s caps
      (fun s' caps' => k s' (<[i := take (length s - length s') s]> caps')).
Proof. reflexivity. Qed.

Lemma take_whole {A} (s : list A) : take (length s - length (@nil A)) s = s.
Proof. simpl. rewrite Nat.sub_0_r. apply firstn_all. Qed.

(** [w sp op sp' ds] from its first character on: the pattern
    \w+\s*op\s*(\d+) matches all of it on its first path. *)
Lemma match_here_ident_op_num op w sp sp' ds :
  operator op ->
  w <> [] -> Forall (fun c => is_word c = true) w ->
  Forall (fun c => is_space c = true) sp ->
  Forall (fun c => is_space c = true) sp' ->
  digit_string ds ->
  match_here (re_ident_op_num op) (w ++ sp ++ js op ++ sp' ++ ds)
  = Some ([], <[0%nat := w ++ sp ++ js op ++ sp' ++ ds]>
                (<[1%nat := ds]> ∅)).
Proof.
  intros Hop Hw1 Hw2 Hsp Hsp' [Hd1 Hd2].
  destruct (operator_stops op (sp' ++ ds) Hop) as (Hs1 & Hs2 & _).
  unfold match_here, re_ident_op_num.
  rewrite run_Group, run_Seq.
  apply run_Plus_all; [done|done| |].
  { apply stops_app; [|done].
    apply (Forall_class_neg is_space is_word); [apply space_not_word|done]. }
  rewrite run_Seq. apply run_Star_all; [done|done|].
  rewrite run_Seq, run_Lit, run_Seq.
  apply run_Star_all; [done| |].
  { destruct ds as [|d ds]; [done|]. inversion Hd2; subst. simpl.
    by apply digit_not_space. }
  rewrite run_Group.
  rewrite <- (app_nil_r ds) at 1.
  apply run_Plus_all; [done|done|done|].
  by rewrite !take_whole.
Qed.

(** [ds sp op sp' w] from its first character on: the pattern
    (\d+)\s*op\s*\w+ matches all of it on its first path. *)
Lemma match_here_num_op_ident op w sp sp' ds :
  operator op ->
  w <> [] -> Forall (fun c => is_word c = true) w ->
  Forall (fun c => is_space c = true) sp ->
  Forall (fun c => is_space c = true) sp' ->
  digit_string ds ->
  match_here (re_num_op_ident op) (ds ++ sp ++ js op ++ sp' ++ w)
  = Some ([], <[0%nat := ds ++ sp ++ js op ++ sp' ++ w]>
                (<[1%nat := ds]> ∅)).
Proof.
  intros Hop Hw1 Hw2 Hsp Hsp' [Hd1 Hd2].
  destruct (operator_stops op (sp' ++ w) Hop) as (_ & Hs2 & Hs3).
  unfold match_here, re_num_op_ident.
  rewrite run_Group, run_Seq, run_Group.
  apply run_Plus_all; [done|done| |].
  { apply stops_app; [|done].
    apply (Forall_class_neg is_space is_digit); [apply space_not_digit|done]. }
  rewrite run_Seq. apply run_Star_all; [done|done|].
  rewrite run_Seq, run_Lit, run_Seq.
  apply run_Star_all; [done| |].
  { destruct w as [|c w]; [done|]. inversion Hw2; subst. simpl.
    by apply word_not_space. }
  rewrite <- (app_nil_r w) at 1.
  apply run_Plus_all; [done|done|done|].
  rewrite take_whole. by rewrite take_all_minus.
Qed.

(** *** Where a condition pattern cannot match *)

Lemma follows_intro p sp c t :
  Forall (fun x => is_space x = true) sp ->
  p c = true -> is_space c = false -> follows p (sp ++ c :: t) = true.
Proof.
  intros Hsp Hp Hc. unfold follows.
  induction Hsp as [|x sp Hx _ IH]; simpl.
  - by rewrite Hc.
  - by rewrite Hx.
Qed.

Lemma has_follow_app_r o p a b :
  has_follow o p b = true -> has_follow o p (a ++ b) = true.
Proof.
  intros Hb. induction a as [|c a IH]; simpl; [done|].
  rewrite IH. apply orb_true_r.
Qed.

Lemma has_follow_skip o p a b :
  Forall (fun c => c <> o) a -> has_follow o p (a ++ b) = has_follow o p b.
Proof.
  induction 1 as [|c a Hc _ IH]; simpl; [done|].
  apply N.eqb_neq in Hc. by rewrite Hc, IH.
Qed.

Lemma has_follow_none o p s :
  Forall (fun c => c <> o) s -> has_follow o p s = false.
Proof.
  intros H. rewrite <- (app_nil_r s). by rewrite has_follow_skip.
Qed.

Lemma class_ne (p : N -> bool) o l :
  p o = false -> Forall (fun c => p c = true) l -> Forall (fun c => c <> o) l.
Proof.
  intros Ho H. eapply Forall_impl; [exact H|].
  intros c Hc ->. congruence.
Qed.

Lemma str_match_ident_op_num_follow s op o caps :
  js op = [o] ->
  str_match s (re_ident_op_num op) = Some caps ->
  has_follow o is_digit s = true.
Proof.
  intros Hop H.
  apply str_match_sound in H as (pre & m & rest & caps0 & -> & H & _).
  apply re_ident_op_num_inv in H
    as (w & sp & sp' & ds & -> & _ & _ & _ & Hsp' & [Hd1 Hd2] & _).
  rewrite Hop. apply has_follow_app_r.
  rewrite <- !app_assoc. do 2 apply has_follow_app_r.
  simpl. rewrite N.eqb_refl. simpl.
  destruct ds as [|d ds]; [done|]. inversion Hd2; subst.
  change ((d :: ds) ++ rest) with (d :: ds ++ rest).
  rewrite follows_intro; [done|done|done|by apply digit_not_space].
Qed.

Lemma str_match_num_op_ident_follow s op o caps :
  js op = [o] ->
  str_match s (re_num_op_ident op) = Some caps ->
  has_follow o is_word s = true.
Proof.
  intros Hop H.
  apply str_match_sound in H as (pre & m & rest & caps0 & -> & H & _).
  apply re_num_op_ident_inv in H
    as (w & sp & sp' & ds & -> & Hw1 & Hw2 & _ & Hsp' & _ & _).
  rewrite Hop. apply has_follow_app_r.
  rewrite <- !app_assoc. do 2 apply has_follow_app_r.
  simpl. rewrite N.eqb_refl. simpl.
  destruct w as [|c w]; [done|]. inversion Hw2; subst.
  change ((c :: w) ++ rest) with (c :: w ++ rest).
  rewrite follows_intro; [done|done|done|by apply word_not_space].
Qed.

Lemma str_match_ident_op_num_has s op caps o :
  o ∈ js op ->
  str_match s (re_ident_op_num op) = Some caps -> o ∈ s.
Proof.
  intros Ho H.
  apply str_match_sound in H as (pre & m & rest & caps0 & -> & H & _).
  apply re_ident_op_num_inv in H as (w & sp & sp' & ds & -> & _).
  rewrite !elem_of_app. tauto.
Qed.

Lemma not_elem_of_Forall_ne (o : N) (s : jsstring) :
  Forall (fun c => c <> o) s -> o ∉ s.
Proof.
  intros H Hin. rewrite Forall_forall in H. by apply (H o Hin).
Qed.

Lemma str_match_first s r m caps :
  match_here r s = Some (m, caps) -> str_match s r = Some caps.
Proof. intros H. unfold str_match. by rewrite (search_first _ _ _ H). Qed.

Lemma norm_small z : 0 <= z -> z < safe_bound -> norm z = Num z.
Proof.
  intros H0 H1. unfold norm.
  destruct (Z.ltb_spec z safe_bound); [|lia].
  destruct (Z.ltb_spec (- safe_bound) z); [done|]. unfold safe_bound in *. lia.
Qed.

(** *** The four comparison shapes *)

Lemma no_follow_before_equals o p a b :
  o <> 61%N -> p 61%N = false ->
  Forall (fun c => c <> o) a -> Forall (fun c => c <> o) b ->
  has_follow o p (a ++ [o; 61%N] ++ b) = false.
Proof.
  intros Ho Hp Ha Hb. rewrite has_follow_skip by done.
  change (has_follow o p ([o; 61%N] ++ b))
    with ((N.eqb o o && follows p (61%N :: b))
          || ((N.eqb 61 o && follows p b) || has_follow o p b)).
  assert (follows p (61%N :: b) = false) as -> by exact Hp.
  assert (N.eqb 61 o = false) as -> by (apply N.eqb_neq; congruence).
  rewrite andb_false_r. simpl. by apply has_follow_none.
Qed.

Section Shapes.
Variables w sp sp' ds : jsstring.
Hypothesis Hw : identifier w.
Hypothesis Hsp : spaces sp.
Hypothesis Hsp' : spaces sp'.
Hypothesis Hds : digit_string ds.

Lemma shape_lt :
  extractLimitFromCondition (w ++ sp ++ js "<" ++ sp' ++ ds)
  = Some (parseInt ds).
Proof.
  destruct Hw as [Hw1 Hw2].
  unfold extractLimitFromCondition, re_lt.
  rewrite (str_match_first _ _ _ _
             (match_here_ident_op_num "<" w sp sp' ds
                ltac:(by vm_compute) Hw1 Hw2 Hsp Hsp' Hds)).
  by rewrite group1_of_match.
Qed.

Lemma lt_fails_on_le :
  str_match (w ++ sp ++ js "<=" ++ sp' ++ ds) re_lt = None.
Proof.
  destruct Hw as [Hw1 Hw2]. destruct Hds as [Hd1 Hd2].
  destruct (str_match _ re_lt) as [caps|] eqn:E; [exfalso|done].
  apply (str_match_ident_op_num_follow _ "<" 60%N) in E; [|done].
  change (js "<=" ++ sp' ++ ds) with ([60; 61]%N ++ sp' ++ ds) in E.
  rewrite app_assoc in E.
  rewrite no_follow_before_equals in E; try done.
  - apply Forall_app. split.
    + by apply (class_ne is_word).
    + by apply (class_ne is_space).
  - apply Forall_app. split.
    + by apply (class_ne is_space).
    + by apply (class_ne is_digit).
Qed.

Lemma shape_le :
  extractLimitFromCondition (w ++ sp ++ js "<=" ++ sp' ++ ds)
  = Some (add1 (parseInt ds)).
Proof.
  unfold extractLimitFromCondition. rewrite lt_fails_on_le.
  destruct Hw as [Hw1 Hw2]. unfold re_le.
  rewrite (str_match_first _ _ _ _
             (match_here_ident_op_num "<=" w sp sp' ds
                ltac:(by vm_compute) Hw1 Hw2 Hsp Hsp' Hds)).
  by rewrite group1_of_match.
Qed.

(** No [<] anywhere in [ds sp op sp' w] when [op] has none. *)
Lemma no_less_than op :
  Forall (fun c => c <> 60%N) (js op) ->
  forall r, r = "<"%string \/ r = "<="%string ->
  str_match (ds ++ sp ++ js op ++ sp' ++ w) (re_ident_op_num r) = None.
Proof.
  intros Hop r Hr. destruct Hw as [Hw1 Hw2]. destruct Hds as [Hd1 Hd2].
  destruct (str_match _ (re_ident_op_num r)) as [caps|] eqn:E; [exfalso|done].
  apply (str_match_ident_op_num_has _ _ _ 60%N) in E.
  - revert E. apply not_elem_of_Forall_ne.
    repeat (apply Forall_app; split); try done.
    + by apply (class_ne is_digit).
    + by apply (class_ne is_space).
    + by apply (class_ne is_space).
    + by apply (class_ne is_word).
  - destruct Hr as [-> | ->].
    + change (js "<") with [60%N]. apply elem_of_cons. by left.
    + change (js "<=") with [60%N; 61%N]. apply elem_of_cons. by left.
Qed.

Lemma shape_gt :
  extractLimitFromCondition (ds ++ sp ++ js ">" ++ sp' ++ w)
  = Some (parseInt ds).
Proof.
  unfold extractLimitFromCondition, re_lt, re_le, re_gt.
  rewrite (no_less_than ">") by (auto; by repeat constructor).
  rewrite (no_less_than ">") by (auto; by repeat constructor).
  destruct Hw as [Hw1 Hw2].
  rewrite (str_match_first _ _ _ _
             (match_here_num_op_ident ">" w sp sp' ds
                ltac:(by vm_compute) Hw1 Hw2 Hsp Hsp' Hds)).
  by rewrite group1_of_match.
Qed.

Lemma gt_fails_on_ge :
  str_match (ds ++ sp ++ js ">=" ++ sp' ++ w) re_gt = None.
Proof.
  destruct Hw as [Hw1 Hw2]. destruct Hds as [Hd1 Hd2].
  destruct (str_match _ re_gt) as [caps|] eqn:E; [exfalso|done].
  apply (str_match_num_op_ident_follow _ ">" 62%N) in E; [|done].
  change (js ">=" ++ sp' ++ w) with ([62; 61]%N ++ sp' ++ w) in E.
  rewrite app_assoc in E.
  rewrite no_follow_before_equals in E; try done.
  - apply Forall_app. split.
    + by apply (class_ne is_digit).
    + by apply (class_ne is_space).
  - apply Forall_app. split.
    + by apply (class_ne is_space).
    + by apply (class_ne is_word).
Qed.

Lemma shape_ge :
  extractLimitFromCondition (ds ++ sp ++ js ">=" ++ sp' ++ w)
  = Some (add1 (parseInt ds)).
Proof.
  unfold extractLimitFromCondition, re_lt, re_le.
  rewrite (no_less_than ">=") by (auto; by repeat constructor).
  rewrite (no_less_than ">=") by (auto; by repeat constructor).
  rewrite gt_fails_on_ge.
  destruct Hw as [Hw1 Hw2]. unfold re_ge.
  rewrite (str_match_first _ _ _ _
             (match_here_num_op_ident ">=" w sp sp' ds
                ltac:(by vm_compute) Hw1 Hw2 Hsp Hsp' Hds)).
  by rewrite group1_of_match.
Qed.

End Shapes.

(** C2: each canonical form (the three conditions in a while header, the
    for loop, the assignment) is accepted with limit 50, and so are the
    three conditions on their own by extractLimitFromCondition.  In
    general, for an identifier, optional white space around the operator
    and a decimal numeral N (exactly representable, N + 1 < 2^53):
    IDENT < N yields N, IDENT <= N yields N + 1, N > IDENT yields N and
    N >= IDENT yields N + 1. *)
Theorem C2_extractor_round_trip :
  (accepts "while (treeCount < 50)" 50
   /\ accepts "while (treeCount <= 49)" 50
   /\ accepts "while (50 > treeCount)" 50
   /\ accepts "for(...;i<50;...)" 50
   /\ accepts "for (int i = 0; i < 50; i++)" 50
   /\ accepts "maxTrees = 50" 50)
  /\ (extractLimitFromCondition (js "treeCount < 50") = Some (Num 50)
      /\ extractLimitFromCondition (js "treeCount <= 49") = Some (Num 50)
      /\ extractLimitFromCondition (js "50 > treeCount") = Some (Num 50))
  /\ (forall w sp sp' ds,
        identifier w -> spaces sp -> spaces sp' -> digit_string ds ->
        decimal_value ds + 1 < safe_bound ->
        let N := decimal_value ds in
        extractLimitFromCondition (w ++ sp ++ js "<" ++ sp' ++ ds)
        = Some (Num N)
        /\ extractLimitFromCondition (w ++ sp ++ js "<=" ++ sp' ++ ds)
           = Some (Num (N + 1))
        /\ extractLimitFromCondition (ds ++ sp ++ js ">" ++ sp' ++ w)
           = Some (Num N)
        /\ extractLimitFromCondition (ds ++ sp ++ js ">=" ++ sp' ++ w)
           = Some (Num (N + 1))).
Proof.
  split; [repeat split; vm_compute; reflexivity|].
  split; [repeat split; vm_compute; reflexivity|].
  intros w sp sp' ds Hw Hsp Hsp' Hds Hsafe N.
  pose proof (decimal_value_nonneg ds) as Hnn.
  assert (Hp : parseInt ds = Num N).
  { rewrite parseInt_digits by done. apply norm_small; [done|]. unfold N. lia. }
  assert (Hp1 : add1 (parseInt ds) = Num (N + 1)).
  { rewrite Hp. simpl. apply norm_small; unfold N; lia. }
  rewrite shape_lt, shape_le, shape_gt, shape_ge by done.
  by rewrite Hp1, Hp.
Qed.

Lemma C2_extractor_round_trip_witness :
  (identifier (js "treeCount") /\ spaces (js " ") /\ digit_string (js "49")
   /\ decimal_value (js "49") + 1 < safe_bound)
  /\ extractLimitFromCondition
       (js "treeCount" ++ js " " ++ js "<=" ++ js " " ++ js "49")
     = Some (Num 50)
  /\ extractLimitFromCondition
       (js "49" ++ js " " ++ js ">" ++ js " " ++ js "treeCount")
     = Some (Num 49).
Proof.
  assert (Hw : identifier (js "treeCount"))
    by (split; [done|repeat constructor]).
  assert (Hsp : spaces (js " ")) by (repeat constructor).
  assert (Hds : digit_string (js "49")) by (split; [done|repeat constructor]).
  assert (Hsafe : decimal_value (js "49") + 1 < safe_bound)
    by (vm_compute; reflexivity).
  destruct (proj2 (proj2 C2_extractor_round_trip) _ _ _ _ Hw Hsp Hsp Hds
              Hsafe) as (_ & Hle & Hgt & _).
  split; [done|]. split; [exact Hle|exact Hgt].
Defined.

End MatcherFacts.

(** ** Comments in the student code *)

Section Comments.
Import JS Regex CodeExecutor.

Lemma replace_all_go_sublist r s : forall n, sublist (replace_all_go r n s) s.
Proof.
  induction s as [|c s IH]; intros n; simpl; [constructor|].
  destruct n as [|n]; [|by apply sublist_cons].
  destruct (match_here r (c :: s)) as [[rest caps]|].
  - destruct (_ - _)%nat; [by apply sublist_skip|by apply sublist_cons].
  - by apply sublist_skip.
Qed.

Lemma replace_all_go_skip r m rest :
  replace_all_go r (length m) (m ++ rest) = replace_all_go r 0 rest.
Proof.
  induction m as [|c m IH]; simpl; [|exact IH].
  destruct rest; reflexivity.
Qed.

Lemma replace_all_go_match r m rest caps :
  m <> [] -> match_here r (m ++ rest) = Some (rest, caps) ->
  replace_all_go r 0 (m ++ rest) = replace_all_go r 0 rest.
Proof.
  intros Hm H. destruct m as [|c m]; [done|].
  change ((c :: m) ++ rest) with (c :: (m ++ rest)) in *.
  cbn [replace_all_go]. rewrite H.
  replace (length (c :: m ++ rest) - length rest)%nat with (S (length m))
    by (simpl; rewrite length_app; lia).
  apply replace_all_go_skip.
Qed.

Lemma replace_all_go_keep r c s :
  match_here r (c :: s) = None ->
  replace_all_go r 0 (c :: s) = c :: replace_all_go r 0 s.
Proof. intros H. cbn [replace_all_go]. by rewrite H. Qed.

Lemma run_lit_list_mismatch {A} c0 l c s caps
    (k : jsstring -> captures -> option A) :
  c0 <> c -> run (lit_list (c0 :: l)) (c :: s) caps k = None.
Proof.
  intros Hc. unfold lit_list. cbn [fold_right run lit_char].
  destruct (N.eqb_spec c0 c); [congruence|done].
Qed.

Lemma run_lit_list_end {A} c0 l caps (k : jsstring -> captures -> option A) :
  run (lit_list (c0 :: l)) [] caps k = None.
Proof. reflexivity. Qed.

Lemma line_comment_needs_slash c s :
  c <> 47%N -> match_here re_line_comment (c :: s) = None.
Proof.
  intros Hc. unfold match_here, re_line_comment.
  rewrite run_Group, run_Seq.
  change (Lit "//") with (lit_list [47; 47]%N).
  apply run_lit_list_mismatch. congruence.
Qed.

Lemma block_comment_needs_slash c s :
  c <> 47%N -> match_here re_block_comment (c :: s) = None.
Proof.
  intros Hc. unfold match_here, re_block_comment.
  rewrite run_Group, run_Seq.
  change (Lit "/*") with (lit_list [47; 42]%N).
  apply run_lit_list_mismatch. congruence.
Qed.

Lemma line_comment_needs_two s :
  no_leading_slash s -> match_here re_line_comment (47%N :: s) = None.
Proof.
  intros Hs. unfold match_here, re_line_comment.
  rewrite run_Group, run_Seq.
  change (Lit "//") with (Seq (lit_char 47) (lit_list [47%N])).
  rewrite run_Seq. cbn [run lit_char]. rewrite N.eqb_refl.
  destruct s as [|c s]; [reflexivity|].
  apply run_lit_list_mismatch. simpl in Hs. congruence.
Qed.

Lemma line_pass_prefix a s :
  slash_free a ->
  replace_all_go re_line_comment 0 (a ++ s)
  = a ++ replace_all_go re_line_comment 0 s.
Proof.
  induction 1 as [|c a Hc _ IH]; [done|].
  change ((c :: a) ++ s) with (c :: (a ++ s)).
  rewrite replace_all_go_keep by by apply line_comment_needs_slash.
  by rewrite IH.
Qed.

Lemma block_pass_prefix a s :
  slash_free a ->
  replace_all_go re_block_comment 0 (a ++ s)
  = a ++ replace_all_go re_block_comment 0 s.
Proof.
  induction 1 as [|c a Hc _ IH]; [done|].
  change ((c :: a) ++ s) with (c :: (a ++ s)).
  rewrite replace_all_go_keep by by apply block_comment_needs_slash.
  by rewrite IH.
Qed.

Lemma stripComments_prefix a s :
  slash_free a -> stripComments (a ++ s) = a ++ stripComments s.
Proof.
  intros Ha. unfold stripComments, replace_all.
  by rewrite line_pass_prefix, block_pass_prefix.
Qed.

Lemma match_here_line_comment t rest :
  one_line t -> at_eol rest ->
  exists caps,
    match_here re_line_comment (js "//" ++ t ++ rest) = Some (rest, caps).
Proof.
  intros Ht Hrest. unfold match_here, re_line_comment.
  rewrite run_Group, run_Seq, run_Lit, run_Seq.
  eexists. eapply run_Star_all.
  - eapply Forall_impl; [exact Ht|]. intros c Hc. unfold is_dot. by rewrite Hc.
  - destruct rest as [|c rest]; simpl; [done|].
    simpl in Hrest. unfold is_dot. by rewrite Hrest.
  - simpl. destruct rest as [|c rest]; [reflexivity|].
    simpl in Hrest. rewrite Hrest. reflexivity.
Qed.

Lemma is_any_true c : is_any c = true.
Proof. unfold is_any. by destruct (is_space c). Qed.

Lemma star_lazy_first {A} p m rest (k : jsstring -> option A) res :
  Forall (fun c => p c = true) m ->
  (forall m1 c m2, m = m1 ++ c :: m2 -> k (c :: m2 ++ rest) = None) ->
  k rest = Some res ->
  star_lazy p (m ++ rest) k = Some res.
Proof.
  intros Hp. revert k. induction Hp as [|c m Hc _ IH]; intros k Hfail Hk.
  - destruct rest; simpl; by rewrite Hk.
  - change ((c :: m) ++ rest) with (c :: (m ++ rest)).
    cbn [star_lazy]. rewrite (Hfail [] c m eq_refl), Hc.
    apply IH; [|done].
    intros m1 c' m2 ->. by apply (Hfail (c :: m1) c' m2).
Qed.

Lemma block_end_not_here {A} c m rest caps
    (k : jsstring -> captures -> option A) :
  slash_free (c :: m) ->
  run (Lit "*/") (c :: m ++ js "*/" ++ rest) caps k = None.
Proof.
  intros H. inversion H as [|? ? Hc Hm]; subst.
  destruct (N.eqb_spec 42 c) as [<-|Hne].
  - change (Lit "*/") with (Seq (lit_char 42) (lit_list [47%N])).
    rewrite run_Seq. cbn [run lit_char]. rewrite N.eqb_refl.
    destruct m as [|d m].
    + apply run_lit_list_mismatch. done.
    + apply run_lit_list_mismatch. inversion Hm; subst. congruence.
  - change (Lit "*/") with (lit_list [42; 47]%N).
    by apply run_lit_list_mismatch.
Qed.

Lemma match_here_block_comment t rest :
  slash_free t ->
  exists caps,
    match_here re_block_comment (js "/*" ++ t ++ js "*/" ++ rest)
    = Some (rest, caps).
Proof.
  intros Ht. unfold match_here, re_block_comment.
  rewrite run_Group, run_Seq, run_Lit, run_Seq.
  eexists. cbn [run]. apply star_lazy_first.
  - apply Forall_forall. intros; apply is_any_true.
  - intros m1 c m2 ->. apply block_end_not_here.
    apply Forall_app in Ht as [_ Ht]. exact Ht.
  - rewrite run_Lit. reflexivity.
Qed.

(** X1: stripComments only deletes: what it returns is the text with some code
    units left out, in order; a text without a slash comes back as it
    is. *)
Theorem stripComments_only_deletes code :
  sublist (stripComments code) code
  /\ (slash_free code -> stripComments code = code).
Proof.
  split.
  - unfold stripComments, replace_all.
    etrans; apply replace_all_go_sublist.
  - intros H. rewrite <- (app_nil_r code) at 1.
    rewrite stripComments_prefix by done. by rewrite app_nil_r.
Qed.

Lemma stripComments_only_deletes_witness :
  slash_free (js "while (n < 5) { }")
  /\ stripComments (js "while (n < 5) { }") = js "while (n < 5) { }".
Proof.
  assert (slash_free (js "while (n < 5) { }")) as H.
  { unfold slash_free. repeat constructor; done. }
  split; [exact H|]. exact (proj2 (stripComments_only_deletes _) H).
Defined.

(** X2: A line comment after text that holds no slash is ignored: the
    extractor reads the text as if the comment, up to the end of its
    line, were not there. *)
Theorem line_comment_ignored a t rest :
  slash_free a -> one_line t -> at_eol rest ->
  stripComments (a ++ js "//" ++ t ++ rest) = stripComments (a ++ rest)
  /\ parseStudentCode (a ++ js "//" ++ t ++ rest)
     = parseStudentCode (a ++ rest).
Proof.
  intros Ha Ht Hrest.
  assert (stripComments (a ++ js "//" ++ t ++ rest)
          = stripComments (a ++ rest)) as E.
  { rewrite !(stripComments_prefix a) by done. f_equal.
    unfold stripComments, replace_all. f_equal.
    destruct (match_here_line_comment t rest Ht Hrest) as [caps Hm].
    rewrite (app_assoc (js "//")) in *.
    eapply replace_all_go_match; [|exact Hm]. done. }
  split; [exact E|]. unfold parseStudentCode. by rewrite E.
Qed.

Lemma line_comment_ignored_witness :
  (slash_free (js "while (n < 5) ") /\ one_line (js " five trees")
   /\ at_eol [])
  /\ parseStudentCode (js "while (n < 5) " ++ js "//" ++ js " five trees" ++ [])
     = parseStudentCode (js "while (n < 5) " ++ []).
Proof.
  assert (slash_free (js "while (n < 5) ")) as Ha
    by (unfold slash_free; repeat constructor; done).
  assert (one_line (js " five trees")) as Ht
    by (unfold one_line; repeat constructor; done).
  split; [by repeat split|].
  exact (proj2 (line_comment_ignored _ _ [] Ha Ht I)).
Defined.

(** X3: A block comment is ignored when neither the text before it nor the
    comment itself holds a slash and the text after it does not begin
    with one (a slash right after the comment would open a line comment
    that swallows the end of the block). *)
Theorem block_comment_ignored a t rest :
  slash_free a -> slash_free t -> no_leading_slash rest ->
  stripComments (a ++ js "/*" ++ t ++ js "*/" ++ rest)
  = stripComments (a ++ rest)
  /\ parseStudentCode (a ++ js "/*" ++ t ++ js "*/" ++ rest)
     = parseStudentCode (a ++ rest).
Proof.
  intros Ha Ht Hrest.
  assert (stripComments (a ++ js "/*" ++ t ++ js "*/" ++ rest)
          = stripComments (a ++ rest)) as E.
  { rewrite !(stripComments_prefix a) by done. f_equal.
    unfold stripComments, replace_all.
    assert (replace_all_go re_line_comment 0
              (js "/*" ++ t ++ js "*/" ++ rest)
            = js "/*" ++ t ++ js "*/"
              ++ replace_all_go re_line_comment 0 rest) as ->.
    { change (js "/*" ++ t ++ js "*/" ++ rest)
        with (47%N :: 42%N :: (t ++ 42%N :: 47%N :: rest)).
      rewrite replace_all_go_keep by (by apply line_comment_needs_two).
      rewrite replace_all_go_keep by (by apply line_comment_needs_slash).
      rewrite line_pass_prefix by done.
      rewrite replace_all_go_keep by (by apply line_comment_needs_slash).
      rewrite replace_all_go_keep by (by apply line_comment_needs_two).
      reflexivity. }
    destruct (match_here_block_comment t
                (replace_all_go re_line_comment 0 rest) Ht) as [caps Hm].
    rewrite (app_assoc (js "/*")), (app_assoc (js "/*" ++ t)) in *.
    eapply replace_all_go_match; [|exact Hm]. done. }
  split; [exact E|]. unfold parseStudentCode. by rewrite E.
Qed.

Lemma block_comment_ignored_witness :
  (slash_free (js "while (n ") /\ slash_free (js " count ")
   /\ no_leading_slash (js "< 5) { }"))
  /\ parseStudentCode
       (js "while (n " ++ js "/*" ++ js " count " ++ js "*/" ++ js "< 5) { }")
     = parseStudentCode (js "while (n " ++ js "< 5) { }").
Proof.
  assert (slash_free (js "while (n ")) as Ha
    by (unfold slash_free; repeat constructor; done).
  assert (slash_free (js " count ")) as Ht
    by (unfold slash_free; repeat constructor; done).
  assert (no_leading_slash (js "< 5) { }")) as Hr by done.
  split; [by repeat split|].
  exact (proj2 (block_comment_ignored _ _ _ Ha Ht Hr)).
Defined.

End Comments.

(** ** The profiler panel, the graph and reset *)

Section Panel.
Import JS VisualProfiler.

Lemma updateUI_without_panel p :
  has_panel p = false -> updateUI p = Some p.
Proof. intros H. unfold updateUI. by rewrite H. Qed.

Lemma updateUI_spec p p' :
  has_panel p = true -> updateUI p = Some p' ->
  let m := metrics p in
  let n := graphUpdateCounter p + 1 in
  exists wf wm wd,
    dom p' = dom p ++ wf ++ wm ++ wd
             ++ [WriteStats (triangles m) (geometries m)]
             ++ (if (3 <=? n) && has_graph p
                 then [DrawGraph (drawGraph_samples p)] else [])
    /\ (if bool_decide (prev_fps p = Some (fps m)) then wf = []
        else exists h, wf = [WriteFps (fps m) h])
    /\ (if bool_decide (prev_memory p = Some (memory m)) then wm = []
        else exists h, wm = [WriteMemory (memory m) h])
    /\ (if bool_decide (prev_dc p = Some (drawCalls m)) then wd = []
        else exists h, wd = [WriteDrawCalls (drawCalls m) h])
    /\ prev_fps p' = Some (fps m)
    /\ prev_memory p' = Some (memory m)
    /\ prev_dc p' = Some (drawCalls m)
    /\ graphUpdateCounter p' = (if 3 <=? n then 0 else n)
    /\ frameCount p' = frameCount p /\ lastFpsTime p' = lastFpsTime p
    /\ has_panel p' = true /\ has_graph p' = has_graph p.
Proof.
  intros Hpanel H. unfold updateUI in H. rewrite Hpanel in H.
  cbn [negb] in H. cbv zeta in H.
  apply bind_Some in H as (p1 & H1 & H).
  apply bind_Some in H as (p2 & H2 & H).
  apply bind_Some in H as (p3 & H3 & H).
  assert (exists wf,
    dom p1 = dom p ++ wf
    /\ (if bool_decide (prev_fps p = Some (fps (metrics p))) then wf = []
        else exists h, wf = [WriteFps (fps (metrics p)) h])
    /\ prev_fps p1 = Some (fps (metrics p))
    /\ prev_memory p1 = prev_memory p /\ prev_dc p1 = prev_dc p
    /\ graphUpdateCounter p1 = graphUpdateCounter p
    /\ frameCount p1 = frameCount p /\ lastFpsTime p1 = lastFpsTime p
    /\ has_panel p1 = has_panel p /\ has_graph p1 = has_graph p
    /\ fpsHistory p1 = fpsHistory p /\ historyIndex p1 = historyIndex p)
    as (wf & D1 & W1 & F1).
  { clear H2 H3 H.
    destruct (decide (prev_fps p = Some (fps (metrics p)))) as [E|E];
      [rewrite bool_decide_eq_true_2 in H1 |- * by done
      |rewrite bool_decide_eq_false_2 in H1 |- * by done].
    - injection H1 as <-. exists []. rewrite app_nil_r. done.
    - apply bind_Some in H1 as (h & _ & H1). injection H1 as <-.
      exists [WriteFps (fps (metrics p)) h]. simpl.
      rewrite ?Hpanel. repeat split; eauto. }
  assert (exists wm,
    dom p2 = dom p1 ++ wm
    /\ (if bool_decide (prev_memory p1 = Some (memory (metrics p)))
        then wm = []
        else exists h, wm = [WriteMemory (memory (metrics p)) h])
    /\ prev_memory p2 = Some (memory (metrics p))
    /\ prev_fps p2 = prev_fps p1 /\ prev_dc p2 = prev_dc p1
    /\ graphUpdateCounter p2 = graphUpdateCounter p1
    /\ frameCount p2 = frameCount p1 /\ lastFpsTime p2 = lastFpsTime p1
    /\ has_panel p2 = has_panel p1 /\ has_graph p2 = has_graph p1
    /\ fpsHistory p2 = fpsHistory p1 /\ historyIndex p2 = historyIndex p1)
    as (wm & D2 & W2 & F2).
  { clear H1 H3 H.
    destruct (decide (prev_memory p1 = Some (memory (metrics p)))) as [E|E];
      [rewrite bool_decide_eq_true_2 in H2 |- * by done
      |rewrite bool_decide_eq_false_2 in H2 |- * by done].
    - injection H2 as <-. exists []. rewrite app_nil_r. done.
    - apply bind_Some in H2 as (h & _ & H2). injection H2 as <-.
      exists [WriteMemory (memory (metrics p)) h]. simpl.
      repeat split; eauto. }
  assert (exists wd,
    dom p3 = dom p2 ++ wd
    /\ (if bool_decide (prev_dc p2 = Some (drawCalls (metrics p)))
        then wd = []
        else exists h, wd = [WriteDrawCalls (drawCalls (metrics p)) h])
    /\ prev_dc p3 = Some (drawCalls (metrics p))
    /\ prev_fps p3 = prev_fps p2 /\ prev_memory p3 = prev_memory p2
    /\ graphUpdateCounter p3 = graphUpdateCounter p2
    /\ frameCount p3 = frameCount p2 /\ lastFpsTime p3 = lastFpsTime p2
    /\ has_panel p3 = has_panel p2 /\ has_graph p3 = has_graph p2
    /\ fpsHistory p3 = fpsHistory p2 /\ historyIndex p3 = historyIndex p2)
    as (wd & D3 & W3 & F3).
  { clear H1 H2 H.
    destruct (decide (prev_dc p2 = Some (drawCalls (metrics p)))) as [E|E];
      [rewrite bool_decide_eq_true_2 in H3 |- * by done
      |rewrite bool_decide_eq_false_2 in H3 |- * by done].
    - injection H3 as <-. exists []. rewrite app_nil_r. done.
    - apply bind_Some in H3 as (h & _ & H3). injection H3 as <-.
      exists [WriteDrawCalls (drawCalls (metrics p)) h]. simpl.
      repeat split; eauto. }
  destruct F1 as (? & E12 & E13 & ? & ? & ? & ? & ? & ? & ?).
  destruct F2 as (? & ? & E23 & ? & ? & ? & ? & ? & ? & ?).
  destruct F3 as (? & ? & ? & ? & ? & ? & ? & ? & ? & ?).
  rewrite E12 in W2. rewrite E23, E13 in W3.
  exists wf, wm, wd.
  assert (graphUpdateCounter p3 = graphUpdateCounter p) as Hc by congruence.
  assert (has_graph p3 = has_graph p) as Hg by congruence.
  assert (drawGraph_samples p3 = drawGraph_samples p) as Hs.
  { unfold drawGraph_samples.
    replace (fpsHistory p3) with (fpsHistory p) by congruence.
    replace (historyIndex p3) with (historyIndex p) by congruence. done. }
  injection H as <-. rewrite Hc.
  destruct (3 <=? graphUpdateCounter p + 1) eqn:E4; simpl.
  - unfold drawGraph. cbn [has_graph push_dom]. rewrite Hg.
    destruct (has_graph p) eqn:E5; simpl.
    + change (drawGraph_samples (push_dom _ p3))
        with (drawGraph_samples p3).
      rewrite Hs, D3, D2, D1, <- !app_assoc. simpl.
      repeat split; try done; congruence.
    + rewrite D3, D2, D1, <- !app_assoc.
      repeat split; try done; congruence.
  - rewrite D3, D2, D1, <- !app_assoc.
    repeat split; try done; congruence.
Qed.

Ltac case_write W :=
  match type of W with
  | (if ?b then _ else _) => destruct b; [subst|destruct W as [? ->]]
  end.

Lemma sample_panel host p :
  dom (sample host p) = dom p /\ prev_fps (sample host p) = prev_fps p
  /\ has_panel (sample host p) = has_panel p
  /\ has_graph (sample host p) = has_graph p
  /\ graphUpdateCounter (sample host p) = graphUpdateCounter p
  /\ thresholds (sample host p) = thresholds p.
Proof. done. Qed.

Lemma omap_all_None {A B} (f : A -> option B) l :
  Forall (fun x => f x = None) l -> omap f l = [].
Proof. induction 1 as [|x l Hx _ IH]; simpl; [done|]. by rewrite Hx. Qed.

Lemma filter_all_false {A} (f : A -> bool) l :
  Forall (fun x => f x = false) l -> List.filter f l = [].
Proof. induction 1 as [|x l Hx _ IH]; simpl; [done|]. by rewrite Hx. Qed.

Lemma fps_writes_app p p' wf wm wd ws wg :
  dom p' = dom p ++ wf ++ wm ++ wd ++ [ws] ++ wg ->
  Forall (fun w => fps_write w = None) (wm ++ wd ++ [ws] ++ wg) ->
  fps_writes p' = fps_writes p ++ omap fps_write wf.
Proof.
  intros E H. unfold fps_writes. rewrite E, omap_app, omap_app.
  rewrite (omap_all_None _ _ H). by rewrite app_nil_r.
Qed.

Lemma no_repeat_snoc l v :
  no_repeat l -> last l <> Some v -> no_repeat (l ++ [v]).
Proof.
  induction l as [|a [|b l] IH]; simpl; intros Hl Hv; [done| |].
  - split; [congruence|done].
  - destruct Hl as [Hab Hl]. split; [done|]. apply IH; done.
Qed.

(** What a tick does to the panel. *)
Lemma tick_panel host p p' :
  has_panel p = true -> sampleMetrics host p = Some p' ->
  has_panel p' = true /\ has_graph p' = has_graph p
  /\ prev_fps p' = Some (fps (metrics p'))
  /\ fps_writes p'
     = fps_writes p
       ++ (if bool_decide (prev_fps p = Some (fps (metrics p'))) then []
           else [fps (metrics p')])
  /\ graphUpdateCounter p'
     = (if 3 <=? graphUpdateCounter p + 1 then 0
        else graphUpdateCounter p + 1)
  /\ graph_draws p'
     = (graph_draws p
        + (if (3 <=? graphUpdateCounter p + 1)%Z && has_graph p
           then 1 else 0))%nat.
Proof.
  intros Hpanel H. unfold sampleMetrics in H.
  pose proof (updateUI_keeps _ _ H) as (Hm & _).
  destruct (sample_panel host p) as (Hd & Hp & Hhp & Hg & Hc & _).
  rewrite <- Hhp in Hpanel.
  destruct (updateUI_spec _ _ Hpanel H)
    as (wf & wm & wd & Hdom & Wf & Wm & Wd & Pf & _ & _ & Gc & _ & _ & Hp' & Hg').
  rewrite Hm. rewrite Hp, Hc, Hg in *.
  split; [done|]. split; [done|]. split; [done|].
  assert (Forall (fun w => fps_write w = None)
            (wm ++ wd ++ [WriteStats (triangles (metrics (sample host p)))
                            (geometries (metrics (sample host p)))]
             ++ (if (3 <=? graphUpdateCounter p + 1) && has_graph p
                 then [DrawGraph (drawGraph_samples (sample host p))]
                 else []))) as Hnone.
  { repeat apply Forall_app_2.
    - case_write Wm; by repeat constructor.
    - case_write Wd; by repeat constructor.
    - by repeat constructor.
    - destruct (_ && _); by repeat constructor. }
  split; [|split; [done|]].
  - rewrite (fps_writes_app _ _ _ _ _ _ _ Hdom Hnone).
    unfold fps_writes at 1. rewrite Hd. f_equal.
    case_write Wf; done.
  - unfold graph_draws. rewrite Hdom, Hd.
    rewrite !List.filter_app, !length_app.
    rewrite (filter_all_false _ wf), (filter_all_false _ wm),
      (filter_all_false _ wd).
    + simpl. destruct (_ && _); simpl; lia.
    + case_write Wd; by repeat constructor.
    + case_write Wm; by repeat constructor.
    + case_write Wf; by repeat constructor.
Qed.

Lemma getHealth_configured q k v :
  thresholds q = default_thresholds ->
  k = "fps"%string \/ k = "memory"%string \/ k = "drawCalls"%string ->
  exists h, getHealth q k v = Some h.
Proof.
  intros Ht Hk. unfold getHealth. rewrite Ht.
  destruct Hk as [-> | [-> | ->]]; vm_compute (default_thresholds !! _);
    simpl; eauto.
Qed.

Lemma stage_total (b : bool) (x : Profiler) (g : option Health)
    (f : Health -> Profiler) :
  (exists h, g = Some h) -> (forall h, thresholds (f h) = thresholds x) ->
  exists y, (if b then Some x else g ≫= fun h => Some (f h)) = Some y
            /\ thresholds y = thresholds x.
Proof.
  intros [h ->] Hf. destruct b; simpl; eauto.
Qed.

Lemma updateUI_total p :
  thresholds p = default_thresholds -> exists p', updateUI p = Some p'.
Proof.
  intros Ht. unfold updateUI. destruct (has_panel p); simpl; [|eauto].
  match goal with
  | |- exists _, (if ?b then Some ?x else ?g ≫= ?k) ≫= _ = _ =>
      destruct (stage_total b x g (fun h => match k h with Some y => y | None => x end))
        as (p1 & H1 & T1);
        [apply getHealth_configured; auto|done|]
  end.
  simpl in H1. rewrite H1. simpl.
  match goal with
  | |- exists _, (if ?b then Some ?x else ?g ≫= ?k) ≫= _ = _ =>
      destruct (stage_total b x g (fun h => match k h with Some y => y | None => x end))
        as (p2 & H2 & T2);
        [apply getHealth_configured; [congruence|auto]|done|]
  end.
  simpl in H2. rewrite H2. simpl.
  match goal with
  | |- exists _, (if ?b then Some ?x else ?g ≫= ?k) ≫= _ = _ =>
      destruct (stage_total b x g (fun h => match k h with Some y => y | None => x end))
        as (p3 & H3 & T3);
        [apply getHealth_configured; [congruence|auto]|done|]
  end.
  simpl in H3. rewrite H3. simpl. eauto.
Qed.

Lemma run_total acts : forall p,
  thresholds p = default_thresholds -> exists p', run acts p = Some p'.
Proof.
  induction acts as [|a acts IH]; intros p Ht; simpl; [eauto|].
  destruct a as [|host]; simpl.
  - apply IH. done.
  - destruct (updateUI_total (sample host p) Ht) as [p1 H1].
    unfold sampleMetrics. rewrite H1. simpl. apply IH.
    apply updateUI_keeps in H1 as (_ & _ & _ & ->). done.
Qed.

Lemma step_thresholds a p p' :
  step a p = Some p' -> thresholds p' = thresholds p.
Proof.
  destruct a as [|host]; simpl; intros H.
  - by injection H as <-.
  - unfold sampleMetrics in H.
    by apply updateUI_keeps in H as (_ & _ & _ & ->).
Qed.

(** The panel invariant: the cache of the last written frame rate is the
    last frame rate written, and no value was written twice in a row. *)
Lemma step_panel a p p' :
  has_panel p = true -> prev_fps p = last (fps_writes p) ->
  no_repeat (fps_writes p) -> step a p = Some p' ->
  has_panel p' = true /\ prev_fps p' = last (fps_writes p')
  /\ no_repeat (fps_writes p')
  /\ match a with
     | Tick _ => prev_fps p' = Some (fps (metrics p'))
     | Frame => metrics p' = metrics p /\ prev_fps p' = prev_fps p
     end.
Proof.
  intros Hp Hprev Hnr H. destruct a as [|host]; simpl in H.
  - injection H as <-. done.
  - destruct (tick_panel _ _ _ Hp H) as (Hp' & _ & Hprev' & Hw & _).
    split; [done|]. rewrite Hw, Hprev'.
    case_bool_decide as E; simpl.
    + rewrite app_nil_r. split; [congruence|]. done.
    + rewrite last_snoc. split; [done|]. split; [|done].
      apply no_repeat_snoc; [done|congruence].
Qed.

Lemma run_panel acts : forall p p',
  has_panel p = true -> prev_fps p = last (fps_writes p) ->
  no_repeat (fps_writes p) -> run acts p = Some p' ->
  has_panel p' = true /\ prev_fps p' = last (fps_writes p')
  /\ no_repeat (fps_writes p')
  /\ (prev_fps p = Some (fps (metrics p)) \/ (0 < ticks acts)%nat ->
      prev_fps p' = Some (fps (metrics p'))).
Proof.
  induction acts as [|a acts IH]; intros p p' Hp Hprev Hnr H; simpl in H.
  - injection H as <-. repeat split; try done. intros [?|?]; [done|simpl in *; lia].
  - destruct (step a p) as [p1|] eqn:Hs; [|done]. simpl in H.
    destruct (step_panel _ _ _ Hp Hprev Hnr Hs) as (Hp1 & Hprev1 & Hnr1 & Ha).
    destruct (IH _ _ Hp1 Hprev1 Hnr1 H) as (? & ? & ? & Hk).
    repeat split; try done. intros Hor. apply Hk.
    destruct a as [|host]; [|by left].
    destruct Ha as [-> ->]. simpl in Hor. done.
Qed.

(** The graph counter: after [n] ticks on a panel with a graph the graph
    has been drawn [n / 3] times. *)
Lemma run_graph acts : forall p p' q r,
  has_panel p = true -> has_graph p = true ->
  graph_draws p = q -> graphUpdateCounter p = Z.of_nat r -> (r < 3)%nat ->
  run acts p = Some p' ->
  exists q' r',
    (3 * q' + r' = 3 * q + r + ticks acts)%nat /\ (r' < 3)%nat
    /\ graph_draws p' = q' /\ graphUpdateCounter p' = Z.of_nat r'.
Proof.
  induction acts as [|a acts IH]; intros p p' q r Hp Hg Hq Hr Hlt H;
    simpl in H.
  - injection H as <-. exists q, r. simpl. repeat split; try done; lia.
  - destruct (step a p) as [p1|] eqn:Hs; [|done]. simpl in H.
    destruct a as [|host]; simpl in Hs.
    + injection Hs as <-.
      destruct (IH (update p) _ q r Hp Hg Hq Hr Hlt H)
        as (q' & r' & ? & ? & ? & ?).
      exists q', r'. simpl. done.
    + destruct (tick_panel _ _ _ Hp Hs) as (Hp1 & Hg1 & _ & _ & Hc & Hd).
      rewrite Hg in Hg1. rewrite Hg, Hr, Hq in Hd. rewrite Hr in Hc.
      destruct (3 <=? Z.of_nat r + 1) eqn:E.
      * apply Z.leb_le in E. simpl in Hd.
        destruct (IH _ _ (q + 1)%nat 0%nat Hp1 Hg1 Hd Hc ltac:(lia) H)
          as (q' & r' & ? & ? & ? & ?).
        exists q', r'. simpl. repeat split; try done; lia.
      * apply Z.leb_gt in E. simpl in Hd.
        destruct (IH _ _ q (r + 1)%nat Hp1 Hg1 ltac:(lia) ltac:(lia)
                    ltac:(lia) H) as (q' & r' & ? & ? & ? & ?).
        exists q', r'. simpl. repeat split; try done; lia.
Qed.

Lemma run_without_panel acts : forall p p',
  has_panel p = false -> run acts p = Some p' ->
  dom p' = dom p /\ has_panel p' = false.
Proof.
  induction acts as [|a acts IH]; intros p p' Hp H; simpl in H.
  - by injection H as <-.
  - destruct (step a p) as [p1|] eqn:Hs; [|done]. simpl in H.
    destruct a as [|host]; simpl in Hs.
    + injection Hs as <-. apply (IH (update p) _ Hp H).
    + unfold sampleMetrics in Hs.
      rewrite updateUI_without_panel in Hs by done.
      injection Hs as <-. apply (IH (sample host p) _ Hp H).
Qed.

End Panel.

Section PanelTheorems.
Import JS VisualProfiler.

(** X4: Sampling never throws: on a profiler made by the constructor, with or
    without a panel, every run of frames and timer ticks goes through,
    whatever the host answers, and getMetrics() then returns a report; the
    TypeError of getHealth on an unknown metric is out of reach. *)
Theorem sampling_never_throws b t0 acts :
  exists p,
    run acts (init b (constructor t0)) = Some p
    /\ thresholds p = default_thresholds
    /\ exists report, getMetrics p = Some report.
Proof.
  destruct (run_total acts (init b (constructor t0)) eq_refl) as [p Hrun].
  exists p. split; [done|].
  assert (thresholds p = default_thresholds) as Ht.
  { by rewrite (run_thresholds _ _ _ Hrun). }
  split; [done|]. unfold getMetrics.
  destruct (getHealth_configured p "fps" (fps (metrics p)) Ht) as [hf ->];
    [auto|].
  destruct (getHealth_configured p "memory"
              (default 0 (memory (metrics p))) Ht) as [hm ->]; [auto|].
  destruct (getHealth_configured p "drawCalls" (drawCalls (metrics p)) Ht)
    as [hd ->]; [auto|].
  simpl. eauto.
Qed.

(** X5: The panel skips unchanged values: over any run, the frame rates
    written to the panel never repeat a value twice in a row, and once a
    tick has happened the last one written is the current frame rate. *)
Theorem panel_skips_unchanged t0 acts p :
  run acts (init true (constructor t0)) = Some p ->
  no_repeat (fps_writes p)
  /\ ((0 < ticks acts)%nat -> last (fps_writes p) = Some (fps (metrics p))).
Proof.
  intros Hrun.
  destruct (run_panel acts (init true (constructor t0)) p) as (_ & E & Hnr & Hk);
    try done.
  split; [done|]. intros Ht. rewrite <- E. apply Hk. by right.
Qed.

Lemma panel_skips_unchanged_witness :
  run three_ticks (init true (constructor 0)) = Some after_three_ticks
  /\ fps_writes after_three_ticks = [60; 30]
  /\ no_repeat (fps_writes after_three_ticks).
Proof.
  assert (run three_ticks (init true (constructor 0))
          = Some after_three_ticks) as Hrun by (vm_compute; reflexivity).
  split; [exact Hrun|]. split; [vm_compute; reflexivity|].
  exact (proj1 (panel_skips_unchanged 0 three_ticks after_three_ticks Hrun)).
Defined.

(** X6: The graph is redrawn on every third tick: after [n] ticks on a panel
    the graph has been drawn [n / 3] times and the counter stands at
    [n mod 3].  Without a panel nothing is ever written. *)
Theorem graph_every_third_tick t0 acts p :
  (run acts (init true (constructor t0)) = Some p ->
   graph_draws p = (ticks acts / 3)%nat
   /\ graphUpdateCounter p = Z.of_nat (ticks acts mod 3))
  /\ (run acts (init false (constructor t0)) = Some p -> dom p = []).
Proof.
  split; intros Hrun.
  - destruct (run_graph acts (init true (constructor t0)) p 0%nat 0%nat)
      as (q' & r' & Hsum & Hlt & -> & ->); try done; [lia|].
    split; [|f_equal].
    + apply (Nat.div_unique _ 3 q' r'); lia.
    + apply (Nat.mod_unique _ 3 q' r'); lia.
  - by destruct (run_without_panel acts (init false (constructor t0)) p
                  eq_refl Hrun) as [-> _].
Qed.

Lemma graph_every_third_tick_witness :
  run three_ticks (init true (constructor 0)) = Some after_three_ticks
  /\ graph_draws after_three_ticks = (ticks three_ticks / 3)%nat
  /\ ticks three_ticks = 3%nat.
Proof.
  assert (run three_ticks (init true (constructor 0))
          = Some after_three_ticks) as Hrun by (vm_compute; reflexivity).
  split; [exact Hrun|]. split; [|vm_compute; reflexivity].
  exact (proj1 (proj1 (graph_every_third_tick 0 three_ticks
                         after_three_ticks) Hrun)).
Defined.

Lemma map_const_replicate {A B} (x : B) (l : list A) :
  map (fun _ => x) l = replicate (length l) x.
Proof. induction l as [|a l IH]; simpl; [done|]. by rewrite IH. Qed.

Lemma run_history_length b t0 acts p :
  run acts (init b (constructor t0)) = Some p ->
  length (fpsHistory p) = 60%nat.
Proof.
  intros Hrun.
  by destruct (run_ring_inv _ _ _ _ Hrun (init_ring_inv b t0)) as (Hl & _).
Qed.

(** X7: reset() puts the history back to sixty slots of 60 with the cursor and
    the frame counter at 0, so the graph reads a flat line again; it keeps
    the last sample (getMetrics still reports it), and it forgets what the
    panel shows, so that the next tick writes all three figures again. *)
Theorem reset_restores_history b t0 acts p :
  run acts (init b (constructor t0)) = Some p ->
  (fpsHistory (reset p) = fpsHistory (constructor t0)
   /\ historyIndex (reset p) = 0%nat /\ frameCount (reset p) = 0
   /\ drawGraph_samples (reset p) = replicate 60 (Some 60)
   /\ metrics (reset p) = metrics p)
  /\ (forall host p',
        has_panel p = true -> sampleMetrics host (reset p) = Some p' ->
        exists hf hm hd rest,
          dom p' = dom p
                   ++ WriteFps (fps (metrics p')) hf
                   :: WriteMemory (memory (metrics p')) hm
                   :: WriteDrawCalls (drawCalls (metrics p')) hd
                   :: WriteStats (triangles (metrics p'))
                        (geometries (metrics p'))
                   :: rest).
Proof.
  intros Hrun. pose proof (run_history_length _ _ _ _ Hrun) as Hl.
  assert (fpsHistory (reset p) = replicate 60 (Some 60)) as Hh.
  { unfold reset; simpl. by rewrite map_const_replicate, Hl. }
  split.
  - split; [done|]. split; [done|]. split; [done|]. split; [|done].
    unfold drawGraph_samples. rewrite Hh. reflexivity.
  - intros host p' Hp Hs. unfold sampleMetrics in Hs.
    pose proof (updateUI_keeps _ _ Hs) as (Hm & _).
    destruct (updateUI_spec (sample host (reset p)) _ Hp Hs)
      as (wf & wm & wd & Hdom & Wf & Wm & Wd & _).
    simpl in Wf, Wm, Wd. destruct Wf as [hf ->].
    destruct Wm as [hm ->]. destruct Wd as [hd ->].
    rewrite Hm. exists hf, hm, hd. eexists. rewrite Hdom. reflexivity.
Qed.

Lemma reset_restores_history_witness :
  run three_ticks (init true (constructor 0)) = Some after_three_ticks
  /\ drawGraph_samples (reset after_three_ticks) = replicate 60 (Some 60)
  /\ metrics (reset after_three_ticks) = metrics after_three_ticks.
Proof.
  assert (run three_ticks (init true (constructor 0))
          = Some after_three_ticks) as Hrun by (vm_compute; reflexivity).
  split; [exact Hrun|].
  destruct (proj1 (reset_restores_history true 0 three_ticks
                     after_three_ticks Hrun)) as (_ & _ & _ & Hs & Hm).
  split; [exact Hs|exact Hm].
Defined.

Lemma Qmult_le_unit (x w : Q) :
  (0 <= x <= 1)%Q -> (0 <= w)%Q -> (0 <= x * w <= w)%Q.
Proof. intros [? ?] ?. split; nra. Qed.

Lemma Qdiv_le_unit (n d : Z) :
  0 <= n <= d -> 0 < d -> (0 <= inject_Z n / inject_Z d <= 1)%Q.
Proof.
  intros [? ?] ?.
  assert (0 < inject_Z d)%Q by (change 0%Q with (inject_Z 0); by rewrite <- Zlt_Qlt).
  assert (0 <= inject_Z n)%Q by (change 0%Q with (inject_Z 0); by rewrite <- Zle_Qle).
  assert (inject_Z n <= inject_Z d)%Q by (by rewrite <- Zle_Qle).
  split.
  - apply Qle_shift_div_l; lra.
  - apply Qle_shift_div_r; lra.
Qed.

Lemma Math_round_nonneg q : (0 <= q)%Q -> 0 <= Math_round q.
Proof.
  intros Hq. unfold Math_round.
  change 0 with (Qfloor 0). apply Qfloor_resp_le. lra.
Qed.

Lemma tick_value_nonneg host p v :
  0 <= frameCount p -> tick_value host p = Some v -> 0 <= v.
Proof.
  unfold tick_value. intros Hf H.
  destruct (Qlt_le_dec 0 (now host - lastFpsTime p)) as [He|]; [|done].
  injection H as <-. apply Math_round_nonneg.
  apply Qmult_le_0_compat; [|done].
  apply Qmult_le_0_compat.
  - change 0%Q with (inject_Z 0). by rewrite <- Zle_Qle.
  - apply Qinv_le_0_compat. lra.
Qed.

Lemma updateUI_frameCount p p' :
  updateUI p = Some p' -> frameCount p' = frameCount p.
Proof.
  intros H. destruct (has_panel p) eqn:Hp.
  - by destruct (updateUI_spec _ _ Hp H)
      as (? & ? & ? & _ & _ & _ & _ & _ & _ & _ & _ & -> & _).
  - rewrite updateUI_without_panel in H by done. by injection H as <-.
Qed.

Lemma step_frameCount a p p' :
  0 <= frameCount p -> step a p = Some p' -> 0 <= frameCount p'.
Proof.
  intros Hf H. destruct a as [|host]; simpl in H.
  - injection H as <-. simpl. lia.
  - unfold sampleMetrics in H. rewrite (updateUI_frameCount _ _ H).
    unfold sample; simpl. destruct (Qlt_le_dec _ _); lia.
Qed.

Lemma written_nonneg acts : forall p,
  0 <= frameCount p -> Forall (fun v => 0 <= v) (written acts p).
Proof.
  induction acts as [|a acts IH]; intros p Hf; simpl; [constructor|].
  destruct (step a p) as [p1|] eqn:Hs; [|constructor].
  apply Forall_app_2; [|eapply IH, step_frameCount; eauto].
  destruct a as [|host]; [constructor|].
  destruct (tick_value host p) as [v|] eqn:Hv; simpl; [|constructor].
  repeat constructor. eapply tick_value_nonneg; eauto.
Qed.

(** X8: The graph stays on the canvas: on a [w] by [h] canvas every one of the
    sixty points of the stroked line has a finite ordinate and lies
    between the left and right edge and between top and bottom, whatever
    the run; frame rates above 70 are drawn on the top edge. *)
Theorem graph_stays_on_canvas b t0 acts p (w h : Q) :
  run acts (init b (constructor t0)) = Some p ->
  (0 <= w)%Q -> (0 <= h)%Q ->
  length (drawGraph_path w h p) = 60%nat
  /\ Forall (fun pt => (0 <= fst pt <= w)%Q
                       /\ exists y, snd pt = Some y /\ (0 <= y <= h)%Q)
       (drawGraph_path w h p).
Proof.
  intros Hrun Hw Hh.
  destruct (run_ring_inv _ _ _ _ Hrun (init_ring_inv b t0)) as (_ & _ & Hread).
  set (chron := last_n 60 (replicate 60 60 ++ written acts (init b (constructor t0)))) in *.
  assert (Forall (fun v => 0 <= v) chron) as Hpos.
  { unfold chron, last_n. apply Forall_drop, Forall_app_2.
    - apply Forall_replicate. lia.
    - by apply written_nonneg. }
  unfold drawGraph_path. rewrite Hread. split.
  - rewrite length_map, length_zip_with, length_seq, length_fmap.
    pose proof (ring_inv_length _ _
                  (run_ring_inv _ _ _ _ Hrun (init_ring_inv b t0))) as Hlen.
    fold chron in Hlen. lia.
  - apply Forall_forall. intros pt Hin.
    apply list_elem_of_In, in_map_iff in Hin as ([i ov] & <- & Hin).
    apply list_elem_of_In in Hin.
    pose proof (elem_of_zip_l _ _ _ _ Hin) as Hi.
    pose proof (elem_of_zip_r _ _ _ _ Hin) as Hv.
    apply elem_of_seq in Hi.
    apply list_elem_of_fmap in Hv as (v & -> & Hv).
    rewrite Forall_forall in Hpos. specialize (Hpos v Hv).
    simpl. split.
    + apply Qmult_le_unit; [|done].
      apply (Qdiv_le_unit (Z.of_nat i) 59); lia.
    + eexists; split; [reflexivity|].
      pose proof (Qmult_le_unit (inject_Z (Z.min 70 v) / 70) h
                    (Qdiv_le_unit (Z.min 70 v) 70 ltac:(lia) ltac:(lia)) Hh)
        as [? ?].
      split; lra.
Qed.

Lemma graph_stays_on_canvas_witness :
  (run three_ticks (init true (constructor 0)) = Some after_three_ticks
   /\ (0 <= 200)%Q /\ (0 <= 40)%Q)
  /\ length (drawGraph_path 200 40 after_three_ticks) = 60%nat.
Proof.
  assert (run three_ticks (init true (constructor 0))
          = Some after_three_ticks) as Hrun by (vm_compute; reflexivity).
  assert (0 <= 200)%Q as Hw by (unfold Qle; simpl; lia).
  assert (0 <= 40)%Q as Hh by (unfold Qle; simpl; lia).
  split; [split; [exact Hrun|split; [exact Hw|exact Hh]]|].
  exact (proj1 (graph_stays_on_canvas true 0 three_ticks after_three_ticks
                  200 40 Hrun Hw Hh)).
Defined.

End PanelTheorems.

(** ** Placement of the trees and respawning *)

Section Forest.
Import Eff SceneController.

Lemma place_one_placed host t f i c mt mf :
  t <> f -> unit_random host ->
  store c !! t = Some mt -> store c !! f = Some mf ->
  let c' := place_one host t f i c in
  (exists a b,
      well_placed a b
      /\ store c' !! t = Some (set_slot i a mt)
      /\ store c' !! f = Some (set_slot i b mf))
  /\ (forall id, id <> t -> id <> f -> store c' !! id = store c !! id)
  /\ scene c' = scene c
  /\ treeInstancedMesh c' = treeInstancedMesh c
  /\ currentTreeCount c' = currentTreeCount c
  /\ next_id c' = next_id c.
Proof.
  intros Hne Hrand Ht Hf c'. split; [|split; [|done]].
  - eexists _, _. unfold c', place_one, setMatrixAt, set_store. simpl.
    split; [|split].
    2: { rewrite lookup_alter_ne by done. rewrite lookup_alter_eq, Ht.
         reflexivity. }
    2: { rewrite lookup_alter_eq. rewrite lookup_alter_ne by done.
         rewrite Hf. reflexivity. }
    unfold well_placed, spreadRadius; simpl.
    pose proof (Hrand (random_calls c)).
    pose proof (Hrand (random_calls c + 1)%nat).
    pose proof (Hrand (random_calls c + 2)%nat).
    pose proof (Hrand (random_calls c + 3)%nat).
    repeat split; try reflexivity; lra.
  - intros id H1 H2. unfold c', place_one, setMatrixAt, set_store. simpl.
    by rewrite !lookup_alter_ne by done.
Qed.

Lemma set_slot_planted P i a b mt mf :
  length (instanceMatrix mt) = length (instanceMatrix mf) ->
  well_placed a b -> planted P mt mf ->
  planted (fun j => P j \/ j = i) (set_slot i a mt) (set_slot i b mf).
Proof.
  intros Hlen Hab Hp j Hj Hlt. unfold set_slot in *; simpl in *.
  rewrite length_insert in Hlt.
  destruct (decide (j = i)) as [->|Hne].
  - exists a, b. rewrite !list_lookup_insert_eq by lia. done.
  - rewrite !list_lookup_insert_ne by done.
    apply Hp; [|done]. destruct Hj; [done|congruence].
Qed.

Lemma place_fold_placed host t f :
  t <> f -> unit_random host ->
  forall (idxs : list nat) c mt mf (P : nat -> Prop),
    store c !! t = Some mt -> store c !! f = Some mf ->
    length (instanceMatrix mt) = length (instanceMatrix mf) ->
    planted P mt mf ->
    let c' := fold_left (fun acc i => place_one host t f i acc) idxs c in
    (exists mt' mf',
        store c' !! t = Some mt' /\ store c' !! f = Some mf'
        /\ same_shape mt mt' /\ same_shape mf mf'
        /\ planted (fun j => P j \/ j ∈ idxs) mt' mf')
    /\ (forall id, id <> t -> id <> f -> store c' !! id = store c !! id)
    /\ scene c' = scene c
    /\ treeInstancedMesh c' = treeInstancedMesh c
    /\ currentTreeCount c' = currentTreeCount c
    /\ next_id c' = next_id c.
Proof.
  intros Hne Hrand idxs.
  induction idxs as [|i idxs IH]; intros c mt mf P Ht Hf Hlen Hp c'.
  - split; [|done]. exists mt, mf. unfold c'; simpl.
    repeat split; try done.
    intros j [Hj|Hj] Hlt; [by apply Hp|by apply elem_of_nil in Hj].
  - unfold c'. simpl.
    destruct (place_one_placed host t f i c mt mf Hne Hrand Ht Hf)
      as ((a & b & Hab & Ht1 & Hf1) & Ho & Hs & Hm & Hc & Hn).
    destruct (IH _ _ _ (fun j => P j \/ j = i) Ht1 Hf1) as
        ((mt' & mf' & Ht' & Hf' & Hst & Hsf & Hpl) & Ho' & Hs' & Hm' & Hc' & Hn').
    { unfold set_slot; simpl. by rewrite !length_insert. }
    { by apply set_slot_planted. }
    split; [|split].
    + exists mt', mf'. split; [done|]. split; [done|].
      split; [eapply same_shape_trans; [apply set_slot_shape|done]|].
      split; [eapply same_shape_trans; [apply set_slot_shape|done]|].
      intros j Hj Hlt. apply Hpl; [|done].
      rewrite elem_of_cons in Hj. tauto.
    + intros id H1 H2. rewrite Ho' by done. by apply Ho.
    + rewrite Hs', Hm', Hc', Hn'. done.
Qed.

Lemma unit_random_nonneg host :
  unit_random host -> forall k, (0 <= random host k)%Q.
Proof. intros H k. apply H. Qed.

Lemma scenery_filter_ref id l :
  List.filter (fun o => match o with MeshRef _ => false | _ => true end)
    (filter (fun o => is_ref id o = false) l)
  = List.filter (fun o => match o with MeshRef _ => false | _ => true end) l.
Proof.
  induction l as [|o l IH]; [done|].
  rewrite filter_cons. destruct o; simpl; rewrite ?IH; try done.
  case_bool_decide; simpl; by rewrite IH.
Qed.

Lemma scenery_remove id c : scenery (scene_remove id c) = scenery c.
Proof. apply scenery_filter_ref. Qed.

Lemma scenery_add id c : scenery (scene_add id c) = scenery c.
Proof.
  unfold scenery, scene_add, set_scene; simpl.
  rewrite List.filter_app, scenery_filter_ref. simpl. by rewrite app_nil_r.
Qed.

Lemma scenery_cleanup c : scenery (cleanup c) = scenery c.
Proof.
  unfold cleanup. destruct (treeInstancedMesh c) as [[t f]|]; [|done].
  change (scenery (scene_remove f (scene_remove t c)) = scenery c).
  by rewrite !scenery_remove.
Qed.

Lemma cleanup_store c id m :
  store (cleanup c) !! id = Some m ->
  (is_current c id /\ disposed m)
  \/ (~ is_current c id /\ store c !! id = Some m).
Proof.
  unfold cleanup, is_current.
  destruct (treeInstancedMesh c) as [[t f]|]; simpl.
  - unfold set_store; simpl.
    destruct (decide (id = f)) as [->|Hf].
    + rewrite lookup_alter_eq. intros H. left. split; [eauto|].
      destruct (alter dispose_mesh t (store c) !! f); [|done].
      simpl in H. injection H as <-. done.
    + rewrite lookup_alter_ne by done.
      destruct (decide (id = t)) as [->|Ht].
      * rewrite lookup_alter_eq. intros H. left. split; [eauto|].
        destruct (store c !! t); [|done].
        simpl in H. injection H as <-. done.
      * rewrite lookup_alter_ne by done. intros H. right. split; [|done].
        intros (t' & f' & E & Hid). injection E as <- <-. tauto.
  - intros H. right. split; [|done]. by intros (? & ? & ? & _).
Qed.

Lemma cleanup_dom c id :
  is_Some (store (cleanup c) !! id) <-> is_Some (store c !! id).
Proof.
  unfold cleanup. destruct (treeInstancedMesh c) as [[t f]|]; [|done].
  unfold set_store; simpl.
  unfold is_Some. setoid_rewrite lookup_alter_Some.
  split.
  - intros (m & [(-> & m' & H & _)|(? & H)]).
    + apply lookup_alter_Some in H as [(-> & ? & ? & _)|(? & ?)]; eauto.
    + apply lookup_alter_Some in H as [(-> & ? & ? & _)|(? & ?)]; eauto.
  - intros (m & H).
    destruct (decide (f = id)) as [->|Hf].
    + destruct (decide (t = id)) as [->|Ht].
      * eexists. left. split; [done|]. eexists. split; [|done].
        apply lookup_alter_Some. left. eauto.
      * eexists. left. split; [done|]. eexists. split; [|done].
        apply lookup_alter_Some. right. eauto.
    + destruct (decide (t = id)) as [->|Ht].
      * eexists. right. split; [done|].
        apply lookup_alter_Some. left. eauto.
      * eexists. right. split; [done|].
        apply lookup_alter_Some. right. eauto.
Qed.

(** What spawnTrees builds, slot by slot. *)
Lemma spawn_build_store host n c :
  0 <= n -> can_allocate host n = true -> unit_random host ->
  let t := next_id c in
  let f := S t in
  exists c' mt mf,
    spawn_build host n c = (Returned (t, f), c')
    /\ store c' !! t = Some mt /\ store c' !! f = Some mf
    /\ length (instanceMatrix mt) = Z.to_nat n
    /\ planted (fun _ => True) mt mf
    /\ (forall id, id <> t -> id <> f ->
          store c' !! id = store (cleanup c) !! id)
    /\ next_id c' = S f
    /\ scenery c' = scenery c.
Proof.
  intros Hn Hcan Hrand t f.
  destruct (cleanup_fields c) as (Hc1 & Hm1 & Hn1 & _).
  assert (Htf : t <> f) by (unfold f; lia).
  set (fresh k := mkMesh k n (replicate (Z.to_nat n) None) false false false).
  set (c3 := mkController
               (<[f := fresh Foliage]> (<[t := fresh Trunk]> (store (cleanup c))))
               (S f) (scene (cleanup c)) (treeInstancedMesh (cleanup c))
               (currentTreeCount (cleanup c)) (random_calls (cleanup c))).
  assert (Ht3 : store c3 !! t = Some (fresh Trunk)).
  { unfold c3; simpl. rewrite lookup_insert_ne by done.
    by rewrite lookup_insert_eq. }
  assert (Hf3 : store c3 !! f = Some (fresh Foliage)).
  { unfold c3; simpl. by rewrite lookup_insert_eq. }
  destruct (place_fold_placed host t f Htf Hrand (seq 0 (Z.to_nat n)) c3
              (fresh Trunk) (fresh Foliage) (fun _ => False) Ht3 Hf3)
    as ((mt & mf & Ht4 & Hf4 & Hst & Hsf & Hpl) & Ho4 & Hs4 & _ & _ & Hn4).
  { done. }
  { intros i []. }
  fold (place_all host t f n c3) in Ht4, Hf4, Hs4, Ho4, Hn4.
  set (c4 := place_all host t f n c3) in *.
  set (c8 := scene_add f (scene_add t (set_needsUpdate f (set_needsUpdate t c4)))).
  set (up m := mkMesh (kind m) (count m) (instanceMatrix m) true
                 (geometry_disposed m) (material_disposed m)).
  exists c8, (up mt), (up mf). split.
  { unfold spawn_build, mbind, M_bind, bind, modify, new_InstancedMesh.
    rewrite Hcan. simpl. rewrite Hn1. reflexivity. }
  destruct Hst as (_ & _ & _ & _ & _ & Hlt). simpl in Hlt.
  rewrite length_replicate in Hlt.
  split; [|split; [|split; [|split; [|split; [|split]]]]].
  - unfold c8, scene_add, set_scene, set_needsUpdate, set_store. simpl.
    rewrite lookup_alter_ne by done. by rewrite lookup_alter_eq, Ht4.
  - unfold c8, scene_add, set_scene, set_needsUpdate, set_store. simpl.
    rewrite lookup_alter_eq. rewrite lookup_alter_ne by done. by rewrite Hf4.
  - done.
  - intros i _ Hi. simpl in *. apply Hpl; [|done].
    right. apply elem_of_seq. lia.
  - intros id H1 H2.
    unfold c8, scene_add, set_scene, set_needsUpdate, set_store. simpl.
    rewrite !lookup_alter_ne by done. rewrite Ho4 by done.
    unfold c3; simpl. by rewrite !lookup_insert_ne by done.
  - unfold c8; simpl. rewrite Hn4. done.
  - unfold c8. rewrite !scenery_add.
    change (scenery c4 = scenery c). unfold scenery. rewrite Hs4.
    apply scenery_cleanup.
Qed.

Lemma spawnTrees_publish host n c c1 t f :
  spawn_build host n c = (Returned (t, f), c1) ->
  spawnTrees host n c
  = (Returned tt,
     mkController (store c1) (next_id c1) (scene c1) (Some (t, f)) n
       (random_calls c1)).
Proof.
  intros H. unfold spawnTrees, mbind, M_bind, bind. rewrite H. reflexivity.
Qed.

Lemma spawnTrees_tidy host n c :
  0 <= n -> can_allocate host n = true -> unit_random host -> tidy c ->
  exists c',
    spawnTrees host n c = (Returned tt, c')
    /\ tidy c' /\ scenery c' = scenery c
    /\ currentTreeCount c' = n /\ population_draw_calls c' = 2%nat.
Proof.
  intros Hn Hcan Hrand (Hk & Hdisp & Hids & _).
  destruct (spawn_build_spec host n c Hn Hcan Hk (unit_random_nonneg _ Hrand))
    as (c1 & Hbuild & _ & _ & Hbatches & _ & _).
  destruct (spawn_build_store host n c Hn Hcan Hrand)
    as (c1' & mt & mf & Hbuild' & Ht & Hf & _ & _ & Hother & Hnext & Hsc).
  rewrite Hbuild in Hbuild'. injection Hbuild' as <-.
  set (t := next_id c) in *. set (f := S t) in *.
  eexists. split; [apply (spawnTrees_publish _ _ _ _ _ _ Hbuild)|].
  split; [|split; [done|split; [done|]]].
  2: { unfold population_draw_calls, scene_batches in *. simpl.
       by rewrite Hbatches. }
  split; [|split; [|split]].
  - intros id Hin. unfold scene_batches in *; simpl in *.
    rewrite Hbatches in Hin. exists t, f. split; [done|].
    rewrite !elem_of_cons in Hin.
    destruct Hin as [->|[->|Hin]]; [tauto|tauto|by apply elem_of_nil in Hin].
  - intros id m Hm. simpl in Hm.
    destruct (decide (id = t)) as [->|Hnt]; [left; exists t, f; auto|].
    destruct (decide (id = f)) as [->|Hnf]; [left; exists t, f; auto|].
    right. rewrite Hother in Hm by done.
    destruct (cleanup_store _ _ _ Hm) as [[_ Hd]|[Hnc Hm']]; [done|].
    destruct (Hdisp _ _ Hm'); [done|done].
  - intros id m Hm. simpl in *. rewrite Hnext.
    destruct (decide (id = t)) as [->|Hnt]; [unfold f; lia|].
    destruct (decide (id = f)) as [->|Hnf]; [lia|].
    rewrite Hother in Hm by done.
    assert (is_Some (store c !! id)) as [m' Hm'].
    { apply cleanup_dom. eauto. }
    specialize (Hids _ _ Hm'). unfold f, t. lia.
  - intros t' f' E. simpl in E. injection E as <- <-.
    simpl. split; [unfold f; lia|]. split; eauto.
Qed.

End Forest.

Section ForestTheorems.
Import Eff SceneController OrbryaEngine.

(** X9: Every tree spawnTrees(n) makes stands inside the forest square: for
    each index below n, the trunk and the foliage instance share place,
    scale and turn, lie within 45 units of the origin along x and z (the
    ground plane is 100 wide), the trunk at height 1 and the foliage 3.5
    times the scale up, scaled between 0.7 and 1.3. *)
Theorem trees_well_placed host n c :
  0 <= n -> can_allocate host n = true -> unit_random host ->
  exists c' t f mt mf,
    spawnTrees host n c = (Returned tt, c')
    /\ treeInstancedMesh c' = Some (t, f)
    /\ store c' !! t = Some mt /\ store c' !! f = Some mf
    /\ forall i, (i < Z.to_nat n)%nat ->
         exists a b,
           instanceMatrix mt !! i = Some (Some a)
           /\ instanceMatrix mf !! i = Some (Some b)
           /\ well_placed a b.
Proof.
  intros Hn Hcan Hrand.
  destruct (spawn_build_store host n c Hn Hcan Hrand)
    as (c1 & mt & mf & Hbuild & Ht & Hf & Hlen & Hpl & _).
  eexists _, (next_id c), (S (next_id c)), mt, mf.
  split; [apply (spawnTrees_publish _ _ _ _ _ _ Hbuild)|].
  split; [done|]. split; [done|]. split; [done|].
  intros i Hi. apply Hpl; [done|lia].
Qed.

(** X10: Respawning never leaks: after any number of spawnTrees calls the
    scene holds exactly the two batches of the last call next to the
    untouched lights, ground and grid, and every batch made by an earlier
    call has had its geometry and material disposed. *)
Theorem respawn_keeps_tidy host ns : forall c,
  Forall (fun n => 0 <= n /\ can_allocate host n = true) ns ->
  unit_random host -> tidy c ->
  exists c',
    spawn_each host ns c = (Returned tt, c')
    /\ tidy c' /\ scenery c' = scenery c
    /\ (ns <> [] ->
        population_draw_calls c' = 2%nat
        /\ last ns = Some (currentTreeCount c')).
Proof.
  induction ns as [|n ns IH]; intros c Hns Hrand Htidy.
  - exists c. done.
  - inversion Hns as [|? ? [Hn Hcan] Hns']; subst.
    destruct (spawnTrees_tidy host n c Hn Hcan Hrand Htidy)
      as (c1 & Hs & Ht1 & Hsc1 & Hc1 & Hd1).
    destruct (IH c1 Hns' Hrand Ht1) as (c' & Hs' & Ht' & Hsc' & Hlast).
    exists c'. split.
    { simpl. unfold mbind, M_bind, bind. rewrite Hs. exact Hs'. }
    split; [done|]. split; [congruence|]. intros _.
    destruct ns as [|n' ns].
    + simpl in Hs'. injection Hs' as <-. simpl. split; [done|congruence].
    + destruct Hlast as [? ?]; [done|]. split; [done|]. done.
Qed.

Lemma next_level_cases current :
  (current = 25 /\ next_level current = Some 50)
  \/ (current = 50 /\ next_level current = Some 100)
  \/ (current = 100 /\ next_level current = Some 175)
  \/ (current = 175 /\ next_level current = Some 300)
  \/ (current = 300 /\ next_level current = Some 25)
  \/ ((current ∉ OrbryaEngine.levels) /\ next_level current = Some 25).
Proof.
  unfold next_level, OrbryaEngine.levels.
  destruct (decide (current = 25)) as [->|H1]; [left; done|].
  destruct (decide (current = 50)) as [->|H2]; [right; left; done|].
  destruct (decide (current = 100)) as [->|H3]; [do 2 right; left; done|].
  destruct (decide (current = 175)) as [->|H4]; [do 3 right; left; done|].
  destruct (decide (current = 300)) as [->|H5]; [do 4 right; left; done|].
  do 5 right. split.
  - rewrite !elem_of_cons, elem_of_nil. tauto.
  - unfold indexOf. rewrite !bool_decide_eq_false_2 by congruence.
    reflexivity.
Qed.

Lemma can_allocate_le host n m :
  0 <= m <= n -> can_allocate host n = true -> can_allocate host m = true.
Proof.
  unfold can_allocate. intros Hm H.
  apply andb_true_iff in H as [H1 H2].
  apply Z.leb_le in H1, H2. apply andb_true_iff. split; apply Z.leb_le; lia.
Qed.

(** X11: The T shortcut cycles 25, 50, 100, 175, 300 and back to 25; from any
    other count (one set by the editor, say) it goes to 25.  Whatever the
    count was, the press respawns at one of the five levels. *)
Theorem T_key_cycles :
  (forall current,
     exists next, next_level current = Some next /\ next ∈ OrbryaEngine.levels)
  /\ (forall current,
        current ∉ OrbryaEngine.levels -> next_level current = Some 25)
  /\ (next_level 25 = Some 50 /\ next_level 50 = Some 100
      /\ next_level 100 = Some 175 /\ next_level 175 = Some 300
      /\ next_level 300 = Some 25)
  /\ (forall host c,
        unit_random host -> can_allocate host 300 = true -> tidy c ->
        exists c',
          press_T host c = (Returned tt, c')
          /\ next_level (currentTreeCount c) = Some (currentTreeCount c')
          /\ currentTreeCount c' ∈ OrbryaEngine.levels
          /\ population_draw_calls c' = 2%nat /\ tidy c').
Proof.
  assert (forall current,
            exists next, next_level current = Some next
                         /\ next ∈ OrbryaEngine.levels) as Hnext.
  { intros current. unfold OrbryaEngine.levels.
    destruct (next_level_cases current)
      as [[_ ->]|[[_ ->]|[[_ ->]|[[_ ->]|[[_ ->]|[_ ->]]]]]];
      eexists; (split; [reflexivity|]);
      rewrite !elem_of_cons; tauto. }
  split; [exact Hnext|]. split.
  { intros current Hnot.
    destruct (next_level_cases current)
      as [[-> _]|[[-> _]|[[-> _]|[[-> _]|[[-> _]|[_ ->]]]]]]; try done;
      exfalso; apply Hnot; unfold OrbryaEngine.levels;
      rewrite !elem_of_cons; tauto. }
  split; [done|].
  intros host c Hrand Hcan Htidy.
  destruct (Hnext (currentTreeCount c)) as (next & Hn & Hin).
  assert (0 <= next <= 300) as Hrange.
  { unfold OrbryaEngine.levels in Hin. rewrite !elem_of_cons in Hin.
    destruct Hin as [->|[->|[->|[->|[->|Hin]]]]];
      [lia..|by apply elem_of_nil in Hin]. }
  destruct (spawnTrees_tidy host next c ltac:(lia)
              (can_allocate_le _ _ _ Hrange Hcan) Hrand Htidy)
    as (c' & Hs & Ht' & _ & Hc' & Hd').
  exists c'. split.
  { unfold press_T, mbind, M_bind, bind, get. rewrite Hn. exact Hs. }
  rewrite Hc'. done.
Qed.

Lemma host_eighths_unit : unit_random host_eighths.
Proof.
  intros k. unfold Qle, Qlt; simpl.
  pose proof (Nat.mod_upper_bound k 8 ltac:(done)). lia.
Qed.

Lemma initial_scene_tidy : tidy initial_scene.
Proof.
  set (c0 := set_scene
               (fun _ => [AmbientLight; DirectionalLight; Ground; Grid])
               constructor).
  assert (tidy c0) as H0.
  { split; [|split; [|split]].
    - intros id Hin. by apply elem_of_nil in Hin.
    - intros id m Hm. simpl in Hm. by rewrite lookup_empty in Hm.
    - intros id m Hm. simpl in Hm. by rewrite lookup_empty in Hm.
    - intros t f Hm. done. }
  destruct (spawnTrees_tidy host_eighths 25 c0 ltac:(lia) eq_refl
              host_eighths_unit H0) as (c' & Hs & Ht & _).
  change initial_scene with (snd (spawnTrees host_eighths 25 c0)).
  by rewrite Hs.
Qed.

Lemma trees_well_placed_witness :
  (0 <= 50 /\ can_allocate host_eighths 50 = true
   /\ unit_random host_eighths)
  /\ exists c' t f mt mf,
       spawnTrees host_eighths 50 initial_scene = (Returned tt, c')
       /\ treeInstancedMesh c' = Some (t, f)
       /\ store c' !! t = Some mt /\ store c' !! f = Some mf
       /\ forall i, (i < Z.to_nat 50)%nat ->
            exists a b,
              instanceMatrix mt !! i = Some (Some a)
              /\ instanceMatrix mf !! i = Some (Some b)
              /\ well_placed a b.
Proof.
  assert (0 <= 50) as H1 by lia.
  assert (can_allocate host_eighths 50 = true) as H2 by reflexivity.
  split; [split; [exact H1|split; [exact H2|exact host_eighths_unit]]|].
  exact (trees_well_placed host_eighths 50 initial_scene H1 H2
           host_eighths_unit).
Defined.

Lemma respawn_keeps_tidy_witness :
  (Forall (fun n => 0 <= n /\ can_allocate host_eighths n = true) [300; 50]
   /\ unit_random host_eighths /\ tidy initial_scene)
  /\ exists c',
       spawn_each host_eighths [300; 50] initial_scene = (Returned tt, c')
       /\ tidy c' /\ scenery c' = scenery initial_scene
       /\ population_draw_calls c' = 2%nat
       /\ Some 50 = Some (currentTreeCount c').
Proof.
  assert (Forall (fun n => 0 <= n /\ can_allocate host_eighths n = true)
            [300; 50]) as Hns.
  { repeat constructor; lia. }
  split; [split; [exact Hns|split;
            [exact host_eighths_unit|exact initial_scene_tidy]]|].
  destruct (respawn_keeps_tidy host_eighths [300; 50] initial_scene Hns
              host_eighths_unit initial_scene_tidy)
    as (c' & Hs & Ht & Hsc & Hlast).
  destruct (Hlast ltac:(discriminate)) as [Hd Hc].
  exists c'. split; [exact Hs|]. split; [exact Ht|]. split; [exact Hsc|].
  split; [exact Hd|exact Hc].
Defined.

Lemma T_key_cycles_witness :
  (unit_random host_eighths /\ can_allocate host_eighths 300 = true
   /\ tidy initial_scene)
  /\ exists c',
       press_T host_eighths initial_scene = (Returned tt, c')
       /\ next_level (currentTreeCount initial_scene)
          = Some (currentTreeCount c')
       /\ population_draw_calls c' = 2%nat.
Proof.
  assert (can_allocate host_eighths 300 = true) as Hcan by reflexivity.
  split; [split; [exact host_eighths_unit|split;
            [exact Hcan|exact initial_scene_tidy]]|].
  destruct (proj2 (proj2 (proj2 T_key_cycles)) host_eighths initial_scene
              host_eighths_unit Hcan initial_scene_tidy)
    as (c' & Hp & Hn & _ & Hd & _).
  exists c'. split; [exact Hp|]. split; [exact Hn|exact Hd].
Defined.

End ForestTheorems.

(** ** Execute, undo and the callbacks *)

Section ExecutorFacts.
Import JS Regex Eff CodeExecutor SceneController Executor.

Lemma valid_limit_tracked code :
  valid (parseStudentCode code) = true ->
  exists z,
    limit (parseStudentCode code) = Some (Num z) /\ 0 <= z <= maxTreeLimit.
Proof.
  unfold parseStudentCode.
  destruct (str_match (stripComments code) re_while) as [wm|].
  { match goal with
    | |- valid (addPerformanceWarnings ?r) = _ -> _ =>
        destruct (addPerformanceWarnings_keeps r) as (-> & -> & _)
    end.
    destruct (extractLimitFromCondition (trim (group wm 1))) as [x|] eqn:Hx.
    - intros _. apply extractLimitFromCondition_nonneg in Hx.
      destruct (Math_min_cap x Hx) as (z & Hz & Hr). exists z. simpl.
      by rewrite Hz.
    - unfold maxTreeLimit.
      repeat case_bool_decide; simpl; intros Hvalid; try done;
        eexists; (split; [reflexivity|lia]). }
  destruct (str_match (stripComments code) re_for) as [fm|] eqn:Hf.
  { match goal with
    | |- valid (addPerformanceWarnings ?r) = _ -> _ =>
        destruct (addPerformanceWarnings_keeps r) as (-> & -> & _)
    end.
    intros _. apply str_match_for, parseInt_digits_nonneg in Hf.
    simpl.
    match goal with
    | |- exists z, Some (Math_min ?x _) = _ /\ _ =>
        destruct (Math_min_cap x) as (z & Hz & Hr);
          [case_bool_decide; [by apply add1_nonneg|done]|]
    end.
    exists z. by rewrite Hz. }
  destruct (str_match (stripComments code) re_assign) as [am|] eqn:Ha.
  { match goal with
    | |- valid (addPerformanceWarnings ?r) = _ -> _ =>
        destruct (addPerformanceWarnings_keeps r) as (-> & -> & _)
    end.
    intros _. apply str_match_assign, parseInt_digits_nonneg in Ha.
    simpl. destruct (Math_min_cap _ Ha) as (z & Hz & Hr).
    exists z. by rewrite Hz. }
  done.
Qed.

Lemma notify_returns {A} (cb : option (A -> Reply)) entry arg ex :
  (forall f, cb = Some f -> f arg = Returns) ->
  notify cb entry arg ex
  = (Returned tt,
     mkExecutor (sceneController ex) (lastResult ex) (history ex)
       (onExecute ex) (onError ex) (onValidate ex)
       (calls ex ++ heard cb entry)).
Proof.
  intros H. unfold notify. destruct cb as [f|]; simpl.
  - unfold mbind, M_bind, bind, modify. rewrite (H f eq_refl). reflexivity.
  - rewrite app_nil_r. by destruct ex.
Qed.

(** execute() on a text the extractor accepts. *)
Lemma execute_valid host env code ex :
  callbacks_return ex -> tidy (sceneController ex) ->
  unit_random host -> can_allocate host maxTreeLimit = true ->
  valid (parseStudentCode code) = true ->
  exists r ex',
    execute host env code ex = (Returned r, ex')
    /\ success r = true
    /\ r_errors r = errors (parseStudentCode code)
    /\ r_warnings r = warnings (parseStudentCode code)
    /\ previousCount r = currentTreeCount (sceneController ex)
    /\ limit (parseStudentCode code) = Some (Num (treeCount r))
    /\ 0 <= treeCount r <= maxTreeLimit
    /\ currentTreeCount (sceneController ex') = treeCount r
    /\ population_draw_calls (sceneController ex') = 2%nat
    /\ tidy (sceneController ex')
    /\ history ex'
       = history ex ++ [mkHistoryEntry (previousCount r) (now env)]
    /\ lastResult ex' = Some r
    /\ calls ex' = calls ex ++ heard (onExecute ex) (OnExecute r).
Proof.
  intros [Hexec Herr] Htidy Hrand Hcan Hvalid.
  unfold execute.
  unfold mbind at 1, M_bind at 1, bind at 1, get at 1. cbv zeta.
  rewrite Hvalid.
  destruct (valid_limit_tracked code Hvalid) as (n & Hlim & Hn).
  rewrite Hlim.
  rewrite bool_decide_eq_false_2 by done. cbn [negb orb].
  destruct (spawnTrees_tidy host n (sceneController ex) ltac:(lia)
              (can_allocate_le _ _ _ Hn Hcan) Hrand Htidy)
    as (c' & Hs & Ht' & _ & Hc' & Hd').
  unfold mbind, M_bind, bind, modify, try_catch, on_scene, get, mret,
    M_ret, ret.
  simpl. rewrite Hs. simpl.
  rewrite (notify_returns (onExecute ex)) by (intros; by apply Hexec).
  simpl. eexists _, _. split; [reflexivity|]. simpl.
  do 4 (split; [done|]). split; [done|]. split; [lia|].
  do 2 (split; [done|]). split; [exact Ht'|]. done.
Qed.

(** X12: execute(code) never throws, and it succeeds exactly on the texts the
    extractor accepts: then the scene holds the extracted number of trees
    (at most the cap) in two batches, the count it replaced is on the undo
    history and the result is the last result; on any other text the
    scene, the history and the last result are as before and the errors
    of the extractor are handed to the error callback. *)
Theorem execute_outcome host env code ex :
  callbacks_return ex -> tidy (sceneController ex) ->
  unit_random host -> can_allocate host maxTreeLimit = true ->
  let parsed := parseStudentCode code in
  exists r ex',
    execute host env code ex = (Returned r, ex')
    /\ success r = valid parsed
    /\ r_errors r = errors parsed /\ r_warnings r = warnings parsed
    /\ previousCount r = currentTreeCount (sceneController ex)
    /\ if valid parsed then
         limit parsed = Some (Num (treeCount r))
         /\ 0 <= treeCount r <= maxTreeLimit
         /\ currentTreeCount (sceneController ex') = treeCount r
         /\ population_draw_calls (sceneController ex') = 2%nat
         /\ tidy (sceneController ex')
         /\ history ex'
            = history ex ++ [mkHistoryEntry (previousCount r) (now env)]
         /\ lastResult ex' = Some r
         /\ calls ex' = calls ex ++ heard (onExecute ex) (OnExecute r)
       else
         treeCount r = 0
         /\ sceneController ex' = sceneController ex
         /\ history ex' = history ex
         /\ lastResult ex' = lastResult ex
         /\ calls ex' = calls ex ++ heard (onError ex) (OnError r).
Proof.
  intros Hcb Htidy Hrand Hcan parsed.
  destruct (valid parsed) eqn:Hvalid.
  - destruct (execute_valid host env code ex Hcb Htidy Hrand Hcan Hvalid)
      as (r & ex' & Hex & Hs & Hrest).
    exists r, ex'. fold parsed in Hrest. split; [exact Hex|].
    split; [exact Hs|]. tauto.
  - destruct Hcb as [_ Herr]. unfold execute. fold parsed.
    unfold mbind at 1, M_bind at 1, bind at 1, get at 1. cbv zeta.
    rewrite Hvalid. cbn [negb orb].
    unfold mbind, M_bind, bind, mret, M_ret, ret.
    rewrite notify_returns by (intros; by apply Herr).
    eexists _, _. split; [reflexivity|]. simpl. done.
Qed.

Lemma fresh_executor_callbacks : callbacks_return fresh_executor.
Proof. by split. Qed.

Lemma fifty_trees_parsed :
  valid (parseStudentCode fifty_trees) = true
  /\ limit (parseStudentCode fifty_trees) = Some (Num 50).
Proof. split; vm_compute; reflexivity. Qed.

Lemma execute_outcome_witness :
  (callbacks_return fresh_executor
   /\ tidy (sceneController fresh_executor)
   /\ unit_random host_eighths
   /\ can_allocate host_eighths maxTreeLimit = true)
  /\ exists r ex',
       execute host_eighths steady_clock fifty_trees fresh_executor
       = (Returned r, ex')
       /\ success r = true
       /\ Some (Num 50) = Some (Num (treeCount r))
       /\ currentTreeCount (sceneController ex') = treeCount r
       /\ lastResult ex' = Some r.
Proof.
  assert (can_allocate host_eighths maxTreeLimit = true) as Hcan
    by reflexivity.
  split; [split; [exact fresh_executor_callbacks|split;
            [exact initial_scene_tidy|split;
               [exact host_eighths_unit|exact Hcan]]]|].
  destruct (execute_outcome host_eighths steady_clock fifty_trees
              fresh_executor fresh_executor_callbacks initial_scene_tidy
              host_eighths_unit Hcan)
    as (r & ex' & Hex & Hs & _ & _ & _ & Hrest).
  destruct fifty_trees_parsed as [Hv Hl]. rewrite Hv in Hs, Hrest.
  rewrite Hl in Hrest.
  destruct Hrest as (Hn & _ & Hc & _ & _ & _ & Hlast & _).
  exists r, ex'. split; [exact Hex|]. split; [exact Hs|].
  split; [exact Hn|]. split; [exact Hc|exact Hlast].
Defined.

Lemma spawnTrees_refused host n c :
  can_allocate host n = false ->
  exists message, spawnTrees host n c = (Thrown message, cleanup c).
Proof.
  intros H. eexists.
  unfold spawnTrees, spawn_build, mbind, M_bind, bind, modify,
    new_InstancedMesh.
  rewrite H. reflexivity.
Qed.

(** X13: An error thrown inside spawnTrees does not leave execute(): it comes
    back as a failed result with one more error line, after the error
    callback has seen it; the count it meant to replace is on the history
    all the same, and the old batches are released. *)
Theorem execute_reports_spawn_failure host env code ex n :
  valid (parseStudentCode code) = true ->
  limit (parseStudentCode code) = Some (Num n) ->
  can_allocate host n = false ->
  (forall f r, onError ex = Some f -> f r = Returns) ->
  exists r message ex',
    execute host env code ex = (Returned r, ex')
    /\ success r = false /\ treeCount r = 0
    /\ r_errors r
       = errors (parseStudentCode code) ++ [runtime_error message]
    /\ sceneController ex' = cleanup (sceneController ex)
    /\ history ex'
       = history ex
         ++ [mkHistoryEntry (currentTreeCount (sceneController ex)) (now env)]
    /\ lastResult ex' = lastResult ex
    /\ calls ex' = calls ex ++ heard (onError ex) (OnError r).
Proof.
  intros Hvalid Hlim Hcan Herr.
  destruct (spawnTrees_refused host n (sceneController ex) Hcan)
    as (message & Hs).
  unfold execute.
  unfold mbind at 1, M_bind at 1, bind at 1, get at 1. cbv zeta.
  rewrite Hvalid, Hlim. rewrite bool_decide_eq_false_2 by done.
  cbn [negb orb].
  unfold on_throw, mbind, M_bind, bind, modify, try_catch, on_scene, get,
    mret, M_ret, ret.
  simpl. rewrite Hs. simpl.
  rewrite (notify_returns (onError ex)) by (intros; by apply Herr).
  simpl. eexists _, message, _. split; [reflexivity|]. simpl. done.
Qed.

Lemma execute_reports_spawn_failure_witness :
  (valid (parseStudentCode fifty_trees) = true
   /\ limit (parseStudentCode fifty_trees) = Some (Num 50)
   /\ can_allocate cramped_host 50 = false)
  /\ exists r message ex',
       execute cramped_host steady_clock fifty_trees fresh_executor
       = (Returned r, ex')
       /\ success r = false /\ treeCount r = 0
       /\ r_errors r
          = errors (parseStudentCode fifty_trees) ++ [runtime_error message]
       /\ sceneController ex' = cleanup (sceneController fresh_executor).
Proof.
  destruct fifty_trees_parsed as [Hv Hl].
  assert (can_allocate cramped_host 50 = false) as Hcan by reflexivity.
  split; [split; [exact Hv|split; [exact Hl|exact Hcan]]|].
  destruct (execute_reports_spawn_failure cramped_host steady_clock
              fifty_trees fresh_executor 50 Hv Hl Hcan ltac:(done))
    as (r & message & ex' & Hex & Hs & Ht & He & Hc & _).
  exists r, message, ex'. split; [exact Hex|]. split; [exact Hs|].
  split; [exact Ht|]. split; [exact He|exact Hc].
Defined.

(** X14: undo() with nothing to undo reports so and changes nothing; after an
    execute() that succeeded it respawns the count that execute()
    replaced and takes that entry off the history again. *)
Theorem undo_restores_count host env code ex :
  (history ex = [] ->
   undo host ex
   = (Returned (mkUndoResult false (Some "Nothing to undo"%string) None), ex))
  /\ (callbacks_return ex -> tidy (sceneController ex) ->
      unit_random host -> can_allocate host maxTreeLimit = true ->
      valid (parseStudentCode code) = true ->
      0 <= currentTreeCount (sceneController ex) <= maxTreeLimit ->
      exists r ex1 u ex2,
        execute host env code ex = (Returned r, ex1)
        /\ undo host ex1 = (Returned u, ex2)
        /\ u_success u = true
        /\ u_treeCount u = Some (currentTreeCount (sceneController ex))
        /\ currentTreeCount (sceneController ex2)
           = currentTreeCount (sceneController ex)
        /\ population_draw_calls (sceneController ex2) = 2%nat
        /\ history ex2 = history ex).
Proof.
  split.
  - intros H. unfold undo, mbind, M_bind, bind, get. by rewrite H.
  - intros Hcb Htidy Hrand Hcan Hvalid Hprev.
    destruct (execute_valid host env code ex Hcb Htidy Hrand Hcan Hvalid)
      as (r & ex1 & Hex & _ & _ & _ & Hp & _ & _ & _ & _ & Ht1 & Hh1 & _).
    destruct (spawnTrees_tidy host (currentTreeCount (sceneController ex))
                (sceneController ex1) ltac:(lia)
                (can_allocate_le _ _ _ Hprev Hcan) Hrand Ht1)
      as (c2 & Hs & _ & _ & Hc2 & Hd2).
    exists r, ex1. eexists _, _. split; [done|].
    unfold undo, mbind, M_bind, bind, get, modify, on_scene, mret, M_ret, ret.
    rewrite Hh1, last_snoc, removelast_last, Hp. simpl. rewrite Hs. simpl.
    split; [reflexivity|]. simpl. done.
Qed.

Lemma undo_restores_count_witness :
  (callbacks_return fresh_executor
   /\ tidy (sceneController fresh_executor)
   /\ unit_random host_eighths
   /\ can_allocate host_eighths maxTreeLimit = true
   /\ valid (parseStudentCode fifty_trees) = true
   /\ 0 <= currentTreeCount (sceneController fresh_executor)
        <= maxTreeLimit)
  /\ exists r ex1 u ex2,
       execute host_eighths steady_clock fifty_trees fresh_executor
       = (Returned r, ex1)
       /\ undo host_eighths ex1 = (Returned u, ex2)
       /\ u_success u = true
       /\ currentTreeCount (sceneController ex2)
          = currentTreeCount (sceneController fresh_executor)
       /\ history ex2 = history fresh_executor.
Proof.
  assert (can_allocate host_eighths maxTreeLimit = true) as Hcan
    by reflexivity.
  destruct fifty_trees_parsed as [Hv _].
  assert (0 <= currentTreeCount (sceneController fresh_executor)
          <= maxTreeLimit) as Hprev by (vm_compute; split; discriminate).
  split; [split; [exact fresh_executor_callbacks|split;
            [exact initial_scene_tidy|split;
               [exact host_eighths_unit|split;
                  [exact Hcan|split; [exact Hv|exact Hprev]]]]]|].
  destruct (proj2 (undo_restores_count host_eighths steady_clock
                     fifty_trees fresh_executor)
              fresh_executor_callbacks initial_scene_tidy host_eighths_unit
              Hcan Hv Hprev)
    as (r & ex1 & u & ex2 & Hex & Hu & Hs & _ & Hc & _ & Hh).
  exists r, ex1, u, ex2. split; [exact Hex|]. split; [exact Hu|].
  split; [exact Hs|]. split; [exact Hc|exact Hh].
Defined.

End ExecutorFacts.

(** ** The manager's progress, the sampling timer and the overall status *)

Section ManagerFacts.
Import InfiniteForest ScenarioManager.

Lemma onScenarioComplete_spec ev m :
  let m' := _onScenarioComplete ev m in
  (NoDup (completed (progress m)) -> NoDup (completed (progress m')))
  /\ (forall id, id ∈ completed (progress m')
        <-> id ∈ completed (progress m)
            \/ (ev_success ev = true /\ ev_scenario ev = id))
  /\ totalTime (progress m') = totalTime (progress m) + ev_duration ev
  /\ currentAttempts (progress m') = currentAttempts (progress m)
  /\ codeEditor m' = codeEditor m
  /\ length (console m')
     = (length (console m) + if codeEditor m then 1 else 0)%nat.
Proof.
  intros m'. unfold m', _onScenarioComplete. simpl.
  destruct (ev_success ev); simpl.
  - case_bool_decide as Hin; simpl.
    + split; [done|]. split.
      * intros id. split; [tauto|]. intros [?|(_ & <-)]; done.
      * repeat split; try done.
        destruct (codeEditor m); rewrite ?length_app; simpl; lia.
    + split.
      * intros Hnd. apply NoDup_app. split; [done|]. split.
        -- intros x Hx Hx'. apply list_elem_of_singleton in Hx'. by subst.
        -- apply NoDup_singleton.
      * split.
        -- intros id. rewrite elem_of_app, list_elem_of_singleton.
           split; [intros [?| ->]; [by left|by right]|].
           intros [?|(_ & <-)]; [by left|by right].
        -- repeat split; try done.
           destruct (codeEditor m); rewrite ?length_app; simpl; lia.
  - split; [done|]. split.
    + intros id. split; [tauto|]. intros [?|[? _]]; done.
    + repeat split; try done.
      destruct (codeEditor m); rewrite ?length_app; simpl; lia.
Qed.

(** X15: The manager's progress: whatever completion events arrive, and
    however often, a scenario is listed as completed once, exactly when
    one of its events reported success, while the total time adds up the
    durations of all events, repeated and failed ones included. *)
Theorem progress_lists_each_scenario_once events : forall m,
  NoDup (completed (progress m)) ->
  let m' := after_events events m in
  NoDup (completed (progress m'))
  /\ (forall id, id ∈ completed (progress m')
        <-> id ∈ completed (progress m)
            \/ exists ev, ev ∈ events /\ ev_success ev = true
                          /\ ev_scenario ev = id)
  /\ totalTime (progress m') = totalTime (progress m) + durations events.
Proof.
  induction events as [|ev events IH]; intros m Hnd; simpl.
  - split; [done|]. split; [|lia].
    intros id. split; [by left|]. intros [?|(ev & Hin & _)]; [done|].
    by apply elem_of_nil in Hin.
  - destruct (onScenarioComplete_spec ev m) as (Hnd1 & Hin1 & Ht1 & _).
    destruct (IH (_onScenarioComplete ev m) (Hnd1 Hnd)) as (Hnd' & Hin' & Ht').
    split; [done|]. split; [|unfold after_events in *; lia].
    intros id. unfold after_events in *. rewrite Hin', Hin1. split.
    + intros [[?|[? ?]]|(ev' & Hev' & ? & ?)]; [by left|right..].
      * exists ev. split; [by left|done].
      * exists ev'. split; [by right|done].
    + intros [?|(ev' & Hev' & ? & ?)]; [by left; left|].
      apply elem_of_cons in Hev' as [->|Hev'].
      * left. right. done.
      * right. eauto.
Qed.

Lemma progress_lists_each_scenario_once_witness :
  NoDup (completed (progress (constructor true)))
  /\ NoDup (completed
              (progress
                 (after_events [forest_completed 4000; forest_completed 6000]
                    (constructor true))))
  /\ completed
       (progress
          (after_events [forest_completed 4000; forest_completed 6000]
             (constructor true)))
     = ["infinite-forest"%string]
  /\ totalTime
       (progress
          (after_events [forest_completed 4000; forest_completed 6000]
             (constructor true)))
     = 0 + durations [forest_completed 4000; forest_completed 6000].
Proof.
  assert (NoDup (completed (progress (constructor true)))) as Hnd
    by constructor.
  destruct (progress_lists_each_scenario_once
              [forest_completed 4000; forest_completed 6000]
              (constructor true) Hnd) as (Hnd' & _ & Ht).
  split; [exact Hnd|]. split; [exact Hnd'|]. split; [reflexivity|exact Ht].
Defined.

End ManagerFacts.

Section TimerFacts.
Import Updates.

Lemma startUpdates_one t :
  one_timer t ->
  one_timer (startUpdates t) /\ is_Some (updateInterval (startUpdates t)).
Proof.
  intros H. unfold startUpdates.
  destruct (updateInterval t) as [h|] eqn:E.
  - split; [done|]. rewrite E. eauto.
  - destruct H as [Ha Hf]. rewrite E in Ha.
    split; [split; simpl|simpl; eauto].
    + by rewrite Ha.
    + rewrite Ha. simpl. repeat constructor. lia.
Qed.

Lemma stopUpdates_one t :
  one_timer t ->
  one_timer (stopUpdates t) /\ updateInterval (stopUpdates t) = None.
Proof.
  intros H. unfold stopUpdates.
  destruct (updateInterval t) as [h|] eqn:E; [|done].
  destruct H as [Ha Hf]. rewrite E in Ha.
  split; [|done]. split; simpl; rewrite Ha;
    rewrite filter_cons, decide_False by (intros H; by apply H);
    rewrite filter_nil; [done|constructor].
Qed.

Lemma set_visible_one b t : one_timer t -> one_timer (set_visible b t).
Proof. done. Qed.

Lemma apply_op_one op t : one_timer t -> one_timer (apply_op op t).
Proof.
  intros H. destruct op; simpl;
    unfold init, show, hide, dispose, toggleProfiler, toggleLiteMode;
    repeat case_match;
    first [apply startUpdates_one|apply stopUpdates_one];
    try apply set_visible_one; done.
Qed.

Lemma apply_ops_one ops : forall t,
  one_timer t -> one_timer (apply_ops ops t).
Proof.
  induction ops as [|op ops IH]; intros t H; simpl; [done|].
  apply IH. by apply apply_op_one.
Qed.

Lemma constructor_one h0 : one_timer (constructor h0).
Proof. split; [done|constructor]. Qed.

(** X16: The profiler never runs two sampling timers: after any sequence of
    init, startUpdates, stopUpdates, show, hide, dispose and the two
    toggles, at most one interval is alive, and it is the one whose
    handle the profiler holds; after hide, dispose or stopUpdates none
    is alive, after init, show or startUpdates exactly one. *)
Theorem at_most_one_sampling_timer ops h0 :
  let t := apply_ops ops (constructor h0) in
  (length (alive t) <= 1)%nat
  /\ alive t = match updateInterval t with Some h => [h] | None => [] end
  /\ (forall op, op = Hide \/ op = Dispose \/ op = StopUpdates ->
        alive (apply_op op t) = [])
  /\ (forall op, op = Init \/ op = Show \/ op = StartUpdates ->
        length (alive (apply_op op t)) = 1%nat).
Proof.
  intros t.
  pose proof (apply_ops_one ops _ (constructor_one h0)) as Ht.
  fold t in Ht.
  assert (Ht' := Ht).
  destruct Ht as [Ha Hf]. split; [|split; [done|split]].
  - rewrite Ha. destruct (updateInterval t); simpl; lia.
  - intros op Hop.
    assert (one_timer (apply_op op t) /\ updateInterval (apply_op op t) = None)
      as [[Ha' _] E].
    { destruct Hop as [-> | [-> | ->]]; simpl; unfold hide, dispose;
        apply stopUpdates_one; exact Ht'. }
    by rewrite Ha', E.
  - intros op Hop.
    assert (one_timer (apply_op op t) /\ is_Some (updateInterval (apply_op op t)))
      as [[Ha' _] [h E]].
    { destruct Hop as [-> | [-> | ->]]; simpl; unfold init, show;
        apply startUpdates_one; exact Ht'. }
    by rewrite Ha', E.
Qed.

Lemma at_most_one_sampling_timer_witness :
  (Hide = Hide \/ Hide = Dispose \/ Hide = StopUpdates)
  /\ alive (apply_ops [Init; Show; StartUpdates; ToggleLiteMode false]
              (constructor 1)) = [1%positive]
  /\ alive (apply_op Hide
              (apply_ops [Init; Show; StartUpdates; ToggleLiteMode false]
                 (constructor 1))) = [].
Proof.
  assert (Hide = Hide \/ Hide = Dispose \/ Hide = StopUpdates) as Hop
    by (by left).
  split; [exact Hop|]. split; [reflexivity|].
  exact (proj1 (proj2 (proj2 (at_most_one_sampling_timer
                                [Init; Show; StartUpdates;
                                 ToggleLiteMode false] 1)))
           Hide Hop).
Defined.

End TimerFacts.

Section StatusFacts.
Import JS VisualProfiler ProfilingTestSuite.

(** X17: The overall status of the test suite is GREEN whatever the profiler
    reports: it reads the property [class] of the health objects, which
    getHealth builds with the keys c, i and l, so all three read
    'unknown'.  A frame rate below 30, which getHealth rates critical,
    still gives GREEN. *)
Theorem getOverallStatus_always_green p report :
  getMetrics p = Some report ->
  getOverallStatus report = "GREEN"%string
  /\ (thresholds p = default_thresholds -> fps (metrics p) < 30 ->
      c (health_fps report) = "critical"%string).
Proof.
  intros Hr. split; [reflexivity|]. intros Ht Hlow.
  pose proof (getHealth_fps p (fps (metrics p))) as Hf.
  rewrite Ht in Hf.
  change (default_thresholds !! "fps"%string)
    with (Some (mkThreshold 45 30)) in Hf.
  unfold getMetrics in Hr.
  destruct (getHealth p "fps" (fps (metrics p))) as [hf|]; [|done].
  destruct (getHealth p "memory" _) as [hm|]; [|done].
  destruct (getHealth p "drawCalls" _) as [hd|]; [|done].
  simpl in Hr, Hf. injection Hr as <-. simpl. injection Hf as ->.
  unfold band_higher_is_better. simpl.
  repeat case_decide; try done; lia.
Qed.

Lemma getOverallStatus_always_green_witness :
  (getMetrics after_slow_tick = Some slow_report
   /\ thresholds after_slow_tick = default_thresholds
   /\ fps (metrics after_slow_tick) < 30)
  /\ getOverallStatus slow_report = "GREEN"%string
  /\ c (health_fps slow_report) = "critical"%string.
Proof.
  assert (getMetrics after_slow_tick = Some slow_report) as Hr
    by (vm_compute; reflexivity).
  assert (thresholds after_slow_tick = default_thresholds) as Ht
    by (vm_compute; reflexivity).
  assert (fps (metrics after_slow_tick) < 30) as Hlow
    by (vm_compute; reflexivity).
  split; [split; [exact Hr|split; [exact Ht|exact Hlow]]|].
  destruct (getOverallStatus_always_green after_slow_tick slow_report Hr)
    as [Hg Hc].
  split; [exact Hg|exact (Hc Ht Hlow)].
Defined.

End StatusFacts.

(** ** The loader and the scenario's own parser *)

Section LoaderFacts.
Import JS Regex ScenarioLoader SolutionParser.

Lemma below_Num z lo : below (Num z) lo = false ->
  forall b, lo = Some b -> b <> 0 -> b <= z.
Proof.
  intros H b -> Hb. unfold below in H. simpl in H.
  apply Z.eqb_neq in Hb. rewrite Hb in H. simpl in H.
  by apply Z.ltb_ge in H.
Qed.

Lemma above_Num z hi : above (Num z) hi = false ->
  forall b, hi = Some b -> b <> 0 -> z <= b.
Proof.
  intros H b -> Hb. unfold above, gt in H. simpl in H.
  apply Z.eqb_neq in Hb. rewrite Hb in H. simpl in H.
  by apply Z.ltb_ge in H.
Qed.

Lemma validate_patterns_accepts d code sol : forall patterns,
  validate_patterns patterns d code = Some sol ->
  ScenarioLoader.valid sol = true ->
  exists before pattern after caps,
    patterns = before ++ pattern :: after
    /\ Forall (fun q => str_match code (p_regex q) = None) before
    /\ str_match code (p_regex pattern) = Some caps
    /\ feedback sol = FromPattern (p_feedback pattern)
    /\ extractedValue sol = extract caps
    /\ forall z, extract caps = Some (Num z) ->
         within z (minValue pattern) (maxValue pattern).
Proof.
  induction patterns as [|q l IH]; simpl.
  - destruct (story d); simpl; [|done]. by intros [= <-].
  - destruct (str_match code (p_regex q)) as [caps|] eqn:Hm.
    + intros Hsol Hv. exists [], q, l, caps.
      split; [done|]. split; [done|]. split; [done|].
      destruct (extract caps) as [v|] eqn:Hx.
      * destruct (below v (minValue q)) eqn:Hb;
          [by injection Hsol as <-|].
        destruct (above v (maxValue q)) eqn:Ha;
          [by injection Hsol as <-|].
        injection Hsol as <-. simpl. split; [done|]. split; [done|].
        intros z [= ->]. split; intros b.
        -- by apply below_Num.
        -- by apply above_Num.
      * injection Hsol as <-. by simpl.
    + intros Hsol Hv.
      destruct (IH Hsol Hv)
        as (before & p & after & caps & -> & Hbefore & Hp & Hrest).
      exists (q :: before), p, after, caps. split; [done|].
      split; [by constructor|]. done.
Qed.

(** X18: validateSolution accepts a text only through the first pattern that
    matches it, and then an extracted integer lies within that pattern's
    bounds; a capture that is no numeral reads NaN and passes any
    bounds. *)
Theorem validateSolution_respects_bounds d code :
  (forall sol,
     validateSolution d code = Some sol ->
     ScenarioLoader.valid sol = true ->
     exists before pattern after caps,
       getValidationPatterns d = before ++ pattern :: after
       /\ Forall (fun q => str_match code (p_regex q) = None) before
       /\ str_match code (p_regex pattern) = Some caps
       /\ feedback sol = FromPattern (p_feedback pattern)
       /\ extractedValue sol = extract caps
       /\ forall z, extract caps = Some (Num z) ->
            within z (minValue pattern) (maxValue pattern))
  /\ (forall pattern after caps,
        getValidationPatterns d = pattern :: after ->
        str_match code (p_regex pattern) = Some caps ->
        extract caps = Some NaN ->
        validateSolution d code
        = Some (mkSolution true (FromPattern (p_feedback pattern))
                  (Some NaN))).
Proof.
  unfold validateSolution. split.
  - intros sol. apply validate_patterns_accepts.
  - intros pattern after caps -> Hm Hx. simpl. rewrite Hm, Hx.
    unfold below, above, gt. simpl.
    destruct (minValue pattern), (maxValue pattern); simpl;
      rewrite ?andb_false_r; done.
Qed.

Lemma validateSolution_respects_bounds_witness :
  (validateSolution documented_definition (js "while (treeCount < 50)")
   = Some (mkSolution true
             (FromPattern "Great! You added a proper loop limit.")
             (Some (Num 50)))
   /\ ScenarioLoader.valid
        (mkSolution true
           (FromPattern "Great! You added a proper loop limit.")
           (Some (Num 50))) = true)
  /\ exists before pattern after caps,
       getValidationPatterns documented_definition
       = before ++ pattern :: after
       /\ str_match (js "while (treeCount < 50)") (p_regex pattern)
          = Some caps
       /\ forall z, extract caps = Some (Num z) ->
            within z (minValue pattern) (maxValue pattern).
Proof.
  assert (validateSolution documented_definition
            (js "while (treeCount < 50)")
          = Some (mkSolution true
                    (FromPattern "Great! You added a proper loop limit.")
                    (Some (Num 50)))) as Hsol by (vm_compute; reflexivity).
  split; [split; [exact Hsol|reflexivity]|].
  destruct (proj1 (validateSolution_respects_bounds documented_definition
                     (js "while (treeCount < 50)")) _ Hsol eq_refl)
    as (before & pattern & after & caps & Hp & _ & Hm & _ & _ & Hw).
  exists before, pattern, after, caps.
  split; [exact Hp|]. split; [exact Hm|exact Hw].
Defined.

Lemma run_lit_char {A} c s caps (k : jsstring -> captures -> option A) :
  run (lit_char c) (c :: s) caps k = k s caps.
Proof. simpl. unfold lit_char. cbn [run]. by rewrite N.eqb_refl. Qed.

Lemma stops_space_digit ds rest :
  digit_string ds -> stops is_space (ds ++ rest).
Proof.
  intros [Hne Hd]. destruct ds as [|d ds]; [done|].
  inversion Hd; subst. simpl. by apply digit_not_space.
Qed.

Lemma stops_digit_space sp c rest :
  spaces sp -> is_digit c = false -> stops is_digit (sp ++ c :: rest).
Proof.
  intros Hsp Hc. apply stops_app; [|done].
  apply (Forall_class_neg is_space is_digit); [apply space_not_digit|done].
Qed.

Lemma stops_word_space sp c rest :
  spaces sp -> is_word c = false -> stops is_word (sp ++ c :: rest).
Proof.
  intros Hsp Hc. apply stops_app; [|done].
  apply (Forall_class_neg is_space is_word); [apply space_not_word|done].
Qed.

(** A loop header, from its first character on: the pattern matches all
    of it and captures the numeral. *)
Lemma match_here_loop_count_op_num op sp0 sp1 sp2 sp3 ds sp4 rest :
  operator op ->
  spaces sp0 -> spaces sp1 -> spaces sp2 -> spaces sp3 -> spaces sp4 ->
  digit_string ds ->
  match_here (re_loop_count_op_num op)
    (loop_header sp0 sp1 sp2 op sp3 ds sp4 ++ rest)
  = Some (rest, <[0%nat := loop_header sp0 sp1 sp2 op sp3 ds sp4]>
                  (<[1%nat := ds]> ∅)).
Proof.
  intros Hop H0 H1 H2 H3 H4 Hds.
  destruct (operator_stops op (sp3 ++ ds ++ sp4 ++ js ")" ++ rest) Hop)
    as (_ & Hs & _).
  unfold match_here, re_loop_count_op_num.
  rewrite run_Group.
  set (whole := loop_header sp0 sp1 sp2 op sp3 ds sp4 ++ rest).
  unfold loop_header in whole. unfold whole at 1.
  rewrite <- !app_assoc.
  rewrite run_Seq, run_Lit, run_Seq.
  apply run_Star_all; [done|done|].
  rewrite run_Seq. change (js "(" ++ ?x) with (40%N :: x).
  rewrite run_lit_char, run_Seq.
  apply run_Star_all; [done|done|].
  rewrite run_Seq, run_Lit, run_Seq.
  apply run_Star_all; [done|done|].
  rewrite run_Seq, run_Lit, run_Seq.
  apply run_Star_all; [done|by apply stops_space_digit|].
  rewrite run_Seq, run_Group.
  destruct Hds as [Hne Hd].
  apply run_Plus_all; [done|done|by apply stops_digit_space|].
  rewrite run_Seq.
  apply run_Star_all; [done|done|].
  change (js ")" ++ rest) with (41%N :: rest).
  rewrite run_lit_char. f_equal. f_equal.
  rewrite take_all_minus. f_equal.
  unfold whole. apply take_all_minus.
Qed.

Lemma extract_of_match m ds :
  digit_string ds ->
  extract (<[0%nat := m]> (<[1%nat := ds]> ∅)) = Some (parseInt ds).
Proof.
  intros [Hne _]. unfold extract.
  rewrite lookup_insert_ne by done. rewrite lookup_insert_eq.
  by destruct ds.
Qed.

(** X19: Without a loaded definition the scenario's parser checks no bounds:
    it accepts a loop header with any numeral, however large or small,
    and hands that number on; through the loader the same three patterns
    reject a count below 10 or above 175. *)
Theorem fallback_parser_checks_no_bounds
    sp0 sp1 sp2 sp3 ds sp4 rest hint :
  spaces sp0 -> spaces sp1 -> spaces sp2 -> spaces sp3 -> spaces sp4 ->
  digit_string ds -> decimal_value ds < safe_bound ->
  let code := loop_header sp0 sp1 sp2 "<" sp3 ds sp4 ++ rest in
  let n := Num (decimal_value ds) in
  let accepted :=
    mkSolution true (FromPattern "Great! You added a proper loop limit.")
      (Some n) in
  _parseStudentCode None _getFallbackPatterns hint code = Some accepted
  /\ (forall d,
        acceptablePatterns d = Some _getFallbackPatterns ->
        _parseStudentCode (Some d) _getFallbackPatterns hint code
        = Some (if decimal_value ds <? 10 then
                  mkSolution false (TooLow n 10) (Some n)
                else if 175 <? decimal_value ds then
                  mkSolution false (MightLag n 175) (Some n)
                else accepted)).
Proof.
  intros H0 H1 H2 H3 H4 Hds Hsmall code n accepted.
  assert (operator "<") as Hop by (by vm_compute).
  pose proof (str_match_first _ _ _ _
                (match_here_loop_count_op_num "<" sp0 sp1 sp2 sp3 ds sp4
                   rest Hop H0 H1 H2 H3 H4 Hds)) as Hm.
  fold code in Hm.
  assert (parseInt ds = n) as Hn.
  { rewrite parseInt_digits by done. apply norm_small; [|done].
    apply decimal_value_nonneg. }
  split.
  - unfold _parseStudentCode, _getFallbackPatterns.
    cbn [match_patterns p_regex p_feedback].
    by rewrite Hm, (extract_of_match _ _ Hds), Hn.
  - intros d Hd.
    unfold _parseStudentCode, validateSolution, getValidationPatterns.
    rewrite Hd. unfold _getFallbackPatterns.
    cbn [validate_patterns p_regex default from_option id p_feedback
         minValue maxValue].
    rewrite Hm, (extract_of_match _ _ Hds), Hn.
    unfold below, above, gt, n. simpl.
    destruct (decimal_value ds <? 10); [done|].
    destruct (175 <? decimal_value ds); done.
Qed.

Lemma fallback_parser_checks_no_bounds_witness :
  (spaces (js " ") /\ spaces [] /\ digit_string (js "500")
   /\ decimal_value (js "500") < safe_bound)
  /\ _parseStudentCode None _getFallbackPatterns None
       (loop_header (js " ") [] (js " ") "<" (js " ") (js "500") []
        ++ js " { }")
     = Some (mkSolution true
               (FromPattern "Great! You added a proper loop limit.")
               (Some (Num (decimal_value (js "500"))))).
Proof.
  assert (spaces (js " ")) as Hsp by (repeat constructor).
  assert (spaces []) as Hnil by constructor.
  assert (digit_string (js "500")) as Hds
    by (split; [done|repeat constructor]).
  assert (decimal_value (js "500") < safe_bound) as Hsafe
    by (vm_compute; reflexivity).
  split; [split; [exact Hsp|split; [exact Hnil|split;
            [exact Hds|exact Hsafe]]]|].
  exact (proj1 (fallback_parser_checks_no_bounds (js " ") [] (js " ")
                  (js " ") (js "500") [] (js " { }") None
                  Hsp Hnil Hsp Hsp Hnil Hds Hsafe)).
Defined.

End LoaderFacts.

(** ** Loop headers, quickRun and the two parsers *)

Section Header.
Import JS Regex CodeExecutor.

Lemma run_lit_char_mismatch {A} c s caps
    (k : jsstring -> captures -> option A) :
  match s with d :: _ => d <> c | [] => True end ->
  run (lit_char c) s caps k = None.
Proof.
  destruct s as [|d s]; [done|]. intros H. cbn [run lit_char].
  destruct (N.eqb_spec c d); [congruence|done].
Qed.

Lemma spaces_then_close_fails {A} u tail (close : jsstring -> option A) :
  (forall d s, d <> 41%N -> close (d :: s) = None) ->
  Forall (fun c => c <> 41%N) u ->
  (exists c, last u = Some c /\ is_space c = false) ->
  star_greedy is_space (u ++ tail) close = None.
Proof.
  intros Hclose Hu. induction Hu as [|c u Hc Hu IH]; intros (x & Hl & Hx).
  - done.
  - change ((c :: u) ++ tail) with (c :: (u ++ tail)). cbn [star_greedy].
    destruct u as [|d u].
    + simpl in Hl. injection Hl as ->. rewrite Hx. by apply Hclose.
    + rewrite last_cons_cons in Hl. rewrite IH by eauto.
      rewrite Hclose by done. by destruct (is_space c).
Qed.

(** The loop header from its first character on: the pattern of the
    extractor matches all of it and captures the condition. *)
Lemma match_here_while sp0 sp1 cond sp2 rest :
  spaces sp0 -> spaces sp1 -> spaces sp2 -> plain_condition cond ->
  match_here re_while (while_header sp0 sp1 cond sp2 ++ rest)
  = Some (rest, <[0%nat := while_header sp0 sp1 cond sp2]>
                  (<[1%nat := cond]> ∅)).
Proof.
  intros H0 H1 H2 ((c1 & cond' & -> & Hc1) & Hlast & Hline & Hclose).
  unfold match_here, re_while. rewrite run_Group.
  set (whole := while_header sp0 sp1 (c1 :: cond') sp2 ++ rest).
  unfold while_header in whole. unfold whole at 1.
  rewrite <- !app_assoc.
  rewrite run_Seq, run_Lit, run_Seq.
  apply run_Star_all; [done|done|].
  rewrite run_Seq. change (js "(" ++ ?x) with (40%N :: x).
  rewrite run_lit_char, run_Seq.
  apply run_Star_all; [done|simpl; done|].
  rewrite run_Seq, run_Group. unfold Plus. rewrite run_Seq.
  change ((c1 :: cond') ++ ?x) with (c1 :: (cond' ++ x)).
  inversion Hline as [|? ? Hd1 Hline']; subst.
  cbn [run]. unfold is_dot at 1. rewrite Hd1. cbn [negb].
  apply star_lazy_first.
  - eapply Forall_impl; [exact Hline'|]. intros c Hc. unfold is_dot.
    by rewrite Hc.
  - intros m1 c m2 E. change (c :: m2 ++ ?x) with ((c :: m2) ++ x).
    apply spaces_then_close_fails.
    + intros d s Hd. by apply run_lit_char_mismatch.
    + rewrite E in Hclose. inversion Hclose as [|? ? _ Hcl]; subst.
      by apply Forall_app in Hcl as [_ Hcl].
    + destruct Hlast as (x & Hl & Hx). exists x. split; [|done].
      rewrite E in Hl. rewrite last_cons in Hl.
      rewrite last_app_cons in Hl. rewrite <- Hl.
      destruct (last (c :: m2)) eqn:E2; [done|].
      by apply last_None in E2.
  - apply star_greedy_all; [done|simpl; done|].
    change (js ")" ++ rest) with (41%N :: rest).
    rewrite run_lit_char. f_equal. f_equal.
    assert (take (length (c1 :: cond' ++ sp2 ++ 41%N :: rest)
                  - length (sp2 ++ 41%N :: rest))
              (c1 :: cond' ++ sp2 ++ 41%N :: rest) = c1 :: cond') as ->.
    { apply (take_all_minus (c1 :: cond')). }
    f_equal. unfold whole. apply take_all_minus.
Qed.

Lemma trimStart_solid c s : is_space c = false -> trimStart (c :: s) = c :: s.
Proof. intros H. simpl. by rewrite H. Qed.

Lemma trim_plain cond : plain_condition cond -> trim cond = cond.
Proof.
  intros ((c1 & cond' & -> & Hc1) & (x & Hl & Hx) & _).
  unfold trim. rewrite trimStart_solid by done.
  apply last_Some in Hl as [l' Hl]. rewrite Hl.
  rewrite rev_app_distr. change (rev [x] ++ rev l') with (x :: rev l').
  rewrite trimStart_solid by done.
  change (x :: rev l') with (rev [x] ++ rev l').
  by rewrite <- rev_app_distr, rev_involutive.
Qed.

Lemma slash_free_class (p : N -> bool) l :
  p 47%N = false -> Forall (fun c => p c = true) l -> slash_free l.
Proof. apply class_ne. Qed.

Lemma slash_free_app a b : slash_free a -> slash_free b -> slash_free (a ++ b).
Proof. apply Forall_app_2. Qed.

Lemma while_header_slash_free sp0 sp1 cond sp2 :
  spaces sp0 -> spaces sp1 -> spaces sp2 -> slash_free cond ->
  slash_free (while_header sp0 sp1 cond sp2).
Proof.
  intros H0 H1 H2 Hc. unfold while_header.
  repeat apply slash_free_app; try done;
    try (by apply (slash_free_class is_space));
    unfold slash_free; repeat constructor; done.
Qed.

(** The extractor on a text that begins with a loop header whose
    condition is plain: whatever follows the header is not looked at. *)
Lemma parse_while_header sp0 sp1 cond sp2 rest x :
  spaces sp0 -> spaces sp1 -> spaces sp2 -> plain_condition cond ->
  slash_free cond ->
  extractLimitFromCondition cond = Some x ->
  parseStudentCode (while_header sp0 sp1 cond sp2 ++ rest)
  = addPerformanceWarnings
      (mkParseResult true (Some (Math_min x (Num maxTreeLimit)))
         (Some cond) (Some PWhile) []
         (if gt x (Num maxTreeLimit) then [msg_capped] else [])).
Proof.
  intros H0 H1 H2 Hcond Hsc Hx.
  unfold parseStudentCode.
  rewrite stripComments_prefix by (by apply while_header_slash_free).
  rewrite (str_match_first _ _ _ _
             (match_here_while sp0 sp1 cond sp2 _ H0 H1 H2 Hcond)).
  rewrite group1_of_match, (trim_plain _ Hcond), Hx. reflexivity.
Qed.

Lemma comparison_plain w sp op sp' ds :
  identifier w -> spaces sp -> one_line sp -> spaces sp' -> one_line sp' ->
  digit_string ds -> op = js "<" \/ op = js "<=" ->
  plain_condition (w ++ sp ++ op ++ sp' ++ ds)
  /\ slash_free (w ++ sp ++ op ++ sp' ++ ds).
Proof.
  intros [Hw1 Hw2] Hsp Hl Hsp' Hl' [Hd1 Hd2] Hop.
  assert (one_line op /\ Forall (fun c => c <> 41%N) op /\ slash_free op)
    as (Ho1 & Ho2 & Ho3).
  { destruct Hop as [-> | ->]; repeat split; repeat constructor; done. }
  pose proof word_not_space as Hws.
  assert (forall c, is_digit c = true -> is_word c = true) as Hdw.
  { intros c Hc. unfold is_word. by rewrite Hc. }
  assert (Forall (fun c => is_word c = true) ds) as Hdsw
    by (eapply Forall_impl; [exact Hd2|exact Hdw]).
  assert (forall l, Forall (fun c => is_word c = true) l -> one_line l) as Hwl.
  { intros l Hl0. eapply Forall_impl; [exact Hl0|]. intros c Hc.
    apply not_true_is_false. intros E.
    unfold is_line_terminator in E. unfold is_word, is_digit in Hc.
    rewrite !orb_true_iff, !N.eqb_eq in E.
    rewrite !orb_true_iff, !andb_true_iff, !N.leb_le, N.eqb_eq in Hc. lia. }
  split; [split; [|split; [|split]]|].
  - destruct w as [|c w]; [done|]. exists c, (w ++ sp ++ op ++ sp' ++ ds).
    split; [done|]. inversion Hw2; subst. by apply Hws.
  - destruct (last ds) as [x|] eqn:E; [|by apply last_None in E].
    exists x. rewrite !app_assoc. apply last_Some in E as [l' ->].
    rewrite app_assoc, last_snoc. split; [done|].
    apply Hws. rewrite Forall_app, Forall_singleton in Hdsw. tauto.
  - unfold one_line. rewrite !Forall_app. repeat split; try done; by apply Hwl.
  - rewrite !Forall_app. repeat split; try done.
    + by apply (class_ne is_word).
    + by apply (class_ne is_space).
    + by apply (class_ne is_space).
    + by apply (class_ne is_word).
  - unfold slash_free. rewrite !Forall_app. repeat split; try done.
    + by apply (class_ne is_word).
    + by apply (class_ne is_space).
    + by apply (class_ne is_space).
    + by apply (class_ne is_word).
Qed.

Lemma parse_while_header_num sp0 sp1 cond sp2 rest n :
  spaces sp0 -> spaces sp1 -> spaces sp2 -> plain_condition cond ->
  slash_free cond ->
  extractLimitFromCondition cond = Some (Num n) ->
  let r := parseStudentCode (while_header sp0 sp1 cond sp2 ++ rest) in
  valid r = true /\ limit r = Some (Num (Z.min n maxTreeLimit))
  /\ condition r = Some cond /\ pattern r = Some PWhile
  /\ errors r = []
  /\ (msg_capped ∈ warnings r <-> maxTreeLimit < n).
Proof.
  intros H0 H1 H2 Hcond Hsc Hx r. unfold r.
  rewrite (parse_while_header _ _ _ _ _ _ H0 H1 H2 Hcond Hsc Hx).
  unfold maxTreeLimit, addPerformanceWarnings, push_warning, gt, le.
  cbn [Math_min lt limit truthy default valid condition pattern errors
       warnings].
  destruct (Z.ltb_spec 1000 n) as [Hn|Hn].
  - rewrite Z.min_r by lia. cbn.
    repeat split; try done. intros _. by left.
  - rewrite Z.min_l by lia.
    repeat case_match; cbn; repeat split; try done; try lia;
      rewrite ?elem_of_app, ?list_elem_of_singleton, ?elem_of_nil;
      intros Hin; try done; destruct Hin as [[]|Hin];
      by vm_compute in Hin.
Qed.

(** *** Printing a count and reading it back *)

Lemma pretty_N_char_code d :
  (d < 10)%N -> N_of_ascii (pretty_N_char d) = (48 + d)%N.
Proof.
  intros H.
  assert (d = 0 \/ d = 1 \/ d = 2 \/ d = 3 \/ d = 4 \/ d = 5 \/ d = 6
          \/ d = 7 \/ d = 8 \/ d = 9)%N as Hd by lia.
  repeat destruct Hd as [->|Hd]; try reflexivity. by subst.
Qed.

Lemma decimal_value_snoc ds c :
  decimal_value (ds ++ [c]) = 10 * decimal_value ds + digit_value c.
Proof. unfold decimal_value. by rewrite fold_left_app. Qed.

Lemma pretty_N_go_digits x : forall s,
  exists ds,
    js (pretty_N_go x s) = ds ++ js s
    /\ Forall (fun c => is_digit c = true) ds
    /\ decimal_value ds = Z.of_N x
    /\ ((0 < x)%N -> ds <> []).
Proof.
  induction (N.lt_wf_0 x) as [x _ IH]; intros s.
  assert (x = 0 \/ 0 < x)%N as [->|Hx] by lia.
  - exists []. rewrite pretty_N_go_0. by repeat split.
  - rewrite pretty_N_go_step by done.
    destruct (IH (x `div` 10)%N ltac:(by apply N.div_lt)
                (String (pretty_N_char (x `mod` 10)) s))
      as (ds & Hds & Hd & Hv & _).
    assert (x `mod` 10 < 10)%N as Hm by (by apply N.mod_lt).
    exists (ds ++ [(48 + x `mod` 10)%N]). split; [|split; [|split]].
    + rewrite Hds.
      change (js (String ?a s)) with (N_of_ascii a :: js s).
      rewrite pretty_N_char_code by done. by rewrite <- app_assoc.
    + apply Forall_app. split; [done|]. constructor; [|done].
      apply is_digit_range. clear - Hm.
      set (d := (x `mod` 10)%N) in *. clearbody d. lia.
    + rewrite decimal_value_snoc, Hv. unfold digit_value.
      pose proof (N.div_mod x 10 ltac:(done)) as Hdm. clear - Hm Hdm.
      set (d := (x `mod` 10)%N) in *. set (q := (x `div` 10)%N) in *.
      clearbody d q. lia.
    + intros _. by destruct ds.
Qed.

Lemma toString_digits z :
  0 <= z -> digit_string (toString z) /\ decimal_value (toString z) = z.
Proof.
  intros Hz. unfold toString. destruct z as [|p|p]; [| |lia].
  - split; [|done]. split; [done|]. by repeat constructor.
  - change (pretty (Z.pos p)) with (pretty_N_go (N.pos p) EmptyString).
    destruct (pretty_N_go_digits (N.pos p) EmptyString) as (ds & -> & Hd & Hv & Hne).
    change (js EmptyString) with (@nil N). rewrite app_nil_r.
    split; [|done]. split; [by apply Hne|done].
Qed.

Lemma parseInt_toString z :
  0 <= z < safe_bound -> parseInt (toString z) = Num z.
Proof.
  intros Hz. destruct (toString_digits z) as [Hd Hv]; [lia|].
  rewrite parseInt_digits by done. rewrite Hv. apply norm_small; lia.
Qed.

(** X20: A text that begins with [while ( IDENT < N )] is read as a loop to
    N trees and one with [<=] as a loop to N + 1 trees, whatever follows
    the header; the count is cut at 1000, with the cap warning exactly
    when it was larger.  White space may stand anywhere in the header;
    inside the condition it must not break the line. *)
Theorem while_loop_reads_limit sp0 sp1 w sp sp' ds sp2 rest :
  spaces sp0 -> spaces sp1 -> spaces sp2 -> identifier w ->
  spaces sp -> one_line sp -> spaces sp' -> one_line sp' ->
  digit_string ds -> decimal_value ds + 1 < safe_bound ->
  let lt_cond := w ++ sp ++ js "<" ++ sp' ++ ds in
  let le_cond := w ++ sp ++ js "<=" ++ sp' ++ ds in
  reads_loop (while_header sp0 sp1 lt_cond sp2 ++ rest) lt_cond
    (decimal_value ds)
  /\ reads_loop (while_header sp0 sp1 le_cond sp2 ++ rest) le_cond
       (decimal_value ds + 1).
Proof.
  intros H0 H1 H2 Hw Hsp Hl Hsp' Hl' Hds Hsafe lt_cond le_cond.
  pose proof (decimal_value_nonneg ds) as Hnn.
  assert (parseInt ds = Num (decimal_value ds)) as Hp.
  { rewrite parseInt_digits by done. apply norm_small; lia. }
  split.
  - destruct (comparison_plain w sp (js "<") sp' ds) as [Hc Hs]; auto.
    apply parse_while_header_num; try done.
    unfold lt_cond. by rewrite shape_lt, Hp.
  - destruct (comparison_plain w sp (js "<=") sp' ds) as [Hc Hs]; auto.
    apply parse_while_header_num; try done.
    unfold le_cond. rewrite shape_le, Hp by done. simpl.
    by rewrite norm_small by lia.
Qed.

Lemma while_loop_reads_limit_witness :
  (spaces (js " ") /\ spaces [] /\ identifier (js "treeCount")
   /\ one_line (js " ") /\ digit_string (js "5000")
   /\ decimal_value (js "5000") + 1 < safe_bound)
  /\ reads_loop
       (while_header (js " ") []
          (js "treeCount" ++ js " " ++ js "<" ++ js " " ++ js "5000") []
        ++ js " { SpawnTree(); }")
       (js "treeCount" ++ js " " ++ js "<" ++ js " " ++ js "5000")
       (decimal_value (js "5000")).
Proof.
  assert (spaces (js " ")) as Hsp by (repeat constructor).
  assert (spaces []) as Hnil by constructor.
  assert (identifier (js "treeCount")) as Hw
    by (split; [done|repeat constructor]).
  assert (one_line (js " ")) as Hl by (repeat constructor).
  assert (digit_string (js "5000")) as Hds
    by (split; [done|repeat constructor]).
  assert (decimal_value (js "5000") + 1 < safe_bound) as Hsafe
    by (vm_compute; reflexivity).
  split; [split; [exact Hsp|split; [exact Hnil|split; [exact Hw|split;
            [exact Hl|split; [exact Hds|exact Hsafe]]]]]|].
  exact (proj1 (while_loop_reads_limit (js " ") [] (js "treeCount")
                  (js " ") (js " ") (js "5000") [] (js " { SpawnTree(); }")
                  Hsp Hnil Hnil Hw Hsp Hl Hsp Hl Hds Hsafe)).
Defined.

End Header.

Section QuickRun.
Import JS Regex Eff CodeExecutor SceneController Executor.

Lemma quickRun_text count :
  js "while (treeCount < " ++ toString count ++ js ") { }"
  = while_header (js " ") []
      (js "treeCount" ++ js " " ++ js "<" ++ js " " ++ toString count) []
    ++ js " { }".
Proof.
  generalize (toString count). intros t. unfold while_header.
  change (js "while (treeCount < ")
    with (js "while" ++ js " " ++ js "(" ++ []
          ++ js "treeCount" ++ js " " ++ js "<" ++ js " ").
  change (js ") { }") with (js ")" ++ js " { }").
  by rewrite <- !app_assoc.
Qed.

Lemma quickRun_parse count :
  0 <= count < safe_bound ->
  reads_loop (js "while (treeCount < " ++ toString count ++ js ") { }")
    (js "treeCount < " ++ toString count) count.
Proof.
  intros Hc. rewrite quickRun_text.
  destruct (toString_digits count) as [Hd Hv]; [lia|].
  assert (identifier (js "treeCount")) as Hw
    by (split; [done|repeat constructor]).
  assert (spaces (js " ")) as Hsp by (repeat constructor).
  assert (one_line (js " ")) as Hl by (repeat constructor).
  destruct (comparison_plain (js "treeCount") (js " ") (js "<") (js " ")
              (toString count)) as [Hp Hs]; auto.
  change (js "treeCount < " ++ toString count)
    with (js "treeCount" ++ js " " ++ js "<" ++ js " " ++ toString count).
  apply parse_while_header_num; try done; try (by constructor).
  rewrite shape_lt by done. by rewrite parseInt_toString.
Qed.

(** X21: quickRun(n) for a count from 0 up to 2^53 - 1 succeeds and leaves
    min(n, 1000) trees in the scene, with no error line; the result
    carries the cap warning exactly when n is over 1000. *)
Theorem quickRun_spawns_count host env count ex :
  0 <= count < safe_bound ->
  callbacks_return ex -> tidy (sceneController ex) ->
  unit_random host -> can_allocate host maxTreeLimit = true ->
  exists r ex',
    quickRun host env count ex = (Returned r, ex')
    /\ success r = true
    /\ treeCount r = Z.min count maxTreeLimit
    /\ currentTreeCount (sceneController ex') = Z.min count maxTreeLimit
    /\ population_draw_calls (sceneController ex') = 2%nat
    /\ r_errors r = []
    /\ (msg_capped ∈ r_warnings r <-> maxTreeLimit < count).
Proof.
  intros Hc Hcb Htidy Hrand Hcan. unfold quickRun.
  destruct (quickRun_parse count Hc) as (Hv & Hl & _ & _ & He & Hw).
  set (code := js "while (treeCount < " ++ toString count ++ js ") { }")
    in *.
  destruct (execute_valid host env code ex Hcb Htidy Hrand Hcan Hv)
    as (r & ex' & Hex & Hs & Hre & Hrw & _ & Hn & _ & Hcount & Hdraw & _).
  rewrite Hl in Hn.
  injection Hn as Hn.
  exists r, ex'. split; [exact Hex|]. rewrite Hcount, Hre, Hrw, <- Hn.
  done.
Qed.

Lemma quickRun_spawns_count_witness :
  (0 <= 5000 < safe_bound
   /\ callbacks_return fresh_executor
   /\ tidy (sceneController fresh_executor)
   /\ unit_random host_eighths
   /\ can_allocate host_eighths maxTreeLimit = true)
  /\ exists r ex',
       quickRun host_eighths steady_clock 5000 fresh_executor
       = (Returned r, ex')
       /\ success r = true
       /\ treeCount r = Z.min 5000 maxTreeLimit
       /\ currentTreeCount (sceneController ex') = Z.min 5000 maxTreeLimit
       /\ msg_capped ∈ r_warnings r.
Proof.
  assert (0 <= 5000 < safe_bound) as Hc by (vm_compute; by split).
  assert (can_allocate host_eighths maxTreeLimit = true) as Hcan
    by reflexivity.
  split; [split; [exact Hc|split; [exact fresh_executor_callbacks|split;
            [exact initial_scene_tidy|split;
               [exact host_eighths_unit|exact Hcan]]]]|].
  destruct (quickRun_spawns_count host_eighths steady_clock 5000
              fresh_executor Hc fresh_executor_callbacks initial_scene_tidy
              host_eighths_unit Hcan)
    as (r & ex' & Hq & Hs & Ht & Hn & _ & _ & Hw).
  exists r, ex'. split; [exact Hq|]. split; [exact Hs|].
  split; [exact Ht|]. split; [exact Hn|].
  apply (proj2 Hw). vm_compute. reflexivity.
Defined.

End QuickRun.

Section TwoParsers.
Import JS Regex CodeExecutor ScenarioLoader SolutionParser.

Lemma loop_count_op_num_follow s op o caps :
  js op = [o] ->
  str_match s (re_loop_count_op_num op) = Some caps ->
  has_follow o is_digit s = true.
Proof.
  intros Hop H.
  apply str_match_sound in H as (pre & m & rest & caps0 & -> & H & _).
  unfold re_loop_count_op_num in H.
  apply matches_Seq_inv in H as (m1 & ? & ? & -> & _ & H).
  apply matches_Seq_inv in H as (m2 & ? & ? & -> & _ & H).
  apply matches_Seq_inv in H as (m3 & ? & ? & -> & _ & H).
  apply matches_Seq_inv in H as (m4 & ? & ? & -> & _ & H).
  apply matches_Seq_inv in H as (m5 & ? & ? & -> & _ & H).
  apply matches_Seq_inv in H as (m6 & ? & ? & -> & _ & H).
  apply matches_Seq_inv in H as (m7 & ? & ? & -> & Hm7 & H).
  apply matches_Seq_inv in H as (m8 & ? & ? & -> & Hm8 & H).
  apply matches_Seq_inv in H as (m9 & m10 & ? & -> & Hm9 & _).
  apply matches_Lit in Hm7 as [-> _]. rewrite Hop.
  apply matches_Star_inv in Hm8 as [Hm8 _].
  apply matches_Group_inv in Hm9 as (? & Hm9 & _).
  apply matches_Plus_inv in Hm9 as (Hne & Hd & _).
  apply has_follow_app_r. rewrite <- !app_assoc.
  do 6 apply has_follow_app_r.
  simpl. rewrite N.eqb_refl. simpl.
  destruct m9 as [|d m9]; [done|]. inversion Hd; subst.
  change ((d :: m9) ++ ?x) with (d :: m9 ++ x).
  rewrite follows_intro; [done|done|done|by apply digit_not_space].
Qed.

Lemma lt_pattern_fails_on_le sp0 sp1 sp2 sp3 ds sp4 rest :
  spaces sp0 -> spaces sp1 -> spaces sp2 -> spaces sp3 -> spaces sp4 ->
  digit_string ds -> Forall (fun c => c <> 60%N) rest ->
  str_match (loop_header sp0 sp1 sp2 "<=" sp3 ds sp4 ++ rest)
    (re_loop_count_op_num "<") = None.
Proof.
  intros H0 H1 H2 H3 H4 [_ Hd] Hrest.
  destruct (str_match _ _) as [caps|] eqn:E; [|done].
  apply (loop_count_op_num_follow _ "<" 60%N) in E; [|done].
  unfold loop_header in E. rewrite <- !app_assoc in E.
  change (js "<=" ++ ?x) with ([60%N; 61%N] ++ x) in E.
  rewrite !app_assoc in E. rewrite <- (app_assoc _ [60%N; 61%N]) in E.
  rewrite <- !app_assoc in E.
  repeat rewrite (app_assoc _ _ ([60%N; 61%N] ++ _)) in E.
  rewrite no_follow_before_equals in E; [done|done|done| |].
  - rewrite !Forall_app. repeat split;
      try (by apply (class_ne is_space)); by repeat constructor.
  - rewrite !Forall_app. repeat split;
      try (by apply (class_ne is_space));
      try (by apply (class_ne is_digit)); try done; by repeat constructor.
Qed.

(** X22: The two parsers disagree by one on [while (treeCount <= N)]: the
    scenario's own patterns accept the header and hand on N, the number
    the scenario then spawns, while the executor reads the same text as
    a loop to N + 1 trees. *)
Theorem le_header_off_by_one sp0 sp1 sp2 sp3 ds sp4 rest hint :
  spaces sp0 -> spaces sp1 -> spaces sp2 -> one_line sp2 ->
  spaces sp3 -> one_line sp3 -> spaces sp4 ->
  digit_string ds -> decimal_value ds + 1 < safe_bound ->
  Forall (fun c => c <> 60%N) rest ->
  let code := loop_header sp0 sp1 sp2 "<=" sp3 ds sp4 ++ rest in
  _parseStudentCode None _getFallbackPatterns hint code
  = Some (mkSolution true (FromPattern "Good use of <= operator!")
            (Some (Num (decimal_value ds))))
  /\ reads_loop code (js "treeCount" ++ sp2 ++ js "<=" ++ sp3 ++ ds)
       (decimal_value ds + 1).
Proof.
  intros H0 H1 H2 Hl2 H3 Hl3 H4 Hds Hsafe Hrest code.
  pose proof (decimal_value_nonneg ds) as Hnn.
  assert (parseInt ds = Num (decimal_value ds)) as Hp.
  { rewrite parseInt_digits by done. apply norm_small; lia. }
  split.
  - unfold _parseStudentCode, _getFallbackPatterns.
    cbn [match_patterns p_regex p_feedback]. unfold code.
    rewrite lt_pattern_fails_on_le by done.
    rewrite (str_match_first _ _ _ _
               (match_here_loop_count_op_num "<=" sp0 sp1 sp2 sp3 ds sp4
                  rest ltac:(by vm_compute) H0 H1 H2 H3 H4 Hds)).
    by rewrite extract_of_match, Hp.
  - assert (identifier (js "treeCount")) as Hw
      by (split; [done|repeat constructor]).
    destruct (comparison_plain (js "treeCount") sp2 (js "<=") sp3 ds)
      as [Hc Hs]; auto.
    replace code
      with (while_header sp0 sp1
              (js "treeCount" ++ sp2 ++ js "<=" ++ sp3 ++ ds) sp4 ++ rest)
      by (unfold code, loop_header, while_header; by rewrite <- !app_assoc).
    apply parse_while_header_num; try done.
    rewrite shape_le, Hp by done. simpl. by rewrite norm_small by lia.
Qed.

Lemma le_header_off_by_one_witness :
  (spaces (js " ") /\ spaces [] /\ one_line (js " ")
   /\ digit_string (js "49")
   /\ decimal_value (js "49") + 1 < safe_bound
   /\ Forall (fun c => c <> 60%N) (js " { SpawnTree(); }"))
  /\ _parseStudentCode None _getFallbackPatterns None
       (loop_header (js " ") [] (js " ") "<=" (js " ") (js "49") []
        ++ js " { SpawnTree(); }")
     = Some (mkSolution true (FromPattern "Good use of <= operator!")
               (Some (Num (decimal_value (js "49")))))
  /\ reads_loop
       (loop_header (js " ") [] (js " ") "<=" (js " ") (js "49") []
        ++ js " { SpawnTree(); }")
       (js "treeCount" ++ js " " ++ js "<=" ++ js " " ++ js "49")
       (decimal_value (js "49") + 1).
Proof.
  assert (spaces (js " ")) as Hsp by (repeat constructor).
  assert (spaces []) as Hnil by constructor.
  assert (one_line (js " ")) as Hl by (repeat constructor).
  assert (digit_string (js "49")) as Hds
    by (split; [done|repeat constructor]).
  assert (decimal_value (js "49") + 1 < safe_bound) as Hsafe
    by (vm_compute; reflexivity).
  assert (Forall (fun c => c <> 60%N) (js " { SpawnTree(); }")) as Hrest
    by (repeat constructor; done).
  split; [split; [exact Hsp|split; [exact Hnil|split; [exact Hl|split;
            [exact Hds|split; [exact Hsafe|exact Hrest]]]]]|].
  exact (le_header_off_by_one (js " ") [] (js " ") (js " ") (js "49") []
           (js " { SpawnTree(); }") None
           Hsp Hnil Hsp Hl Hsp Hl Hnil Hds Hsafe Hrest).
Defined.

End TwoParsers.

(** ** The hint system *)

Section HintFacts.
Import JS InfiniteForest Hints.

Lemma show_fields e h :
  scenario (show e h) = scenario h /\ config_hints (show e h) = config_hints h.
Proof. done. Qed.













End HintFacts.

Section HintTheorems.
Import JS InfiniteForest Hints.






End HintTheorems.

(** ** Checkpoints, score and feedback of the scenario *)

Section ScenarioFacts.
Import JS Eff InfiniteForest.

(** X25: Checkpoints are first write wins: marking a checkpoint that is already
    marked changes nothing, so the time stamp of the first marking stays;
    marking never touches another checkpoint. *)
Theorem checkpoint_first_write_wins env1 env2 cp s :
  cp ∈ checkpoint_names ->
  let s1 := _markCheckpoint env1 cp s in
  _markCheckpoint env2 cp s1 = s1
  /\ (checkpoints (session s) !! cp = None ->
      checkpoints (session s1) !! cp
      = Some (mkCheckpoint true (now env1)
                (now env1 - default 0 (s_startTime (session s)))))
  /\ (forall c, checkpoints (session s) !! cp = Some c ->
        checkpoints (session s1) !! cp = Some c)
  /\ (forall other, other <> cp ->
        checkpoints (session s1) !! other = checkpoints (session s) !! other).
Proof.
  intros _ s1. unfold s1, _markCheckpoint.
  destruct (checkpoints (session s) !! cp) as [c|] eqn:E.
  - rewrite E. repeat split; intros; simplify_eq; done.
  - simpl. rewrite lookup_insert_eq. repeat split; try done.
    intros other Hne. by rewrite lookup_insert_ne.
Qed.

Lemma checkpoint_first_write_wins_witness :
  "code_applied"%string ∈ checkpoint_names
  /\ _markCheckpoint laggy_readings "code_applied"
       (_markCheckpoint fixed_readings "code_applied" loaded_scenario)
     = _markCheckpoint fixed_readings "code_applied" loaded_scenario.
Proof.
  assert ("code_applied"%string ∈ checkpoint_names) as H
    by (do 3 apply list_elem_of_further; apply list_elem_of_here).
  split; [exact H|].
  exact (proj1 (checkpoint_first_write_wins fixed_readings laggy_readings
                  _ loaded_scenario H)).
Defined.

(** X26: The score lies between 0 and 100; more attempts, more hints or a
    later finish never raise it; a first attempt without hints scores 100
    whether or not it took less than two minutes. *)
Theorem score_bounded_and_monotone :
  (forall env s, 0 <= _calculateScore env s <= 100)
  /\ (forall env s a h a' h',
        a <= a' -> h <= h' ->
        _calculateScore env (with_counters a' h' s)
        <= _calculateScore env (with_counters a h s))
  /\ (forall env1 env2 s,
        now env1 <= now env2 ->
        _calculateScore env2 s <= _calculateScore env1 s)
  /\ (forall env s,
        s_attempts (session s) = 1 -> hintsShown (session s) = 0 ->
        _calculateScore env s = 100).
Proof.
  unfold _calculateScore, with_counters, set_session. simpl.
  split; [intros; lia|]. split; [|split].
  - intros env s a h a' h' Ha Hh.
    destruct (_ <? 120000); lia.
  - intros env1 env2 s Hn.
    destruct (now env2 - _ <? 120000) eqn:E2;
      destruct (now env1 - _ <? 120000) eqn:E1;
      rewrite ?Z.ltb_lt, ?Z.ltb_ge in *; lia.
  - intros env s -> ->. destruct (_ <? 120000); lia.
Qed.

Lemma score_bounded_and_monotone_witness :
  (1 <= 3 /\ 0 <= 2)
  /\ _calculateScore fixed_readings (with_counters 3 2 loaded_scenario)
     <= _calculateScore fixed_readings (with_counters 1 0 loaded_scenario).
Proof.
  assert (1 <= 3) as Ha by lia. assert (0 <= 2) as Hh by lia.
  split; [by split|].
  exact (proj1 (proj2 score_bounded_and_monotone) fixed_readings
           loaded_scenario 1 0 3 2 Ha Hh).
Defined.

Lemma validate_failure env s :
  ~ passes env s ->
  validate env s
  = (Returned
       (mkVerdict false (reading_fps env) (reading_treeCount env)
          (effective_targetFPS s)
          (reading_fps env - or_default (s_fpsBefore (session s)) 10)
          (story s ≫= story_failure)),
     _showFeedback env (reading_fps env) (reading_treeCount env)
       (effective_targetFPS s) (effective_min s) (effective_max s)
       (with_fpsAfter (reading_fps env) s)).
Proof.
  intros Hn. apply passes_false in Hn.
  unfold validate, mbind, M_bind, bind, get, modify, mret, M_ret, ret.
  simpl. unfold reading_fps, reading_treeCount in *.
  change (effective_targetFPS (mkForest _ _ _ _ _ _ _ _ _ _ _ _ _ _ _))
    with (effective_targetFPS s).
  rewrite Hn. simpl. f_equal.
  unfold _showFeedback, _showHintButton, editor_log, emit; simpl.
  repeat (case_match; simpl; try done).
Qed.

(** X27: What validate() tells the student when the fix does not pass: exactly
    one warning in the editor console, chosen by which threshold failed,
    frame rate first; the story's own failure text is never the one.  The
    hint button, when there is one, is shown again. *)
Theorem validate_feedback env s :
  ~ passes env s -> codeEditor env = true ->
  let fps := reading_fps env in
  let count := reading_treeCount env in
  exists m,
    events (snd (validate env s))
    = events s ++ EditorLog "warning" m
                  :: (if hintButton s then [ShowHintButton] else [])
    /\ is_story_failure m = false
    /\ m = (if fps <? effective_targetFPS s then
              if effective_max s <? count then StillTooManyTrees count fps
              else FpsButWeNeed fps (effective_targetFPS s)
            else if count <? effective_min s then LooksABitEmpty count
            else StillCausingLag count (effective_max s)).
Proof.
  intros Hn Hed fps count. rewrite (validate_failure env s Hn). simpl.
  assert ((fps <? effective_targetFPS s) = false ->
          (count <? effective_min s) = false ->
          (effective_max s <? count) = true) as Hmax.
  { intros H1 H2. apply Z.ltb_lt. apply Z.ltb_ge in H1, H2.
    unfold passes in Hn. fold fps count in Hn. lia. }
  unfold _showFeedback, _showHintButton, editor_log. rewrite Hed.
  fold fps count.
  destruct (fps <? effective_targetFPS s) eqn:E1; simpl;
    [destruct (effective_max s <? count) eqn:E2
    |destruct (count <? effective_min s) eqn:E3;
       [|rewrite (Hmax eq_refl eq_refl)]]; simpl;
    (eexists; split;
     [destruct (hintButton s); simpl; rewrite <- ?app_assoc; reflexivity
     |split; reflexivity]).
Qed.

Lemma validate_feedback_witness :
  (~ passes laggy_readings loaded_scenario
   /\ codeEditor laggy_readings = true)
  /\ exists m,
       events (snd (validate laggy_readings loaded_scenario))
       = events loaded_scenario
         ++ EditorLog "warning" m
            :: (if hintButton loaded_scenario then [ShowHintButton] else [])
       /\ is_story_failure m = false.
Proof.
  assert (~ passes laggy_readings loaded_scenario) as Hn.
  { intros [H _]. vm_compute in H. by apply H. }
  split; [by split|].
  destruct (validate_feedback laggy_readings loaded_scenario Hn eq_refl)
    as (m & Hm & Hs & _).
  exists m. by split.
Defined.

(** X28: The second completion path looks at the frame rate alone: when the
    frame rate reaches the target but the tree count is out of range,
    validate() reports failure, and a checkCompletion() call after it (as
    the test runner makes one) completes the scenario and notifies the
    subscriber. *)
Theorem checkCompletion_ignores_tree_count env s f target :
  onComplete_property s = Some f -> (forall ev, f (Some ev) = Normal) ->
  validation s ≫= targetFPS = Some target ->
  target <= reading_fps env -> ~ passes env s ->
  exists v s1 s2,
    validate env s = (Returned v, s1) /\ success v = false
    /\ state s1 = state s /\ notifications s1 = notifications s
    /\ checkCompletion env s1 = (Returned true, s2)
    /\ state s2 = Complete
    /\ notifications s2 = S (notifications s).
Proof.
  intros Hcb Hf Ht Hfps Hn.
  destruct (proj1 (validate_cases env s) Hn)
    as (v & Hv & Hsucc & Hst & _ & Hnot & _).
  destruct (validate_keeps_config env s) as [Hval Hcb1].
  destruct (validate env s) as [o s1] eqn:E. simpl in *. subst o.
  assert (fpsAfter (metrics s1) = Some (reading_fps env)) as Hafter.
  { rewrite (validate_failure env s Hn) in E. injection E as _ <-.
    unfold _showFeedback, _showHintButton, editor_log, emit.
    repeat (case_match; simpl; try done). }
  destruct (checkCompletion_completes env s1 f target) as (s2 & Hc & Hst2 & Hn2).
  - congruence.
  - done.
  - by rewrite Hval.
  - rewrite Hafter. unfold reading_fps in *. simpl.
    destruct (or_default (profiler_fps env) 0 =? 0) eqn:E0; [|done].
    apply Z.eqb_eq in E0. lia.
  - exists v, s1, s2. rewrite Hn2, Hnot. done.
Qed.

Lemma checkCompletion_ignores_tree_count_witness :
  (validation loaded_scenario ≫= targetFPS = Some 45
   /\ 45 <= reading_fps crowded_readings
   /\ ~ passes crowded_readings loaded_scenario)
  /\ exists v s1 s2,
       validate crowded_readings loaded_scenario = (Returned v, s1)
       /\ success v = false
       /\ checkCompletion crowded_readings s1 = (Returned true, s2)
       /\ state s2 = Complete.
Proof.
  assert (45 <= reading_fps crowded_readings) as Hfps
    by (vm_compute; discriminate).
  assert (~ passes crowded_readings loaded_scenario) as Hn.
  { intros [_ [_ H]]. vm_compute in H. by apply H. }
  split; [by repeat split|].
  destruct (checkCompletion_ignores_tree_count crowded_readings
              loaded_scenario ScenarioManager_onComplete 45 eq_refl
              ltac:(done) eq_refl Hfps Hn)
    as (v & s1 & s2 & Hv & Hs & _ & _ & Hc & Hst & _).
  by exists v, s1, s2.
Defined.

End ScenarioFacts.
